(** * Survey preview panel: draft parser, serializer, paginator and store

    A shallow embedding of [src/components/preview/PreviewPanel.tsx]
    (with the two collaborators of [src/lib/api.ts] it calls) and the
    properties of its specification, followed by further properties of
    the parser, the paginator, the serializer, the edit operations, save
    and export, the markdown renderer and the overview value.

    JavaScript strings are sequences of UTF-16 code units; every
    character the panel looks for lies in the Basic Multilingual Plane,
    so each is one code unit.  Regular expressions are kept as syntax
    and run by a backtracking matcher that follows the ECMAScript
    matching order (greedy quantifiers, left-first alternation). *)

From Stdlib Require Import Ascii String List NArith ZArith Arith Lia Bool.
From Stdlib Require Decimal DecimalNat Finite.
Import Corelib.Init.Datatypes.
Import ListNotations.

(* ===================================================================== *)
(** * JavaScript strings *)
(* ===================================================================== *)

Module Js.

(** A UTF-16 code unit. *)
Definition char := N.
Definition jsstring := list char.

Definition char_eqb (a b : char) : bool := N.eqb a b.

Fixpoint str_eqb (s t : jsstring) : bool :=
  match s, t with
  | [], [] => true
  | a :: s', b :: t' => char_eqb a b && str_eqb s' t'
  | _, _ => false
  end.

(** ** Literals

    Source literals are written as Rocq strings, whose characters are the
    bytes of the UTF-8 encoding; [lit] decodes them to code units (a
    character outside the BMP gives a surrogate pair; the literals of
    this development all stay inside the BMP). *)

Local Open Scope N_scope.

Fixpoint utf8_decode (bs : list N) : jsstring :=
  match bs with
  | [] => []
  | b0 :: r0 =>
      if b0 <? 0x80 then b0 :: utf8_decode r0
      else if b0 <? 0xE0 then
        match r0 with
        | b1 :: r1 =>
            N.lor (N.shiftl (N.land b0 0x1F) 6) (N.land b1 0x3F) :: utf8_decode r1
        | [] => []
        end
      else if b0 <? 0xF0 then
        match r0 with
        | b1 :: b2 :: r2 =>
            N.lor (N.shiftl (N.land b0 0x0F) 12)
                  (N.lor (N.shiftl (N.land b1 0x3F) 6) (N.land b2 0x3F))
              :: utf8_decode r2
        | _ => []
        end
      else
        match r0 with
        | b1 :: b2 :: b3 :: r3 =>
            let cp :=
              N.lor (N.shiftl (N.land b0 0x07) 18)
                    (N.lor (N.shiftl (N.land b1 0x3F) 12)
                           (N.lor (N.shiftl (N.land b2 0x3F) 6) (N.land b3 0x3F))) in
            (0xD800 + N.shiftr (cp - 0x10000) 10)
              :: (0xDC00 + N.land (cp - 0x10000) 0x3FF)
              :: utf8_decode r3
        | _ => []
        end
  end.

Definition lit (s : string) : jsstring :=
  utf8_decode (List.map N_of_ascii (list_ascii_of_string s)).

(** ** White space, line terminators, digits *)

(** [WhiteSpace] and [LineTerminator] of ECMAScript: what [\s] matches and
    what [String.prototype.trim] strips. *)
Definition is_space (c : char) : bool :=
  ((9 <=? c) && (c <=? 13)) || (c =? 32) || (c =? 0xA0) || (c =? 0x1680)
  || ((0x2000 <=? c) && (c <=? 0x200A))
  || (c =? 0x2028) || (c =? 0x2029) || (c =? 0x202F) || (c =? 0x205F)
  || (c =? 0x3000) || (c =? 0xFEFF).

(** [LineTerminator]: what [.] refuses. *)
Definition is_line_terminator (c : char) : bool :=
  (c =? 10) || (c =? 13) || (c =? 0x2028) || (c =? 0x2029).

Definition is_digit (c : char) : bool := (48 <=? c) && (c <=? 57).

Definition is_lower_ascii (c : char) : bool := (97 <=? c) && (c <=? 122).

(** ** String operations *)

Fixpoint trimStart (s : jsstring) : jsstring :=
  match s with
  | c :: s' => if is_space c then trimStart s' else s
  | [] => []
  end.

Definition trimEnd (s : jsstring) : jsstring := List.rev (trimStart (List.rev s)).

(** [s.trim()] *)
Definition trim (s : jsstring) : jsstring := trimEnd (trimStart s).

Fixpoint startsWith (p s : jsstring) : bool :=
  match p, s with
  | [], _ => true
  | a :: p', b :: s' => char_eqb a b && startsWith p' s'
  | _ :: _, [] => false
  end.

(** [s.includes(p)] *)
Fixpoint includes (p s : jsstring) : bool :=
  startsWith p s ||
  match s with
  | [] => false
  | _ :: s' => includes p s'
  end.

(** [s.split(sep)] for a one-unit separator: never empty, the empty string
    gives one empty piece. *)
Fixpoint split (sep : char) (s : jsstring) : list jsstring :=
  match s with
  | [] => [[]]
  | c :: s' =>
      if char_eqb c sep then [] :: split sep s'
      else match split sep s' with
           | piece :: rest => (c :: piece) :: rest
           | [] => [[c]]
           end
  end.

(** [s.toUpperCase()] on the Latin letters a-z; other code units are kept.
    The panel applies it to a captured type code only, which consists of
    Latin letters. *)
Definition upper_char (c : char) : char :=
  if is_lower_ascii c then c - 32 else c.

Definition toUpperCase (s : jsstring) : jsstring := List.map upper_char s.

(** Decimal rendering of a non-negative integer, as a template literal
    renders a number. *)
Fixpoint uint_units (d : Decimal.uint) : jsstring :=
  match d with
  | Decimal.Nil => []
  | Decimal.D0 d => 48 :: uint_units d
  | Decimal.D1 d => 49 :: uint_units d
  | Decimal.D2 d => 50 :: uint_units d
  | Decimal.D3 d => 51 :: uint_units d
  | Decimal.D4 d => 52 :: uint_units d
  | Decimal.D5 d => 53 :: uint_units d
  | Decimal.D6 d => 54 :: uint_units d
  | Decimal.D7 d => 55 :: uint_units d
  | Decimal.D8 d => 56 :: uint_units d
  | Decimal.D9 d => 57 :: uint_units d
  end.

Definition of_nat (n : nat) : jsstring := uint_units (Nat.to_uint n).

End Js.

Import Js.

(* ===================================================================== *)
(** * Regular expressions *)
(* ===================================================================== *)

Module Regex.

(** The fragment of ECMAScript patterns the panel uses.  No capturing
    group of the panel sits under a quantifier, so captures never have to
    be reset between iterations. *)
Inductive regex : Type :=
| Empty                                   (* the empty pattern *)
| Class (p : char -> bool)                (* one code unit of a class *)
| Cat (r1 r2 : regex)                     (* r1 r2 *)
| Alt (r1 r2 : regex)                     (* r1|r2, r1 tried first *)
| Star (greedy : bool) (r : regex)        (* r* and r*? *)
| Group (n : nat) (r : regex)             (* capturing group number n *)
| Bol                                     (* ^ without the m flag *)
| Eol.                                    (* $ without the m flag *)

Definition captures := list (nat * jsstring).

(** [m[n]] of a match result; [None] is [undefined]. *)
Fixpoint capture (n : nat) (c : captures) : option jsstring :=
  match c with
  | [] => None
  | (k, v) :: c' => if Nat.eqb k n then Some v else capture n c'
  end.

Section Matcher.
Variable R : Type.

(** A continuation receives the position reached, the input left and
    the captures so far. *)
Definition cont := nat -> jsstring -> captures -> option R.

(** The iterations of a star over a body matcher [body]: greedy tries
    one more round first, lazy tries the rest of the pattern first.  A
    round that consumes nothing is refused, as the RepeatMatcher of the
    standard does; [fuel] bounds the rounds by the input left. *)
Fixpoint star_loop (body : nat -> jsstring -> captures -> cont -> option R)
         (greedy : bool) (k : cont) (fuel : nat)
         (i : nat) (s : jsstring) (c : captures) {struct fuel} : option R :=
  match fuel with
  | O => k i s c
  | S fuel' =>
      let again :=
        fun i' s' c' =>
          if i <? i' then star_loop body greedy k fuel' i' s' c' else None in
      if greedy then
        match body i s c again with
        | Some x => Some x
        | None => k i s c
        end
      else
        match k i s c with
        | Some x => Some x
        | None => body i s c again
        end
  end.

(** Backtracking matcher in continuation-passing style: [i] is the
    position of [s] in the whole subject. *)
Fixpoint rmatch (r : regex) (i : nat) (s : jsstring) (c : captures)
         (k : cont) {struct r} : option R :=
  match r with
  | Empty => k i s c
  | Class p =>
      match s with
      | a :: s' => if p a then k (S i) s' c else None
      | [] => None
      end
  | Cat r1 r2 => rmatch r1 i s c (fun i' s' c' => rmatch r2 i' s' c' k)
  | Alt r1 r2 =>
      match rmatch r1 i s c k with
      | Some x => Some x
      | None => rmatch r2 i s c k
      end
  | Star greedy r1 => star_loop (rmatch r1) greedy k (length s) i s c
  | Group n r1 =>
      rmatch r1 i s c
        (fun i' s' c' => k i' s' ((n, firstn (i' - i) s) :: c'))
  | Bol => if Nat.eqb i 0 then k i s c else None
  | Eol => match s with [] => k i s c | _ :: _ => None end
  end.
End Matcher.

Arguments star_loop {R} body greedy k fuel i s c.
Arguments rmatch {R} r i s c k.

(** A successful match: where it starts, the input after it, its captures
    (capture 0 is the matched text). *)
Record match_result := {
  m_start : nat;
  m_rest : jsstring;
  m_caps : captures
}.

Definition match_here (r : regex) (i : nat) (s : jsstring) : option match_result :=
  rmatch (Group 0 r) i s []
    (fun _ s' c' => Some {| m_start := i; m_rest := s'; m_caps := c' |}).

(** The leftmost match at or after position [i]: every start position is
    tried in turn, the end of the subject included. *)
Fixpoint search_from (r : regex) (i : nat) (s : jsstring) : option match_result :=
  match match_here r i s with
  | Some m => Some m
  | None =>
      match s with
      | [] => None
      | _ :: s' => search_from r (S i) s'
      end
  end.

(** [s.match(r)] for a pattern without the g flag. *)
Definition exec (r : regex) (s : jsstring) : option match_result :=
  search_from r 0 s.

(** [s.replace(r, by)] for a pattern without the g flag: the first match
    only. *)
Definition replace (r : regex) (by_ : jsstring) (s : jsstring) : jsstring :=
  match exec r s with
  | Some m => firstn (m_start m) s ++ by_ ++ m_rest m
  | None => s
  end.

(** [s.replace(r, by)] for a pattern with the g flag: matches are looked
    for from left to right, each from the end of the previous one; after
    an empty match the search moves on by one unit. *)
Fixpoint replace_all_from (r : regex) (by_ : jsstring) (fuel : nat)
         (i : nat) (s : jsstring) : jsstring :=
  match fuel with
  | O => s
  | S fuel' =>
      match match_here r i s with
      | Some m =>
          if length (m_rest m) <? length s
          then by_ ++ replace_all_from r by_ fuel' (i + (length s - length (m_rest m))) (m_rest m)
          else by_ ++ match s with
                      | [] => []
                      | a :: s' => a :: replace_all_from r by_ fuel' (S i) s'
                      end
      | None =>
          match s with
          | [] => []
          | a :: s' => a :: replace_all_from r by_ fuel' (S i) s'
          end
      end
  end.

Definition replace_all (r : regex) (by_ : jsstring) (s : jsstring) : jsstring :=
  replace_all_from r by_ (S (length s)) 0 s.

(** ** Pattern combinators *)

Definition Opt (r : regex) : regex := Alt r Empty.            (* r? *)
Definition Plus (r : regex) : regex := Cat r (Star true r).   (* r+ *)
Definition Chr (c : char) : regex := Class (char_eqb c).
(** A letter under the i flag: the code units whose canonical form is the
    letter are the letter itself and its other case. *)
Definition ChrI (c : char) : regex :=
  Class (fun a => char_eqb (upper_char a) (upper_char c)).
Definition OneOf (cs : jsstring) : regex :=
  Class (fun a => existsb (char_eqb a) cs).
Definition Space : regex := Class is_space.                   (* \s *)
Definition Digit : regex := Class is_digit.                   (* \d *)
Definition Dot : regex := Class (fun a => negb (is_line_terminator a)).

Fixpoint Seq (rs : list regex) : regex :=
  match rs with
  | [] => Empty
  | [r] => r
  | r :: rs' => Cat r (Seq rs')
  end.

Fixpoint Any (rs : list regex) : regex :=
  match rs with
  | [] => Class (fun _ => false)
  | [r] => r
  | r :: rs' => Alt r (Any rs')
  end.

Arguments Chr c%_N.
Arguments ChrI c%_N.

Definition Lit (s : jsstring) : regex := Seq (List.map Chr s).
Definition LitI (s : jsstring) : regex := Seq (List.map ChrI s).

End Regex.

Import Regex.

(* ===================================================================== *)
(** * Data model *)
(* ===================================================================== *)

(** [interface Question] *)
Module Question.
Record t := mk {
  id : jsstring;
  number : jsstring;
  text : jsstring;
  options : list jsstring;
  type : jsstring;
  isOpen : bool
}.

Definition with_text (q : t) (newText : jsstring) : t :=
  mk (id q) (number q) newText (options q) (type q) (isOpen q).

Definition with_options (q : t) (newOptions : list jsstring) : t :=
  mk (id q) (number q) (text q) newOptions (type q) (isOpen q).
End Question.

(** [interface QuestionGroup] *)
Module QuestionGroup.
Record t := mk {
  startNum : nat;
  endNum : nat;
  questions : list Question.t;
  isExpanded : bool
}.

Definition with_questions (g : t) (qs : list Question.t) : t :=
  mk (startNum g) (endNum g) qs (isExpanded g).

Definition with_isExpanded (g : t) (b : bool) : t :=
  mk (startNum g) (endNum g) (questions g) b.
End QuestionGroup.

(* ===================================================================== *)
(** * The draft parser: [parseSurveyDraft] *)
(* ===================================================================== *)

Module Parser.

(** The class of the two quote characters, U+0027 and U+0022; written
    [q] in the comments below. *)
Definition quote_class : regex := OneOf [39; 34]%N.

(** The separators that make a draft count as a printed array:
    [', '] and its double-quoted twin. *)
Definition sep_single : jsstring := lit "', '".
Definition sep_double : jsstring := [34; 44; 32; 34]%N.

(** [/^\[|\]$/g] *)
Definition BRACKETS : regex :=
  Alt (Cat Bol (Chr 91)) (Cat (Chr 93) Eol).
(** [/^[q]|[q]$/g] *)
Definition OUTER_QUOTES : regex :=
  Alt (Cat Bol quote_class) (Cat quote_class Eol).
(** [/[q]\s*,\s*[q]/g] *)
Definition ITEM_SEPARATOR : regex :=
  Seq [quote_class; Star true Space; Chr 44; Star true Space; quote_class].
(** [/\\n/g]: a backslash followed by the letter n *)
Definition ESCAPED_NEWLINE : regex := Lit [92; 110]%N.

Definition newline : jsstring := [10%N].

(** The seven alternatives [SC|MA|OQ|RS|DC|RK|MG], under the i flag. *)
Definition type_code_alternatives : regex :=
  Any [LitI (lit "SC"); LitI (lit "MA"); LitI (lit "OQ"); LitI (lit "RS");
       LitI (lit "DC"); LitI (lit "RK"); LitI (lit "MG")].

(** [(?:\(\d+\))?] *)
Definition repeat_count : regex :=
  Opt (Seq [Chr 40; Plus Digit; Chr 41]).

(** [/\((SC|MA|OQ|RS|DC|RK|MG)(?:\(\d+\))?\)/i] *)
Definition TYPE_CODE_PATTERN : regex :=
  Seq [Chr 40; Group 1 type_code_alternatives; repeat_count; Chr 41].

(** [/\((?:SC|MA|OQ|RS|DC|RK|MG)(?:\(\d+\))?\)/gi] *)
Definition TYPE_CODE_TOKEN : regex :=
  Seq [Chr 40; type_code_alternatives; repeat_count; Chr 41].

(** [(\d+(?:-\d+)?)] *)
Definition question_number : regex :=
  Group 1 (Cat (Plus Digit) (Opt (Cat (Chr 45) (Plus Digit)))).

(** [/^\*?\*?문항\s*(\d+(?:-\d+)?)[.:]?\*?\*?\s*(.+)/i] and
    [/^Q(\d+(?:-\d+)?)[.:]?\s*(.+)/i] *)
Definition QUESTION_KEYWORD_PATTERNS : list regex :=
  [ Seq [Bol; Opt (Chr 42); Opt (Chr 42); Lit (lit "문항"); Star true Space;
         question_number; Opt (OneOf (lit ".:")); Opt (Chr 42); Opt (Chr 42);
         Star true Space; Group 2 (Plus Dot)];
    Seq [Bol; ChrI 81; question_number; Opt (OneOf (lit ".:"));
         Star true Space; Group 2 (Plus Dot)] ].

(** [optionPatterns] *)
Definition optionPatterns : list regex :=
  [ Seq [Bol; OneOf (lit "①②③④⑤⑥⑦⑧⑨⑩⑪⑫"); Star true Space; Group 1 (Plus Dot)];
    Seq [Bol; OneOf (lit "ⓞ"); Star true Space; Group 1 (Plus Dot)];
    Seq [Bol; Chr 40; Plus Digit; Chr 41; Star true Space; Group 1 (Plus Dot)];
    Seq [Bol; OneOf (lit "-•"); Plus Space; Group 1 (Plus Dot)];
    Seq [Bol; OneOf (lit "○●"); Star true Space; Group 1 (Plus Dot)] ].

(** [/^(\d{1,2})[.)]\s+(.+)/] *)
Definition NUMBERED_OPTION : regex :=
  Seq [Bol; Group 1 (Cat Digit (Opt Digit)); OneOf (lit ".)"); Plus Space;
       Group 2 (Plus Dot)].

(** [/^-\s*[①②③④⑤⑥⑦⑧⑨⑩]?\s*(.+)/] *)
Definition DASH_OPTION : regex :=
  Seq [Bol; Chr 45; Star true Space; Opt (OneOf (lit "①②③④⑤⑥⑦⑧⑨⑩"));
       Star true Space; Group 1 (Plus Dot)].

(** [/\*\*/g] and [/\[.*?\]/g] *)
Definition EMPHASIS : regex := Lit (lit "**").
Definition BRACKETED : regex := Seq [Chr 91; Star false Dot; Chr 93].

(** [/^[①②③④⑤⑥⑦⑧⑨⑩⑪⑫○●]\s*/] *)
Definition LEADING_GLYPH : regex :=
  Seq [Bol; OneOf (lit "①②③④⑤⑥⑦⑧⑨⑩⑪⑫○●"); Star true Space].

(** [m[n]] where group [n] took part in the match, as groups 1 and 2 of
    the patterns above always do. *)
Definition group (n : nat) (m : match_result) : jsstring :=
  match capture n (m_caps m) with
  | Some v => v
  | None => []
  end.

(** [for (const pattern of patterns) { const match = line.match(pattern);
    if (match) { ...; break } }] *)
Fixpoint first_match (patterns : list regex) (line : jsstring) : option match_result :=
  match patterns with
  | [] => None
  | pattern :: rest =>
      match exec pattern line with
      | Some m => Some m
      | None => first_match rest line
      end
  end.

(** [!s] on a string *)
Definition is_empty (s : jsstring) : bool :=
  match s with [] => true | _ :: _ => false end.

(** The local variables of the loop over the lines. *)
Record state := {
  parsedQuestions : list Question.t;
  currentQuestion : option Question.t;
  questionId : nat
}.

Definition initial : state :=
  {| parsedQuestions := []; currentQuestion := None; questionId := 0 |}.

(** [if (currentQuestion) parsedQuestions.push(currentQuestion)] *)
Definition flush (st : state) : list Question.t :=
  match currentQuestion st with
  | Some q => parsedQuestions st ++ [q]
  | None => parsedQuestions st
  end.

(** The type code of a question line. *)
Definition type_of_line (line : jsstring) : jsstring :=
  match exec TYPE_CODE_PATTERN line with
  | Some typeMatch => toUpperCase (group 1 typeMatch)
  | None => lit "SC"
  end.

(** The display text of a question, from the second capture. *)
Definition clean_question_text (captured : jsstring) : jsstring :=
  trim (replace_all TYPE_CODE_TOKEN []
          (replace_all BRACKETED []
             (replace_all EMPHASIS [] captured))).

(** The text an option line carries, or the empty string. *)
Definition extract_option (line : jsstring) : jsstring :=
  let optionText :=
    match first_match optionPatterns line with
    | Some m => group 1 m
    | None => []
    end in
  let optionText :=
    if is_empty optionText then
      match exec NUMBERED_OPTION line with
      | Some numMatch => group 2 numMatch
      | None => optionText
      end
    else optionText in
  if is_empty optionText then
    match exec DASH_OPTION line with
    | Some dashMatch => group 1 dashMatch
    | None => optionText
    end
  else optionText.

(** [optionText.split('→')[0].replace(...).replace(...).trim()] *)
Definition clean_option (optionText : jsstring) : jsstring :=
  trim (replace LEADING_GLYPH []
          (replace_all TYPE_CODE_TOKEN []
             (hd [] (split 0x2192%N optionText)))).

(** One round of the loop, on the raw line [lines[i]]. *)
Definition step (st : state) (raw : jsstring) : state :=
  let line := trim raw in
  if is_empty line then st
  else
    match first_match QUESTION_KEYWORD_PATTERNS line with
    | Some questionMatch =>
        let type := type_of_line line in
        {| parsedQuestions := flush st;
           currentQuestion :=
             Some (Question.mk
                     (lit "q_" ++ of_nat (questionId st))
                     (group 1 questionMatch)
                     (clean_question_text (group 2 questionMatch))
                     []
                     type
                     (str_eqb type (lit "OQ") || includes (lit "주관식") line));
           questionId := S (questionId st) |}
    | None =>
        match currentQuestion st with
        | Some q =>
            let optionText := extract_option line in
            if is_empty optionText then st
            else
              let optionText := clean_option optionText in
              if 0 <? length optionText then
                {| parsedQuestions := parsedQuestions st;
                   currentQuestion :=
                     Some (Question.with_options q (Question.options q ++ [optionText]));
                   questionId := questionId st |}
              else st
        | None => st
        end
    end.

(** The array-shaped draft is turned into lines before it is split. *)
Definition preprocess (draft : jsstring) : jsstring :=
  if includes sep_single draft || includes sep_double draft then
    replace_all ESCAPED_NEWLINE newline
      (replace_all ITEM_SEPARATOR newline
         (replace_all OUTER_QUOTES []
            (replace_all BRACKETS [] draft)))
  else draft.

Definition draft_lines (draft : jsstring) : list jsstring :=
  split 10%N (preprocess draft).

Definition parseSurveyDraft (draft : jsstring) : list Question.t :=
  if is_empty draft then []
  else if Nat.eqb (length (trim draft)) 0 then []
  else flush (fold_left step (draft_lines draft) initial).

End Parser.

Import Parser.

(* ===================================================================== *)
(** * The group paginator: [groupQuestions] *)
(* ===================================================================== *)

(** [qs.slice(from, to)] for [from <= to] *)
Definition slice {A} (from to : nat) (l : list A) : list A :=
  firstn (to - from) (skipn from l).

Definition groupSize : nat := 10.

(** [for (let i = 0; i < qs.length; i += groupSize) groups.push(...)];
    [fuel] bounds the number of rounds. *)
Fixpoint groupQuestions_loop (qs : list Question.t) (fuel i : nat)
         (groups : list QuestionGroup.t) : list QuestionGroup.t :=
  match fuel with
  | O => groups
  | S fuel' =>
      if i <? length qs then
        groupQuestions_loop qs fuel' (i + groupSize)
          (groups ++
             [QuestionGroup.mk (i + 1) (Nat.min (i + groupSize) (length qs))
                (slice i (i + groupSize) qs) (Nat.eqb i 0)])
      else groups
  end.

Definition groupQuestions (qs : list Question.t) : list QuestionGroup.t :=
  groupQuestions_loop qs (length qs) 0 [].

(* ===================================================================== *)
(** * The canonical serializer: [questionsToText] *)
(* ===================================================================== *)

(** [l.forEach((x, idx) => ...)] threading the variable the callback
    assigns to. *)
Fixpoint forEach {A T} (f : T -> A -> nat -> T) (l : list A) (idx : nat) (acc : T) : T :=
  match l with
  | [] => acc
  | x :: l' => forEach f l' (S idx) (f acc x idx)
  end.

Definition circledNumbers : list jsstring :=
  [lit "①"; lit "②"; lit "③"; lit "④"; lit "⑤"; lit "⑥";
   lit "⑦"; lit "⑧"; lit "⑨"; lit "⑩"; lit "⑪"; lit "⑫"].

(** [/^[①②③④⑤⑥⑦⑧⑨⑩⑪⑫○●]\s*/] *)
Definition numberPattern : regex :=
  Seq [Bol; OneOf (lit "①②③④⑤⑥⑦⑧⑨⑩⑪⑫○●"); Star true Space].

Definition option_line (text : jsstring) (opt : jsstring) (optIdx : nat) : jsstring :=
  let cleanOpt := trim (replace numberPattern [] opt) in
  let num :=
    if optIdx <? 12 then nth optIdx circledNumbers []
    else lit "(" ++ of_nat (optIdx + 1) ++ lit ")" in
  text ++ lit "   " ++ num ++ lit " " ++ cleanOpt ++ newline.

Definition question_block (text : jsstring) (q : Question.t) (idx : nat) : jsstring :=
  let text :=
    text ++ of_nat (idx + 1) ++ lit ". " ++ Question.text q
         ++ lit " (" ++ Question.type q ++ lit ")" ++ newline in
  let text :=
    if negb (Question.isOpen q) && (0 <? length (Question.options q)) then
      forEach option_line (Question.options q) 0 text
    else if Question.isOpen q then
      text ++ lit "   [주관식 응답]" ++ newline
    else text in
  text ++ newline.

Definition questionsToText (qs : list Question.t) : jsstring :=
  forEach question_block qs 0 [].

(* ===================================================================== *)
(** * The reconciliation store: component state, edits, save and export *)
(* ===================================================================== *)

Module Panel.

(** The state the component holds ([useState]) together with what it reads
    from the session store: the session id and the two text fields of
    [surveyState] it writes back. *)
Record state := {
  sessionId : option jsstring;
  survey_draft : jsstring;
  final_survey : jsstring;
  questions : list Question.t;
  questionGroups : list QuestionGroup.t;
  hasLocalChanges : bool;
  isSaving : bool;
  isExporting : bool
}.

Definition set_questions (qs : list Question.t) (s : state) : state :=
  {| sessionId := sessionId s; survey_draft := survey_draft s;
     final_survey := final_survey s; questions := qs;
     questionGroups := questionGroups s; hasLocalChanges := hasLocalChanges s;
     isSaving := isSaving s; isExporting := isExporting s |}.

Definition set_questionGroups (gs : list QuestionGroup.t) (s : state) : state :=
  {| sessionId := sessionId s; survey_draft := survey_draft s;
     final_survey := final_survey s; questions := questions s;
     questionGroups := gs; hasLocalChanges := hasLocalChanges s;
     isSaving := isSaving s; isExporting := isExporting s |}.

Definition set_hasLocalChanges (b : bool) (s : state) : state :=
  {| sessionId := sessionId s; survey_draft := survey_draft s;
     final_survey := final_survey s; questions := questions s;
     questionGroups := questionGroups s; hasLocalChanges := b;
     isSaving := isSaving s; isExporting := isExporting s |}.

Definition set_isSaving (b : bool) (s : state) : state :=
  {| sessionId := sessionId s; survey_draft := survey_draft s;
     final_survey := final_survey s; questions := questions s;
     questionGroups := questionGroups s; hasLocalChanges := hasLocalChanges s;
     isSaving := b; isExporting := isExporting s |}.

Definition set_isExporting (b : bool) (s : state) : state :=
  {| sessionId := sessionId s; survey_draft := survey_draft s;
     final_survey := final_survey s; questions := questions s;
     questionGroups := questionGroups s; hasLocalChanges := hasLocalChanges s;
     isSaving := isSaving s; isExporting := b |}.

(** [updateSurveyState({ survey_draft, final_survey })] *)
Definition updateSurveyState (draft final : jsstring) (s : state) : state :=
  {| sessionId := sessionId s; survey_draft := draft;
     final_survey := final; questions := questions s;
     questionGroups := questionGroups s; hasLocalChanges := hasLocalChanges s;
     isSaving := isSaving s; isExporting := isExporting s |}.

(** [getSurveyContent], for string-valued fields: [surveyDraft || finalSurvey],
    and the empty string when both are falsy. *)
Definition getSurveyContent (s : state) : jsstring :=
  if is_empty (survey_draft s) then final_survey s else survey_draft s.

(** The effect that runs when the survey content changes. *)
Definition rederive (s : state) : state :=
  let parsed := parseSurveyDraft (getSurveyContent s) in
  set_hasLocalChanges false
    (set_questionGroups (groupQuestions parsed) (set_questions parsed s)).

(** ** Edit operations *)

(** [setQuestions(prev => prev.map(f))] and
    [setQuestionGroups(prev => prev.map(g => ({...g, questions: g.questions.map(f)})))] *)
Definition map_both (updateFn : Question.t -> Question.t) (s : state) : state :=
  set_questionGroups
    (List.map (fun g => QuestionGroup.with_questions g
                          (List.map updateFn (QuestionGroup.questions g)))
              (questionGroups s))
    (set_questions (List.map updateFn (questions s)) s).

(** [a.map((x, idx) => f(x, idx))] *)
Fixpoint map_idx {A B} (f : A -> nat -> B) (l : list A) (idx : nat) : list B :=
  match l with
  | [] => []
  | x :: l' => f x idx :: map_idx f l' (S idx)
  end.

Definition toggleGroup (groupIdx : nat) (s : state) : state :=
  set_questionGroups
    (map_idx (fun g idx =>
                if Nat.eqb idx groupIdx
                then QuestionGroup.with_isExpanded g (negb (QuestionGroup.isExpanded g))
                else g)
             (questionGroups s) 0)
    s.

Definition updateQuestionText (questionId newText : jsstring) (s : state) : state :=
  set_hasLocalChanges true
    (map_both (fun q => if str_eqb (Question.id q) questionId
                        then Question.with_text q newText else q) s).

(** [a[i] = x] on an array of strings, for an integer [i].  A negative
    index names a property, not an element; the index [a.length] appends.
    Beyond that JavaScript leaves empty slots in between, and the result
    is no longer an array of strings: [None]. *)
Definition array_assign (a : list jsstring) (i : Z) (x : jsstring) : option (list jsstring) :=
  if (i <? 0)%Z then Some a
  else if (i <? Z.of_nat (length a))%Z then
    Some (firstn (Z.to_nat i) a ++ x :: skipn (S (Z.to_nat i)) a)
  else if (i =? Z.of_nat (length a))%Z then Some (a ++ [x])
  else None.

Fixpoint mapM {A B} (f : A -> option B) (l : list A) : option (list B) :=
  match l with
  | [] => Some []
  | x :: l' =>
      match f x, mapM f l' with
      | Some y, Some ys => Some (y :: ys)
      | _, _ => None
      end
  end.

Definition updateOption_fn (questionId : jsstring) (optionIdx : Z) (newText : jsstring)
           (q : Question.t) : option Question.t :=
  if str_eqb (Question.id q) questionId then
    match array_assign (Question.options q) optionIdx newText with
    | Some newOptions => Some (Question.with_options q newOptions)
    | None => None
    end
  else Some q.

Definition updateOption (questionId : jsstring) (optionIdx : Z) (newText : jsstring)
           (s : state) : option state :=
  let updateFn := updateOption_fn questionId optionIdx newText in
  match mapM updateFn (questions s),
        mapM (fun g => match mapM updateFn (QuestionGroup.questions g) with
                       | Some qs => Some (QuestionGroup.with_questions g qs)
                       | None => None
                       end) (questionGroups s) with
  | Some qs, Some gs =>
      Some (set_hasLocalChanges true (set_questionGroups gs (set_questions qs s)))
  | _, _ => None
  end.

Definition placeholder_option : jsstring := lit "새 선택지".

Definition addOption (questionId : jsstring) (s : state) : state :=
  set_hasLocalChanges true
    (map_both (fun q => if str_eqb (Question.id q) questionId
                        then Question.with_options q (Question.options q ++ [placeholder_option])
                        else q) s).

(** [a.filter((x, idx) => p(x, idx))] *)
Fixpoint filter_idx {A} (p : A -> nat -> bool) (l : list A) (idx : nat) : list A :=
  match l with
  | [] => []
  | x :: l' => if p x idx then x :: filter_idx p l' (S idx) else filter_idx p l' (S idx)
  end.

Definition removeOption_fn (questionId : jsstring) (optionIdx : Z) (q : Question.t) : Question.t :=
  if str_eqb (Question.id q) questionId then
    Question.with_options q
      (filter_idx (fun _ idx => negb (Z.of_nat idx =? optionIdx)%Z) (Question.options q) 0)
  else q.

Definition removeOption (questionId : jsstring) (optionIdx : Z) (s : state) : state :=
  set_hasLocalChanges true (map_both (removeOption_fn questionId optionIdx) s).

(** ** Outbound calls

    [updateField] and [exportSurvey] are requests to the server; whether a
    request resolves or rejects is decided outside the panel. *)

Inductive format := docx | hwpx.

Inductive request :=
| UpdateField (sessionId field value : jsstring)
| ExportSurvey (sessionId : jsstring) (fmt : format).

(** What an observer sees: each request with the dirty flag at the moment
    it is issued, console errors and alerts. *)
Inductive event :=
| Requested (r : request) (dirty : bool)
| ConsoleError (label : jsstring)
| Alert (message : jsstring).

(** The component state together with the world around it: [outcome n]
    tells whether the [n]-th request issued resolves. *)
Record machine := {
  panel : state;
  outcome : nat -> bool;
  issued : nat;
  trace : list event
}.

Inductive result (A : Type) :=
| Ok (a : A)
| Thrown (r : request).
Arguments Ok {A} a.
Arguments Thrown {A} r.

(** Computations that read and write the machine and may throw. *)
Definition M (A : Type) := machine -> result A * machine.

Definition ret {A} (a : A) : M A := fun m => (Ok a, m).

Definition bind {A B} (c : M A) (f : A -> M B) : M B :=
  fun m => match c m with
           | (Ok a, m') => f a m'
           | (Thrown r, m') => (Thrown r, m')
           end.

Notation "x <- c ;; k" := (bind c (fun x => k))
  (at level 61, c at next level, right associativity).
Notation "c ;; k" := (bind c (fun _ => k))
  (at level 61, right associativity).

Definition read : M state := fun m => (Ok (panel m), m).

Definition update (f : state -> state) : M unit :=
  fun m => (Ok tt, {| panel := f (panel m); outcome := outcome m;
                       issued := issued m; trace := trace m |}).

Definition emit (e : event) : M unit :=
  fun m => (Ok tt, {| panel := panel m; outcome := outcome m;
                       issued := issued m; trace := trace m ++ [e] |}).

(** [await call(...)]: the request goes out, then resolves or rejects. *)
Definition await (r : request) : M unit :=
  fun m =>
    let m' := {| panel := panel m; outcome := outcome m;
                 issued := S (issued m);
                 trace := trace m ++ [Requested r (hasLocalChanges (panel m))] |} in
    if outcome m (issued m) then (Ok tt, m') else (Thrown r, m').

(** [try { body } catch (error) { handler } finally { cleanup }] *)
Definition try_catch_finally (body : M unit) (handler : request -> M unit)
           (cleanup : M unit) : M unit :=
  fun m =>
    let after :=
      match body m with
      | (Ok a, m') => (Ok a, m')
      | (Thrown r, m') => handler r m'
      end in
    match cleanup (snd after) with
    | (Ok _, m'') => (fst after, m'')
    | (Thrown r, m'') => (Thrown r, m'')
    end.

(** [!sessionId]: [null] and the empty string are falsy. *)
Definition known_session (sid : option jsstring) : option jsstring :=
  match sid with
  | Some (c :: rest) => Some (c :: rest)
  | _ => None
  end.

Definition saveChanges : M unit :=
  s <- read ;;
  match known_session (sessionId s) with
  | None => ret tt
  | Some sid =>
      if negb (hasLocalChanges s) then ret tt
      else
        update (set_isSaving true) ;;
        try_catch_finally
          (let newSurveyText := questionsToText (questions s) in
           await (UpdateField sid (lit "survey_draft") newSurveyText) ;;
           await (UpdateField sid (lit "final_survey") newSurveyText) ;;
           update (updateSurveyState newSurveyText newSurveyText) ;;
           update (set_hasLocalChanges false))
          (fun error =>
             emit (ConsoleError (lit "Save error:")) ;;
             emit (Alert (lit "저장 중 오류가 발생했습니다.")))
          (update (set_isSaving false))
  end.

(** [exportSurvey] itself catches, logs and rethrows; the log line is its
    only effect besides the request. *)
Definition exportSurvey (sid : jsstring) (fmt : format) : M unit :=
  fun m =>
    match await (ExportSurvey sid fmt) m with
    | (Ok a, m') => (Ok a, m')
    | (Thrown r, m') =>
        (Thrown r, snd (emit (ConsoleError (lit "Export error:")) m'))
    end.

Definition handleExport (fmt : format) : M unit :=
  s <- read ;;
  match known_session (sessionId s) with
  | None => emit (Alert (lit "세션 정보가 없습니다."))
  | Some sid =>
      (if hasLocalChanges s then saveChanges else ret tt) ;;
      update (set_isExporting true) ;;
      try_catch_finally
        (exportSurvey sid fmt)
        (fun error =>
           emit (ConsoleError (lit "Export error:")) ;;
           emit (Alert (lit "파일 다운로드 중 오류가 발생했습니다.")))
        (update (set_isExporting false))
  end.

End Panel.

Import Panel.

(* ===================================================================== *)
(** * The overview value and the markdown renderer *)
(* ===================================================================== *)

(** ** More string operations *)

(** [s.endsWith(p)] *)
Definition endsWith (p s : jsstring) : bool :=
  startsWith (List.rev p) (List.rev s).

(** [s.slice(from, -back)] for [back > 0]: the units from index [from] up
    to [back] units before the end, none when the two cross. *)
Definition slice_end (from back : nat) (s : jsstring) : jsstring :=
  firstn (length s - back - from) (skipn from s).


(** [s.split(r)] for a pattern [r] with one capturing group: the pieces
    between the matches, each match followed by its capture.  [q] is the
    position the search has reached, [s] the subject from there on and
    [pending] the piece read since the last match; a match at position
    [q] that is empty and ends where the last one ended is passed over. *)
Fixpoint split_loop (r : regex) (fuel : nat) (q : nat) (pending s : jsstring)
  : list jsstring :=
  match fuel with
  | O => [pending ++ s]
  | S fuel' =>
      match s with
      | [] => [pending]
      | a :: s' =>
          match match_here r q s with
          | Some z =>
              if is_empty pending && Nat.eqb (length (m_rest z)) (length s)
              then split_loop r fuel' (S q) (pending ++ [a]) s'
              else pending :: group 1 z
                     :: split_loop r fuel' (q + (length s - length (m_rest z)))
                          [] (m_rest z)
          | None => split_loop r fuel' (S q) (pending ++ [a]) s'
          end
      end
  end.

Definition split_regex (r : regex) (s : jsstring) : list jsstring :=
  match s with
  | [] => match match_here r 0 [] with
          | Some _ => []
          | None => [[]]
          end
  | _ :: _ => split_loop r (2 * length s + 1) 0 [] s
  end.

(** ** [getStep1Value] *)



(** ** [renderMarkdown] *)

(** [[^*]] *)
Definition not_star : regex := Class (fun a => negb (char_eqb a 42%N)).

(** [/(\*\*[^*]+\*\*|\*[^*]+\*|##\s*.+)/g] *)
Definition MARKDOWN : regex :=
  Group 1 (Any [ Seq [Lit (lit "**"); Plus not_star; Lit (lit "**")];
                 Seq [Chr 42; Plus not_star; Chr 42];
                 Seq [Lit (lit "##"); Star true Space; Plus Dot] ]).

(** What a part of the text is rendered as: a [strong] element, an [em]
    element, or the part itself. *)
Inductive node :=
| Strong (children : jsstring)
| Em (children : jsstring)
| Text (value : jsstring).

Definition render_part (part : jsstring) : node :=
  if startsWith (lit "**") part && endsWith (lit "**") part
  then Strong (slice_end 2 2 part)
  else if startsWith (lit "*") part && endsWith (lit "*") part
          && negb (startsWith (lit "**") part)
  then Em (slice_end 1 1 part)
  else if startsWith (lit "## ") part then Strong (skipn 3 part)
  else Text part.

(** [None] is the [null] returned for an empty text. *)
Definition renderMarkdown (text : jsstring) : option (list node) :=
  if is_empty text then None
  else Some (List.map render_part (split_regex MARKDOWN text)).

(* ===================================================================== *)
(** * The vocabulary of the properties *)
(* ===================================================================== *)

(** ** A declarative reading of patterns *)

(** [matches r i s c i' s' c']: pattern [r] can consume a prefix of [s],
    which sits at position [i], leaving [s'] at position [i'] and turning
    the captures [c] into [c'].  The relation forgets the order in which
    the matcher explores the alternatives. *)
Inductive matches : regex -> nat -> jsstring -> captures ->
                    nat -> jsstring -> captures -> Prop :=
| M_Empty i s c : matches Empty i s c i s c
| M_Class p a i s c : p a = true -> matches (Class p) i (a :: s) c (S i) s c
| M_Cat r1 r2 i s c i1 s1 c1 i2 s2 c2 :
    matches r1 i s c i1 s1 c1 -> matches r2 i1 s1 c1 i2 s2 c2 ->
    matches (Cat r1 r2) i s c i2 s2 c2
| M_AltL r1 r2 i s c i' s' c' :
    matches r1 i s c i' s' c' -> matches (Alt r1 r2) i s c i' s' c'
| M_AltR r1 r2 i s c i' s' c' :
    matches r2 i s c i' s' c' -> matches (Alt r1 r2) i s c i' s' c'
| M_StarStop g r i s c : matches (Star g r) i s c i s c
| M_StarStep g r i s c i1 s1 c1 i2 s2 c2 :
    matches r i s c i1 s1 c1 -> i < i1 ->
    matches (Star g r) i1 s1 c1 i2 s2 c2 ->
    matches (Star g r) i s c i2 s2 c2
| M_Group n r i s c i' s' c' :
    matches r i s c i' s' c' ->
    matches (Group n r) i s c i' s' ((n, firstn (i' - i) s) :: c')
| M_Bol s c : matches Bol 0 s c 0 s c
| M_Eol i c : matches Eol i [] c i [] c.

(** Patterns without capturing groups. *)
Fixpoint no_groups (r : regex) : bool :=
  match r with
  | Empty | Class _ | Bol | Eol => true
  | Cat r1 r2 | Alt r1 r2 => no_groups r1 && no_groups r2
  | Star _ r1 => no_groups r1
  | Group _ _ => false
  end.

(** ** The scenario of the specification *)

(** The scenario draft: two question lines, two option lines under the
    first, a blank line in between. *)
Definition scenario_draft : jsstring :=
  lit "문항 1. 만족하십니까? (SC)" ++ newline
  ++ lit "① 예" ++ newline
  ++ lit "② 아니오" ++ newline
  ++ newline
  ++ lit "문항 2. 의견을 말해주세요 (OQ)".

(** ** Type codes *)

(** The codes the type-code pattern lists. *)
Definition type_codes : list jsstring :=
  [lit "SC"; lit "MA"; lit "OQ"; lit "RS"; lit "DC"; lit "RK"; lit "MG"].

(** The questions the loop holds: those already pushed and the current
    one. *)
Definition held (st : Parser.state) : list Question.t := flush st.

(** A draft for each code: one question line tagged with it. *)
Definition draft_tagged (code : jsstring) : jsstring :=
  lit "Q1. x (" ++ code ++ lit ")".

(** C8 as the specification words it: some set of six codes holds the
    type of every parsed question. *)
Definition six_codes_suffice : Prop :=
  exists codes : list jsstring,
    length codes = 6
    /\ forall draft q, In q (parseSurveyDraft draft) -> In (Question.type q) codes.

(** ** Lines that start no question *)

(** A raw line that does not start a question: trimmed, it matches
    neither question-boundary pattern. *)
Definition not_boundary (raw : jsstring) : Prop :=
  first_match QUESTION_KEYWORD_PATTERNS (trim raw) = None.

(** A string of white space only. *)
Definition all_space (s : jsstring) : Prop := Forall (fun c => is_space c = true) s.

(** A draft that opens with three option-like lines before its only
    question. *)
Definition late_question_draft : jsstring :=
  lit "① 예" ++ newline ++ lit "- 아니오" ++ newline ++ lit "3) 모름" ++ newline
  ++ lit "Q1. 만족하십니까?" ++ newline ++ lit "① 예".

(** ** Groups *)

(** The group that starts at question [10 k]. *)
Definition group_at (qs : list Question.t) (k : nat) : QuestionGroup.t :=
  QuestionGroup.mk (10 * k + 1) (Nat.min (10 * k + 10) (length qs))
    (slice (10 * k) (10 * k + 10) qs) (Nat.eqb k 0).

(** The number of groups: the ceiling of [n / 10]. *)
Definition group_count (qs : list Question.t) : nat := (length qs + 9) / 10.

(** ** Option markers *)

(** The prefix of the option at index [i], as the specification words it:
    the glyph number [i] of the circled numerals U+2460 .. U+246B below
    twelve, the parenthesized position from twelve on. *)
Definition option_marker (i : nat) : jsstring :=
  if i <? 12 then [(0x2460 + N.of_nat i)%N]
  else lit "(" ++ of_nat (i + 1) ++ lit ")".

(** The option lines of a question, the first of them at index [i]. *)
Fixpoint option_lines (opts : list jsstring) (i : nat) : jsstring :=
  match opts with
  | [] => []
  | opt :: rest =>
      lit "   " ++ option_marker i ++ lit " "
        ++ trim (replace numberPattern [] opt) ++ newline
        ++ option_lines rest (S i)
  end.

(** A single-choice question with the thirteen options opt0 .. opt12. *)
Definition thirteen_options : Question.t :=
  Question.mk (lit "q_0") (lit "1") (lit "Pick")
    (List.map (fun k => lit "opt" ++ of_nat k) (seq 0 13)) (lit "SC") false.

(** ** The two views and the edits *)

(** The two views agree: the question lists of the groups are the
    windows of ten of the flat sequence.  Expansion flags are free. *)
Definition views_agree (s : state) : Prop :=
  List.map QuestionGroup.questions (questionGroups s)
  = List.map QuestionGroup.questions (groupQuestions (questions s)).

(** What the store keeps true: the views agree and no two questions share
    an id. *)
Definition store_invariant (s : state) : Prop :=
  views_agree s /\ NoDup (List.map Question.id (questions s)).

(** The four edit operations of the store. *)
Inductive edit :=
| UpdateQuestionText (questionId newText : jsstring)
| UpdateOption (questionId : jsstring) (optionIdx : Z) (newText : jsstring)
| AddOption (questionId : jsstring)
| RemoveOption (questionId : jsstring) (optionIdx : Z).

(** An edit applied to a state; [None] where [updateOption] leaves the
    arrays of strings. *)
Definition apply_edit (e : edit) (s : state) : option state :=
  match e with
  | UpdateQuestionText qid newText => Some (updateQuestionText qid newText s)
  | UpdateOption qid idx newText => updateOption qid idx newText s
  | AddOption qid => Some (addOption qid s)
  | RemoveOption qid idx => Some (removeOption qid idx s)
  end.

(** The state the panel reaches when the scenario draft arrives in a
    session. *)
Definition scenario_state : state :=
  rederive {| sessionId := Some (lit "session-1");
              survey_draft := scenario_draft; final_survey := [];
              questions := []; questionGroups := [];
              hasLocalChanges := false; isSaving := false;
              isExporting := false |}.

(** ** Reachable states *)

(** The id given to the [k]-th question of a draft. *)
Definition id_of (k : nat) : jsstring := lit "q_" ++ of_nat k.

(** The states of the panel: the model is derived from a draft, then
    edited, folded and unfolded, saved and exported. *)
Inductive reachable : state -> Prop :=
| R_rederive s : reachable (rederive s)
| R_edit e s s' : reachable s -> apply_edit e s = Some s' -> reachable s'
| R_toggle groupIdx s : reachable s -> reachable (toggleGroup groupIdx s)
| R_save m : reachable (panel m) -> reachable (panel (snd (saveChanges m)))
| R_export fmt m : reachable (panel m) -> reachable (panel (snd (handleExport fmt m))).

(** ** Machines for save and export *)

(** The text a save sends. *)
Definition save_text (m : machine) : jsstring :=
  questionsToText (questions (panel m)).

(** A machine around the scenario state in which every request rejects. *)
Definition offline_machine : machine :=
  {| panel := set_hasLocalChanges true scenario_state;
     outcome := fun _ => false; issued := 0; trace := [] |}.

(** C4 as the specification words it: from a dirty state with a known
    session, the file-generation request goes out with the dirty flag
    cleared. *)
Definition export_request_is_clean : Prop :=
  forall (m : machine) (sid : jsstring) (fmt : format) (dirty : bool),
    known_session (sessionId (panel m)) = Some sid ->
    hasLocalChanges (panel m) = true ->
    In (Requested (ExportSurvey sid fmt) dirty) (trace (snd (handleExport fmt m))) ->
    dirty = false.

(** A machine around the scenario state in which every request resolves. *)
Definition online_machine : machine :=
  {| panel := set_hasLocalChanges true scenario_state;
     outcome := fun _ => true; issued := 0; trace := [] |}.

(** ** What a question line starts with *)

(** The code units a question-boundary line can start with: an asterisk,
    the first syllable of the keyword, or the letter Q in either case. *)
Definition boundary_head (a : char) : bool :=
  char_eqb 42%N a || char_eqb 0xBB38%N a
  || char_eqb (upper_char a) (upper_char 81%N).

(** ** Code units a string is free of *)

(** [free bad s]: the code unit [bad] does not occur in [s]. *)
Definition free (bad : char) (s : jsstring) : Prop := ~ In bad s.

(** No text, type or option of the question holds [bad]. *)
Definition fields_free (bad : char) (q : Question.t) : Prop :=
  free bad (Question.text q) /\ free bad (Question.type q)
  /\ Forall (free bad) (Question.options q).

(** Free of the line feed the parser splits on. *)
Definition nf (s : jsstring) : Prop := free 10%N s.

(** The code units the serializer writes of its own accord inside a line,
    digits apart, and those of the type codes. *)
Definition own_units : jsstring :=
  lit " .()[]주관식응답SCMAOQRDKG" ++ concat circledNumbers.

(** A code unit that only a draft can bring into the canonical text. *)
Definition foreign (bad : char) : Prop :=
  is_digit bad = false /\ ~ In bad own_units.

(** ** The lines of the canonical text *)

(** The canonical text, line by line. *)
Definition header_line (q : Question.t) (idx : nat) : jsstring :=
  of_nat (idx + 1) ++ lit ". " ++ Question.text q
    ++ lit " (" ++ Question.type q ++ lit ")".

Definition option_text_line (i : nat) (opt : jsstring) : jsstring :=
  lit "   " ++ option_marker i ++ lit " " ++ trim (replace numberPattern [] opt).

Fixpoint option_text_lines (opts : list jsstring) (i : nat) : list jsstring :=
  match opts with
  | [] => []
  | opt :: rest => option_text_line i opt :: option_text_lines rest (S i)
  end.

Definition block_lines (q : Question.t) (idx : nat) : list jsstring :=
  header_line q idx
    :: (if negb (Question.isOpen q) && (0 <? length (Question.options q))
        then option_text_lines (Question.options q) 0
        else if Question.isOpen q then [lit "   [주관식 응답]"] else [])
    ++ [[]].

Fixpoint text_lines (qs : list Question.t) (idx : nat) : list jsstring :=
  match qs with
  | [] => []
  | q :: rest => block_lines q idx ++ text_lines rest (S idx)
  end.

(** Each line followed by a line feed. *)
Definition unlines (ls : list jsstring) : jsstring :=
  concat (List.map (fun l => l ++ newline) ls).

(** A code unit that is neither white space, nor the start of a question
    line, nor a line feed: so are the digits, the opening parenthesis and
    bracket, and the circled numerals. *)
Definition plain_head (a : char) : Prop :=
  is_space a = false /\ boundary_head a = false /\ a <> 10%N.

(** ** The round trip *)

(** What the panel holds after a draft went through the parser, the
    serializer and the parser again. *)
Definition reparse (draft : jsstring) : list Question.t :=
  parseSurveyDraft (questionsToText (parseSurveyDraft draft)).

(** The smallest draft with a question. *)
Definition one_question_draft : jsstring := lit "문항 1. a".

(** ** Lines that start a question *)

(** A raw line that starts a question: trimmed, it matches one of the
    question-boundary patterns. *)
Definition is_boundary (raw : jsstring) : bool :=
  match first_match QUESTION_KEYWORD_PATTERNS (trim raw) with
  | Some _ => true
  | None => false
  end.


(** A string that trimming leaves alone: no white space at either end. *)
Definition trimmed (s : jsstring) : Prop := trim s = s.

(** The shape of a question number: digits, then possibly a dash and
    digits. *)
Definition digits (s : jsstring) : Prop :=
  s <> [] /\ Forall (fun a => is_digit a = true) s.

Definition number_shape (s : jsstring) : Prop :=
  digits s \/ exists a b, s = a ++ 45%N :: b /\ digits a /\ digits b.

(** Every class of the pattern accepts only code units that satisfy [P]. *)
Fixpoint classes_within (P : char -> Prop) (r : regex) : Prop :=
  match r with
  | Empty | Bol | Eol => True
  | Class p => forall a, p a = true -> P a
  | Cat r1 r2 | Alt r1 r2 => classes_within P r1 /\ classes_within P r2
  | Star _ r1 | Group _ r1 => classes_within P r1
  end.

(** ** What the serializer prints *)

(** Two questions the serializer cannot tell apart: the same text, type
    and open flag, and the same options unless open. *)
Definition same_printed (q q' : Question.t) : Prop :=
  Question.text q = Question.text q'
  /\ Question.type q = Question.type q'
  /\ Question.isOpen q = Question.isOpen q'
  /\ (Question.isOpen q = false -> Question.options q = Question.options q').

(** Two renderings of one question list that differ in everything the
    serializer does not print. *)
Definition printed_pair : list Question.t * list Question.t :=
  ([Question.mk (lit "q_0") (lit "2-1") (lit "a") [lit "x"] (lit "SC") false;
    Question.mk (lit "q_1") (lit "7") (lit "b") [lit "lost"] (lit "SC") true],
   [Question.mk (lit "other") (lit "1") (lit "a") [lit "x"] (lit "SC") false;
    Question.mk (lit "id") (lit "2") (lit "b") [] (lit "SC") true]).

(** ** Edits at one index *)

(** The id an edit names. *)
Definition edit_target (e : edit) : jsstring :=
  match e with
  | UpdateQuestionText qid _ => qid
  | UpdateOption qid _ _ => qid
  | AddOption qid => qid
  | RemoveOption qid _ => qid
  end.

(** [l] with the element at index [i] replaced by [x]; at [i = length l],
    [l] with [x] appended. *)
Definition replaced {A} (i : nat) (x : A) (l : list A) : list A :=
  firstn i l ++ x :: skipn (S i) l.

(** [l] without the element at index [i]. *)
Definition without {A} (i : nat) (l : list A) : list A :=
  firstn i l ++ skipn (S i) l.

(** What an edit never touches in a question. *)
Definition skeleton (q : Question.t) : jsstring * jsstring * jsstring * bool :=
  (Question.id q, Question.number q, Question.type q, Question.isOpen q).

(** The group with the other expansion flag. *)
Definition flipped (g : QuestionGroup.t) : QuestionGroup.t :=
  QuestionGroup.with_isExpanded g (negb (QuestionGroup.isExpanded g)).

(** ** What the parser sets up for good *)

(** What the parser decides about a question and no later step changes:
    its type is one of the codes, and it is open when its type is OQ. *)
Definition well_typed (q : Question.t) : Prop :=
  In (Question.type q) type_codes
  /\ (Question.type q = lit "OQ" -> Question.isOpen q = true).

(** The range and the questions of a group: all of it but the expansion
    flag. *)
Definition content (g : QuestionGroup.t) : nat * nat * list Question.t :=
  (QuestionGroup.startNum g, QuestionGroup.endNum g, QuestionGroup.questions g).

(** ** More machines for save and export *)

(** A machine around the scenario state, clean, in which every request
    resolves. *)
Definition clean_machine : machine :=
  {| panel := scenario_state; outcome := fun _ => true; issued := 0; trace := [] |}.

(** A machine around the scenario state, edited, in which only the first
    request resolves. *)
Definition flaky_machine : machine :=
  {| panel := set_hasLocalChanges true scenario_state;
     outcome := fun n => Nat.eqb n 0; issued := 0; trace := [] |}.

(** A machine that knows no session. *)
Definition detached_machine : machine :=
  {| panel := {| sessionId := None; survey_draft := []; final_survey := [];
                 questions := []; questionGroups := [];
                 hasLocalChanges := true; isSaving := false;
                 isExporting := false |};
     outcome := fun _ => true; issued := 0; trace := [] |}.

(** ** Matches of the markdown pattern *)

(** The result of a match of a pattern that is one capturing group. *)
Definition whole_match (i : nat) (s : jsstring) : cont match_result :=
  fun i' s' c' =>
    Some {| m_start := i; m_rest := s';
            m_caps := (0, firstn (i' - i) s) :: (1, firstn (i' - i) s) :: c' |}.

(** ** Drafts printed as arrays, option markers *)

(** [items.join(sep)] *)
Fixpoint join (sep : jsstring) (items : list jsstring) : jsstring :=
  match items with
  | [] => []
  | [l] => l
  | l :: rest => l ++ sep ++ join sep rest
  end.

(** A list of lines printed as an array of single-quoted strings:
    an opening bracket, the items in quotes with a comma and a space in
    between, a closing bracket. *)
Definition printed_array (items : list jsstring) : jsstring :=
  [91%N] ++ ([39%N] ++ join sep_single items ++ [39%N]) ++ [93%N].

(** A line that can stand in a printed array as it is: without quote
    characters and without a backslash. *)
Definition printable (l : jsstring) : Prop :=
  ~ In 39%N l /\ ~ In 34%N l /\ ~ In 92%N l.

(** The code units an option line can start with, for the patterns of
    [optionPatterns]: a circled numeral, an opening parenthesis, a dash,
    a bullet or a circle. *)
Definition option_markers : jsstring := lit "①②③④⑤⑥⑦⑧⑨⑩⑪⑫ⓞ(-•○●".

(* ===================================================================== *)
(** * What a successful match tells: a declarative reading of patterns *)
(* ===================================================================== *)

Lemma rmatch_sound (R : Type) (r : regex) :
  forall (i : nat) (s : jsstring) (c : captures) (k : cont R) (x : R),
    rmatch r i s c k = Some x ->
    exists i' s' c', matches r i s c i' s' c' /\ k i' s' c' = Some x.
Proof.
  induction r as [|p|r1 IH1 r2 IH2|r1 IH1 r2 IH2|g r1 IH1|n r1 IH1| |];
    intros i s c k x H; cbn [rmatch] in H.
  - exists i, s, c. split; [constructor|exact H].
  - destruct s as [|a s]; [discriminate|].
    destruct (p a) eqn:Ep; [|discriminate].
    exists (S i), s, c. split; [now constructor|exact H].
  - apply IH1 in H. destruct H as (i1 & s1 & c1 & Hm1 & H).
    apply IH2 in H. destruct H as (i2 & s2 & c2 & Hm2 & H).
    exists i2, s2, c2. split; [econstructor; eassumption|exact H].
  - destruct (rmatch r1 i s c k) as [y|] eqn:E1.
    + injection H as ->. apply IH1 in E1. destruct E1 as (i' & s' & c' & Hm & Hk).
      exists i', s', c'. split; [now apply M_AltL|exact Hk].
    + apply IH2 in H. destruct H as (i' & s' & c' & Hm & Hk).
      exists i', s', c'. split; [now apply M_AltR|exact Hk].
  - revert H. generalize (length s) as fuel. intros fuel. revert i s c x.
    induction fuel as [|fuel IHf]; intros i s c x H; cbn [star_loop] in H.
    + exists i, s, c. split; [constructor|exact H].
    + assert (Hstep : forall y,
                 rmatch r1 i s c
                   (fun i' s' c' =>
                      if i <? i' then star_loop (rmatch r1) g k fuel i' s' c' else None)
                 = Some y ->
                 exists i' s' c', matches (Star g r1) i s c i' s' c' /\ k i' s' c' = Some y).
      { intros y Hy. apply IH1 in Hy. destruct Hy as (i1 & s1 & c1 & Hm1 & Hy).
        destruct (Nat.ltb_spec i i1) as [Hlt|]; [|discriminate].
        apply IHf in Hy. destruct Hy as (i2 & s2 & c2 & Hm2 & Hy).
        exists i2, s2, c2. split; [|exact Hy].
        eapply M_StarStep; eassumption. }
      destruct g.
      * match type of H with
        | match ?e with _ => _ end = _ => destruct e as [y|] eqn:E
        end.
        -- injection H as ->. now apply Hstep.
        -- exists i, s, c. split; [constructor|exact H].
      * destruct (k i s c) as [y|] eqn:E.
        -- injection H as ->. exists i, s, c. split; [constructor|exact E].
        -- now apply Hstep.
  - apply IH1 in H. destruct H as (i' & s' & c' & Hm & Hk).
    exists i', s', ((n, firstn (i' - i) s) :: c'). split; [now constructor|exact Hk].
  - destruct (Nat.eqb_spec i 0) as [->|]; [|discriminate].
    exists 0, s, c. split; [constructor|exact H].
  - destruct s; [|discriminate].
    exists i, [], c. split; [constructor|exact H].
Qed.

Lemma matches_no_groups r i s c i' s' c' :
  matches r i s c i' s' c' -> no_groups r = true -> c' = c.
Proof.
  induction 1; cbn [no_groups]; intros Hng;
    try apply andb_true_iff in Hng; try reflexivity; try discriminate.
  - destruct Hng. rewrite IHmatches2, IHmatches1; auto.
  - destruct Hng. auto.
  - destruct Hng. auto.
  - rewrite IHmatches2, IHmatches1; auto.
Qed.

Lemma search_from_sound (r : regex) (i : nat) (s : jsstring) (m : match_result) :
  search_from r i s = Some m ->
  exists j t i' c',
    matches r j t [] i' (m_rest m) c'
    /\ m_caps m = (0, firstn (i' - j) t) :: c'.
Proof.
  revert i. induction s as [|a s IH]; intros i; cbn [search_from].
  - destruct (match_here r i []) as [m'|] eqn:E; [|discriminate].
    intros [= ->]. unfold match_here in E. apply rmatch_sound in E.
    destruct E as (i' & s' & c' & Hm & [= <-]).
    inversion Hm; subst. eauto 8.
  - destruct (match_here r i (a :: s)) as [m'|] eqn:E.
    + intros [= ->]. unfold match_here in E. apply rmatch_sound in E.
      destruct E as (i' & s' & c' & Hm & [= <-]).
      inversion Hm; subst. eauto 8.
    + apply IH.
Qed.

(** A match consumes a prefix of its input. *)
Lemma matches_suffix r i s c i' s' c' :
  matches r i s c i' s' c' -> exists u, s = u ++ s' /\ i' = i + length u.
Proof.
  induction 1.
  - exists []. split; [reflexivity|cbn; lia].
  - exists [a]. split; [reflexivity|cbn; lia].
  - destruct IHmatches1 as (u1 & -> & ->), IHmatches2 as (u2 & -> & ->).
    exists (u1 ++ u2). rewrite <- app_assoc, length_app. split; [reflexivity|lia].
  - exact IHmatches.
  - exact IHmatches.
  - exists []. split; [reflexivity|cbn; lia].
  - destruct IHmatches1 as (u1 & -> & ->), IHmatches2 as (u2 & -> & ->).
    exists (u1 ++ u2). rewrite <- app_assoc, length_app. split; [reflexivity|lia].
  - exact IHmatches.
  - exists []. split; [reflexivity|cbn; lia].
  - exists []. split; [reflexivity|cbn; lia].
Qed.

(** Every capture a match adds is cut out of its input. *)
Lemma matches_captures r i s c i' s' c' :
  matches r i s c i' s' c' ->
  forall n v, In (n, v) c' -> In (n, v) c \/ (forall x, In x v -> In x s).
Proof.
  induction 1; intros k v Hin; auto.
  - apply IHmatches2 in Hin. destruct Hin as [Hin|Hin]; [now apply IHmatches1|].
    right. intros x Hx. apply matches_suffix in H. destruct H as (u & -> & _).
    apply in_or_app. right. now apply Hin.
  - apply IHmatches2 in Hin. destruct Hin as [Hin|Hin]; [now apply IHmatches1|].
    right. intros x Hx. apply matches_suffix in H. destruct H as (u & -> & _).
    apply in_or_app. right. now apply Hin.
  - destruct Hin as [[= <- <-]|Hin]; [|now apply IHmatches].
    right. intros x Hx. rewrite <- (firstn_skipn (i' - i) s).
    apply in_or_app. now left.
Qed.

Lemma capture_In (n : nat) (c : captures) (v : jsstring) :
  capture n c = Some v -> In (n, v) c.
Proof.
  induction c as [|[k w] c IH]; cbn [capture]; [discriminate|].
  destruct (Nat.eqb_spec k n) as [->|].
  - intros [= ->]. now left.
  - intros H. right. now apply IH.
Qed.

Lemma match_here_sound (r : regex) (i : nat) (s : jsstring) (m : match_result) :
  match_here r i s = Some m ->
  exists i' c',
    matches r i s [] i' (m_rest m) c'
    /\ m_start m = i
    /\ m_caps m = (0, firstn (i' - i) s) :: c'.
Proof.
  unfold match_here. intros E. apply rmatch_sound in E.
  destruct E as (i' & s' & c' & Hm & [= <-]).
  inversion Hm; subst. cbn [m_rest m_start m_caps]. eauto.
Qed.

(** Where the leftmost match sits: after the part [u] of the subject that
    the search stepped over. *)
Lemma search_from_located (r : regex) (i : nat) (s : jsstring) (m : match_result) :
  search_from r i s = Some m ->
  exists u t i' c',
    s = u ++ t
    /\ m_start m = i + length u
    /\ matches r (i + length u) t [] i' (m_rest m) c'
    /\ m_caps m = (0, firstn (i' - (i + length u)) t) :: c'.
Proof.
  revert i. induction s as [|a s IH]; intros i; cbn [search_from].
  - destruct (match_here r i []) as [m'|] eqn:E; [|discriminate].
    intros [= ->]. apply match_here_sound in E.
    destruct E as (i' & c' & Hm & Hstart & Hcaps).
    exists [], [], i', c'. cbn [length app]. rewrite Nat.add_0_r. auto.
  - destruct (match_here r i (a :: s)) as [m'|] eqn:E.
    + intros [= ->]. apply match_here_sound in E.
      destruct E as (i' & c' & Hm & Hstart & Hcaps).
      exists [], (a :: s), i', c'. cbn [length app]. rewrite Nat.add_0_r. auto.
    + intros H. apply IH in H.
      destruct H as (u & t & i' & c' & -> & Hstart & Hm & Hcaps).
      exists (a :: u), t, i', c'. cbn [length app].
      replace (i + S (length u)) with (S i + length u) by lia. auto.
Qed.

(** What a match returns is made of code units of the subject: the text
    after the match and every capture. *)
Lemma exec_within (r : regex) (line : jsstring) (m : match_result) :
  exec r line = Some m ->
  (forall x, In x (m_rest m) -> In x line)
  /\ (forall n v, capture n (m_caps m) = Some v -> forall x, In x v -> In x line).
Proof.
  intros H. apply search_from_located in H.
  destruct H as (u & t & i' & c' & -> & _ & Hm & Hcaps).
  split.
  - intros x Hx. apply matches_suffix in Hm. destruct Hm as (w & -> & _).
    apply in_or_app. right. apply in_or_app. now right.
  - intros n v Hv x Hx. apply capture_In in Hv. rewrite Hcaps in Hv.
    apply in_or_app. right.
    destruct Hv as [[= <- <-]|Hv].
    + rewrite <- (firstn_skipn (i' - (0 + length u)) t). apply in_or_app. now left.
    + apply (matches_captures _ _ _ _ _ _ _ Hm) in Hv.
      destruct Hv as [[]|Hv]. now apply Hv.
Qed.

(** A pattern that opens with [^] matches at the start of the subject
    only. *)
Lemma exec_anchored (r : regex) (line : jsstring) (m : match_result) :
  exec (Cat Bol r) line = Some m ->
  exists i' c', matches r 0 line [] i' (m_rest m) c'.
Proof.
  intros H. apply search_from_located in H.
  destruct H as (u & t & i' & c' & -> & _ & Hm & _).
  inversion Hm; subst.
  match goal with H : matches Bol _ _ _ _ _ _ |- _ => inversion H; subst end.
  destruct u; [|discriminate]. cbn [app]. eauto.
Qed.

(** ** The fuel never runs out

    The star loop and the global replacement recurse on a fuel counter
    that starts at the length of the input (plus one); every round
    consumes input, so more fuel changes no result. *)

(** The matcher calls its continuation on suffixes of its input only. *)
Lemma rmatch_ext (R : Type) (r : regex) :
  forall (i : nat) (s : jsstring) (c : captures) (k k' : cont R),
    (forall u s' c', s = u ++ s' ->
                     k (i + length u) s' c' = k' (i + length u) s' c') ->
    rmatch r i s c k = rmatch r i s c k'.
Proof.
  induction r as [|p|r1 IH1 r2 IH2|r1 IH1 r2 IH2|g r1 IH1|n r1 IH1| |];
    intros i s c k k' H; cbn [rmatch].
  - specialize (H [] s c eq_refl). cbn in H. now rewrite Nat.add_0_r in H.
  - destruct s as [|a s]; [reflexivity|]. destruct (p a); [|reflexivity].
    specialize (H [a] s c eq_refl). cbn in H. now rewrite Nat.add_1_r in H.
  - apply IH1. intros u s' c' ->. apply IH2. intros u2 s'' c'' ->.
    specialize (H (u ++ u2) s'' c''). rewrite length_app, Nat.add_assoc in H.
    apply H. now rewrite app_assoc.
  - rewrite (IH1 i s c k k' H), (IH2 i s c k k' H). reflexivity.
  - generalize (length s) as fuel. intros fuel. revert i s c H.
    induction fuel as [|fuel IHf]; intros i s c H; cbn [star_loop].
    + specialize (H [] s c eq_refl). cbn in H. now rewrite Nat.add_0_r in H.
    + assert (Hk : k i s c = k' i s c).
      { specialize (H [] s c eq_refl). cbn in H. now rewrite Nat.add_0_r in H. }
      assert (Hbody :
               rmatch r1 i s c
                 (fun i' s' c' =>
                    if i <? i' then star_loop (rmatch r1) g k fuel i' s' c' else None)
               = rmatch r1 i s c
                   (fun i' s' c' =>
                      if i <? i' then star_loop (rmatch r1) g k' fuel i' s' c' else None)).
      { apply IH1. intros u s' c' ->. destruct (i <? i + length u); [|reflexivity].
        apply IHf. intros u2 s'' c'' ->.
        specialize (H (u ++ u2) s'' c''). rewrite length_app, Nat.add_assoc in H.
        apply H. now rewrite app_assoc. }
      now rewrite Hk, Hbody.
  - apply IH1. intros u s' c' Hs. now rewrite (H u s' _ Hs).
  - destruct (Nat.eqb i 0); [|reflexivity].
    specialize (H [] s c eq_refl). cbn in H. now rewrite Nat.add_0_r in H.
  - destruct s; [|reflexivity].
    specialize (H [] [] c eq_refl). cbn in H. now rewrite Nat.add_0_r in H.
Qed.

Lemma rmatch_none (R : Type) (r : regex) :
  forall (i : nat) (s : jsstring) (c : captures),
    rmatch r i s c (fun _ _ _ => @None R) = None.
Proof.
  induction r as [|p|r1 IH1 r2 IH2|r1 IH1 r2 IH2|g r1 IH1|n r1 IH1| |];
    intros i s c; cbn [rmatch]; try reflexivity.
  - destruct s as [|a s]; [reflexivity|]. now destruct (p a).
  - rewrite (rmatch_ext R r1 i s c _ (fun _ _ _ => None)); [apply IH1|].
    intros u s' c' _. apply IH2.
  - now rewrite IH1, IH2.
  - generalize (length s) as fuel. intros fuel. revert i s c.
    induction fuel as [|fuel IHf]; intros i s c; cbn [star_loop]; [reflexivity|].
    rewrite (rmatch_ext R r1 i s c _ (fun _ _ _ => None)).
    + rewrite IH1. now destruct g.
    + intros u s' c' _. destruct (i <? i + length u); [apply IHf|reflexivity].
  - apply IH1.
  - now destruct (Nat.eqb i 0).
  - now destruct s.
Qed.

Lemma star_loop_fuel (R : Type) (r1 : regex) (g : bool) (k : cont R) :
  forall (fuel i : nat) (s : jsstring) (c : captures),
    length s <= fuel ->
    star_loop (rmatch r1) g k (S fuel) i s c = star_loop (rmatch r1) g k fuel i s c.
Proof.
  induction fuel as [|fuel IHf]; intros i s c Hlen.
  - destruct s; [|cbn in Hlen; lia]. cbn [star_loop].
    rewrite (rmatch_ext R r1 i [] c _ (fun _ _ _ => None)).
    + rewrite rmatch_none. destruct g; [reflexivity|]. now destruct (k i [] c).
    + intros u s' c' Hs. symmetry in Hs. apply app_eq_nil in Hs. destruct Hs as [-> ->].
      cbn [length]. rewrite Nat.add_0_r, Nat.ltb_irrefl. reflexivity.
  - change (star_loop (rmatch r1) g k (S (S fuel)) i s c)
      with (if g
            then match rmatch r1 i s c
                         (fun i' s' c' =>
                            if i <? i'
                            then star_loop (rmatch r1) g k (S fuel) i' s' c'
                            else None)
                 with
                 | Some x => Some x
                 | None => k i s c
                 end
            else match k i s c with
                 | Some x => Some x
                 | None =>
                     rmatch r1 i s c
                       (fun i' s' c' =>
                          if i <? i'
                          then star_loop (rmatch r1) g k (S fuel) i' s' c'
                          else None)
                 end).
    rewrite (rmatch_ext R r1 i s c _
               (fun i' s' c' =>
                  if i <? i' then star_loop (rmatch r1) g k fuel i' s' c' else None)).
    + reflexivity.
    + intros u s' c' ->. destruct (Nat.ltb_spec i (i + length u)); [|reflexivity].
      apply IHf. rewrite length_app in Hlen. lia.
Qed.

(** The star of the matcher with any larger fuel. *)
Lemma star_fuel_enough (R : Type) (r1 : regex) (g : bool) (k : cont R)
      (extra i : nat) (s : jsstring) (c : captures) :
  star_loop (rmatch r1) g k (length s + extra) i s c
  = rmatch (Star g r1) i s c k.
Proof.
  cbn [rmatch]. induction extra as [|extra IH].
  - now rewrite Nat.add_0_r.
  - rewrite Nat.add_succ_r, star_loop_fuel by lia. exact IH.
Qed.

Lemma replace_all_from_S (r : regex) (by_ : jsstring) (fuel i : nat) (s : jsstring) :
  replace_all_from r by_ (S fuel) i s
  = match match_here r i s with
    | Some m =>
        if length (m_rest m) <? length s
        then by_ ++ replace_all_from r by_ fuel
                      (i + (length s - length (m_rest m))) (m_rest m)
        else by_ ++ match s with
                    | [] => []
                    | a :: s' => a :: replace_all_from r by_ fuel (S i) s'
                    end
    | None =>
        match s with
        | [] => []
        | a :: s' => a :: replace_all_from r by_ fuel (S i) s'
        end
    end.
Proof. reflexivity. Qed.

Lemma replace_all_from_fuel (r : regex) (by_ : jsstring) :
  forall (fuel i : nat) (s : jsstring),
    length s < fuel ->
    replace_all_from r by_ (S fuel) i s = replace_all_from r by_ fuel i s.
Proof.
  induction fuel as [|fuel IHf]; intros i s Hlen; [lia|].
  rewrite (replace_all_from_S r by_ (S fuel) i s), (replace_all_from_S r by_ fuel i s).
  assert (Hcopy : match s with
                  | [] => []
                  | a :: s' => a :: replace_all_from r by_ (S fuel) (S i) s'
                  end
                  = match s with
                    | [] => []
                    | a :: s' => a :: replace_all_from r by_ fuel (S i) s'
                    end).
  { destruct s as [|a s']; [reflexivity|]. rewrite IHf; [reflexivity|].
    cbn [length] in Hlen. lia. }
  destruct (match_here r i s) as [m|]; [|exact Hcopy].
  destruct (Nat.ltb_spec (length (m_rest m)) (length s)) as [Hlt|Hge].
  - rewrite IHf by lia. reflexivity.
  - now rewrite Hcopy.
Qed.

(** The global replacement with any larger fuel. *)
Lemma replace_all_fuel_enough (r : regex) (by_ : jsstring) (extra : nat) (s : jsstring) :
  replace_all_from r by_ (S (length s) + extra) 0 s = replace_all r by_ s.
Proof.
  unfold replace_all. induction extra as [|extra IH].
  - now rewrite Nat.add_0_r.
  - rewrite Nat.add_succ_r, replace_all_from_fuel by lia. exact IH.
Qed.

(** The first code unit a sequence of patterns asks for. *)
Lemma cat_class_head (p : char -> bool) (r : regex) i s c i' s' c' :
  matches (Cat (Class p) r) i s c i' s' c' ->
  exists a t, s = a :: t /\ p a = true.
Proof.
  intros H. inversion H; subst.
  match goal with H1 : matches (Class p) _ _ _ _ _ _ |- _ => inversion H1; subst end.
  eauto.
Qed.

Lemma cat_opt_head (p : char -> bool) (r : regex) i s c i' s' c' :
  matches (Cat (Opt (Class p)) r) i s c i' s' c' ->
  (exists a t, s = a :: t /\ p a = true) \/ matches r i s c i' s' c'.
Proof.
  intros H. inversion H; subst.
  match goal with H1 : matches (Opt _) _ _ _ _ _ _ |- _ => inversion H1; subst end.
  - match goal with H1 : matches (Class p) _ _ _ _ _ _ |- _ => inversion H1; subst end.
    left. eauto.
  - match goal with H1 : matches Empty _ _ _ _ _ _ |- _ => inversion H1; subst end.
    now right.
Qed.

Lemma cat_lit_head (x y : char) (w : jsstring) (r : regex) i s c i' s' c' :
  matches (Cat (Lit (x :: y :: w)) r) i s c i' s' c' ->
  exists t, s = x :: t.
Proof.
  intros H. inversion H; subst.
  match goal with
  | H1 : matches (Lit _) _ _ _ _ _ _ |- _ =>
      unfold Lit in H1; cbn [List.map Seq] in H1; apply cat_class_head in H1;
      destruct H1 as (a & t & -> & Ha)
  end.
  apply N.eqb_eq in Ha. subst. eauto.
Qed.

(* ===================================================================== *)
(** * The parser on the specification's scenario *)
(* ===================================================================== *)

(** C2. The scenario draft parses to exactly two questions: the first of
    type SC, not open, with the options 예 and 아니오; the second of type
    OQ, open, without options. *)
Theorem C2_scenario_parse :
  parseSurveyDraft scenario_draft
  = [ Question.mk (lit "q_0") (lit "1") (lit "만족하십니까?")
        [lit "예"; lit "아니오"] (lit "SC") false;
      Question.mk (lit "q_1") (lit "2") (lit "의견을 말해주세요")
        [] (lit "OQ") true ].
Proof. vm_compute. reflexivity. Qed.

(** ** The parser on small drafts *)

(** The number gives back a digit when nothing else is left for the text
    of the question. *)
Example number_gives_back_a_digit :
  parseSurveyDraft (lit "문항 12")
  = [Question.mk (lit "q_0") (lit "1") (lit "2") [] (lit "SC") false].
Proof. vm_compute. reflexivity. Qed.

(** A draft printed as an array of quoted strings is cut at the
    separators; the type code is read in lower case, with a repeat count;
    the text after the arrow is dropped. *)
Example array_shaped_draft :
  parseSurveyDraft (lit "['Q1. a (ma(3))', '- x → y', '3) z']")
  = [Question.mk (lit "q_0") (lit "1") (lit "a") [lit "x"; lit "z"] (lit "MA") false].
Proof. vm_compute. reflexivity. Qed.

(** Bracketed annotations go one by one, emphasis marks too. *)
Example annotations_are_stripped :
  parseSurveyDraft (lit "Q1. [필수] 이름 [선택] **굵게**")
  = [Question.mk (lit "q_0") (lit "1") (lit "이름  굵게") [] (lit "SC") false].
Proof. vm_compute. reflexivity. Qed.

(** The keyword opens the question whatever its type; option lines under
    an open question are still collected. *)
Example open_keyword_keeps_options :
  parseSurveyDraft (lit "문항 3. 의견을 적어주세요 (주관식)" ++ newline
                    ++ lit "① 무시되지 않음")
  = [Question.mk (lit "q_0") (lit "3") (lit "의견을 적어주세요 (주관식)")
       [lit "무시되지 않음"] (lit "SC") true].
Proof. vm_compute. reflexivity. Qed.

(** One option per marker convention; a line without marker is dropped. *)
Example option_conventions :
  parseSurveyDraft (lit "**문항 2-1:** 선택 (MA)" ++ newline
                    ++ lit "(1) 가 (SC)" ++ newline
                    ++ lit "• 나" ++ newline
                    ++ lit "-③다" ++ newline
                    ++ lit "12. 라" ++ newline
                    ++ lit "그냥 글")
  = [Question.mk (lit "q_0") (lit "2-1") (lit "선택")
       [lit "가"; lit "나"; lit "다"; lit "라"] (lit "MA") false].
Proof. vm_compute. reflexivity. Qed.

(* ===================================================================== *)
(** * The closed set of type codes *)
(* ===================================================================== *)

Ltac inv H := inversion H; subst; clear H.

Lemma two_letters_upper (x y : char) i s c i' s' c' :
  matches (Cat (ChrI x) (ChrI y)) i s c i' s' c' ->
  upper_char x = x -> upper_char y = y ->
  toUpperCase (firstn (i' - i) s) = [x; y].
Proof.
  intros H Hx Hy. inv H.
  match goal with
  | H1 : matches (ChrI x) _ _ _ _ _ _, H2 : matches (ChrI y) _ _ _ _ _ _ |- _ =>
      inv H1; inv H2
  end.
  replace (S (S i) - i) with 2 by lia. cbn.
  repeat match goal with
         | H : char_eqb _ _ = true |- _ => apply N.eqb_eq in H
         end.
  congruence.
Qed.

Lemma type_code_alternatives_upper i s c i' s' c' :
  matches type_code_alternatives i s c i' s' c' ->
  In (toUpperCase (firstn (i' - i) s)) type_codes.
Proof.
  intros H. unfold type_codes.
  repeat match goal with
         | H : matches (Alt _ _) _ _ _ _ _ _ |- _ => inv H
         | H : matches type_code_alternatives _ _ _ _ _ _ |- _ =>
             unfold type_code_alternatives in H; cbn [Any] in H
         end;
    match goal with
    | H : matches (LitI _) _ _ _ _ _ _ |- _ =>
        apply two_letters_upper in H; [rewrite H|reflexivity|reflexivity]
    end; cbn; tauto.
Qed.

Lemma repeat_count_no_groups : no_groups (Cat repeat_count (Chr 41)) = true.
Proof. reflexivity. Qed.

(** The first capture of a match of the type-code pattern is one of the
    seven codes, in either case of its letters. *)
Lemma type_code_capture (line : jsstring) (m : match_result) :
  exec TYPE_CODE_PATTERN line = Some m ->
  In (toUpperCase (group 1 m)) type_codes.
Proof.
  intros H. apply search_from_sound in H.
  destruct H as (j & t & i' & c' & Hm & Hcaps).
  unfold group. rewrite Hcaps. cbn [capture Nat.eqb].
  unfold TYPE_CODE_PATTERN in Hm. cbn [Seq] in Hm.
  inv Hm.
  match goal with H : matches (Chr 40) _ _ _ _ _ _ |- _ => inv H end.
  match goal with H : matches (Cat (Group 1 _) _) _ _ _ _ _ _ |- _ => inv H end.
  match goal with H : matches (Group 1 _) _ _ _ _ _ _ |- _ => inv H end.
  match goal with
  | H : matches (Cat repeat_count _) _ _ _ _ _ _ |- _ =>
      apply matches_no_groups in H; [subst|exact repeat_count_no_groups]
  end.
  cbn [capture Nat.eqb].
  eapply type_code_alternatives_upper; eassumption.
Qed.

Lemma type_of_line_closed (line : jsstring) : In (type_of_line line) type_codes.
Proof.
  unfold type_of_line.
  destruct (exec TYPE_CODE_PATTERN line) as [m|] eqn:E.
  - now apply type_code_capture in E.
  - left. reflexivity.
Qed.

Lemma step_types (st : Parser.state) (raw : jsstring) :
  Forall (fun q => In (Question.type q) type_codes) (held st) ->
  Forall (fun q => In (Question.type q) type_codes) (held (step st raw)).
Proof.
  unfold held, step. intros H.
  destruct (is_empty (trim raw)); [exact H|].
  destruct (first_match QUESTION_KEYWORD_PATTERNS (trim raw)) as [m|].
  - unfold flush at 1. cbn [currentQuestion parsedQuestions].
    apply Forall_app. split; [exact H|].
    constructor; [|constructor]. cbn [Question.type]. apply type_of_line_closed.
  - destruct (currentQuestion st) as [q|] eqn:Eq; [|exact H].
    destruct (is_empty (extract_option (trim raw))); [exact H|].
    destruct (0 <? length (clean_option (extract_option (trim raw)))); [|exact H].
    unfold flush in *. cbn [currentQuestion parsedQuestions]. rewrite Eq in H.
    apply Forall_app in H. destruct H as [Hp Hq].
    apply Forall_app. split; [exact Hp|].
    constructor; [|constructor]. inversion Hq; subst. exact H1.
Qed.

Lemma fold_step_types (lines : list jsstring) (st : Parser.state) :
  Forall (fun q => In (Question.type q) type_codes) (held st) ->
  Forall (fun q => In (Question.type q) type_codes) (held (fold_left step lines st)).
Proof.
  revert st. induction lines as [|l lines IH]; intros st H; cbn [fold_left].
  - exact H.
  - apply IH, step_types, H.
Qed.

Lemma parseSurveyDraft_types (draft : jsstring) (q : Question.t) :
  In q (parseSurveyDraft draft) -> In (Question.type q) type_codes.
Proof.
  unfold parseSurveyDraft.
  destruct (is_empty draft); [intros []|].
  destruct (Nat.eqb _ 0); [intros []|].
  intros Hq.
  pose proof (fold_step_types (draft_lines draft) initial (Forall_nil _)) as H.
  unfold held in H. rewrite Forall_forall in H. now apply H.
Qed.

Lemma type_codes_reached (code : jsstring) :
  In code type_codes ->
  exists q, In q (parseSurveyDraft (draft_tagged code)) /\ Question.type q = code.
Proof.
  intros H. unfold type_codes in H. cbn [In] in H.
  repeat (destruct H as [<-|H];
          [eexists; split; [left; vm_compute; reflexivity|reflexivity]|]).
  destruct H.
Qed.

Lemma type_codes_distinct : NoDup type_codes.
Proof.
  unfold type_codes.
  repeat (constructor; [cbn; intuition discriminate|]). constructor.
Qed.

(** Seven different codes are reached, so no six-element set holds them. *)
Lemma C8_seven_codes_reached : ~ six_codes_suffice.
Proof.
  intros (codes & Hlen & Hall).
  assert (Hincl : incl type_codes codes).
  { intros code Hcode. destruct (type_codes_reached code Hcode) as (q & Hq & <-).
    eapply Hall, Hq. }
  pose proof (NoDup_incl_length type_codes_distinct Hincl) as Hle.
  rewrite Hlen in Hle. cbn in Hle. lia.
Qed.

(** C8 (amended). A line that matches a question-boundary pattern starts a
    question whose type is the code found on the line by the type-code
    pattern, upper-cased, or SC when the line holds none; a repeat count
    after the code is accepted.  The types of parsed questions are
    exactly the seven codes SC, MA, OQ, RS, DC, RK, MG. *)
Theorem C8_type_codes_closed :
  (forall st raw m,
      is_empty (trim raw) = false ->
      first_match QUESTION_KEYWORD_PATTERNS (trim raw) = Some m ->
      exists q, currentQuestion (step st raw) = Some q
                /\ Question.type q = type_of_line (trim raw)
                /\ In (Question.type q) type_codes)
  /\ (forall line, exec TYPE_CODE_PATTERN line = None -> type_of_line line = lit "SC")
  /\ type_of_line (lit "Q3. rank these (rk(3))") = lit "RK"
  /\ (forall draft q, In q (parseSurveyDraft draft) -> In (Question.type q) type_codes)
  /\ (forall code, In code type_codes ->
        exists draft q, In q (parseSurveyDraft draft) /\ Question.type q = code)
  /\ NoDup type_codes
  /\ length type_codes = 7.
Proof.
  split; [|split; [|split; [|split; [|split; [|split]]]]].
  - intros st raw m Hline Hm. unfold step. rewrite Hline, Hm.
    eexists. split; [reflexivity|]. cbn [Question.type].
    split; [reflexivity|apply type_of_line_closed].
  - intros line H. unfold type_of_line. now rewrite H.
  - vm_compute. reflexivity.
  - exact parseSurveyDraft_types.
  - intros code Hcode. exists (draft_tagged code). now apply type_codes_reached.
  - exact type_codes_distinct.
  - reflexivity.
Qed.

(** C8 at the code MG. *)
Lemma C8_type_codes_closed_witness :
  In (lit "MG") type_codes
  /\ exists draft q, In q (parseSurveyDraft draft) /\ Question.type q = lit "MG".
Proof.
  assert (H : In (lit "MG") type_codes) by (unfold type_codes; cbn; tauto).
  split; [exact H|].
  exact (proj1 (proj2 (proj2 (proj2 (proj2 C8_type_codes_closed)))) (lit "MG") H).
Defined.

(* ===================================================================== *)
(** * Lines before the first question *)
(* ===================================================================== *)

Lemma step_without_question (st : Parser.state) (raw : jsstring) :
  currentQuestion st = None -> not_boundary raw -> step st raw = st.
Proof.
  unfold not_boundary, step. intros Hcur Hraw.
  destruct (is_empty (trim raw)); [reflexivity|].
  now rewrite Hraw, Hcur.
Qed.

Lemma fold_step_without_question (pre rest : list jsstring) (st : Parser.state) :
  currentQuestion st = None -> Forall not_boundary pre ->
  fold_left step (pre ++ rest) st = fold_left step rest st.
Proof.
  intros Hcur Hpre. induction Hpre as [|raw pre Hraw Hpre IH]; cbn [app fold_left].
  - reflexivity.
  - now rewrite step_without_question.
Qed.

Lemma trimStart_all_space (s : jsstring) : all_space s -> trimStart s = [].
Proof.
  induction 1 as [|c s Hc Hs IH]; cbn [trimStart]; [reflexivity|].
  now rewrite Hc.
Qed.

Lemma trimStart_head (s : jsstring) (c : char) (t : jsstring) :
  trimStart s = c :: t -> is_space c = false.
Proof.
  induction s as [|a s IH]; cbn [trimStart]; [discriminate|].
  destruct (is_space a) eqn:Ea; [exact IH|].
  now intros [= <- <-].
Qed.

Lemma trimStart_nil (s : jsstring) : trimStart s = [] -> all_space s.
Proof.
  induction s as [|a s IH]; cbn [trimStart]; [constructor|].
  destruct (is_space a) eqn:Ea; [|discriminate].
  intros H. constructor; [exact Ea|now apply IH].
Qed.

Lemma trim_all_space (s : jsstring) : all_space s -> trim s = [].
Proof.
  intros H. unfold trim, trimEnd. now rewrite (trimStart_all_space s H).
Qed.

Lemma trim_nil (s : jsstring) : trim s = [] -> all_space s.
Proof.
  unfold trim, trimEnd. intros H.
  apply (f_equal (@List.rev char)) in H. rewrite rev_involutive in H. cbn in H.
  apply trimStart_nil in H.
  destruct (trimStart s) as [|c t] eqn:E; [now apply trimStart_nil|].
  apply trimStart_head in E.
  unfold all_space in H. rewrite Forall_forall in H.
  specialize (H c). rewrite H in E; [discriminate|].
  apply in_rev. rewrite rev_involutive. now left.
Qed.

Lemma includes_head (c : char) (p s : jsstring) :
  includes (c :: p) s = true -> In c s.
Proof.
  induction s as [|a s IH]; cbn [includes startsWith]; [discriminate|].
  intros H. apply orb_true_iff in H. destruct H as [H|H].
  - apply andb_true_iff in H. destruct H as [H _].
    apply N.eqb_eq in H. left. now symmetry.
  - right. now apply IH.
Qed.

Lemma preprocess_all_space (draft : jsstring) :
  all_space draft -> preprocess draft = draft.
Proof.
  intros H. unfold preprocess.
  destruct (includes sep_single draft) eqn:E1.
  { apply includes_head in E1. unfold all_space in H. rewrite Forall_forall in H.
    apply H in E1. discriminate. }
  destruct (includes sep_double draft) eqn:E2; [|reflexivity].
  apply includes_head in E2. unfold all_space in H. rewrite Forall_forall in H.
  apply H in E2. discriminate.
Qed.

Lemma split_all_space (sep : char) (s : jsstring) :
  all_space s -> Forall all_space (split sep s).
Proof.
  induction 1 as [|c s Hc Hs IH]; cbn [split].
  - repeat constructor.
  - destruct (char_eqb c sep).
    + constructor; [constructor|exact IH].
    + destruct (split sep s) as [|piece rest]; [repeat constructor; exact Hc|].
      inversion IH; subst. constructor; [|assumption].
      constructor; assumption.
Qed.

Lemma fold_step_blank (lines : list jsstring) (st : Parser.state) :
  Forall all_space lines -> fold_left step lines st = st.
Proof.
  induction 1 as [|l lines Hl Hlines IH]; cbn [fold_left]; [reflexivity|].
  unfold step at 2. now rewrite (trim_all_space l Hl).
Qed.

(** The two guards at the head of [parseSurveyDraft] return what the loop
    would return anyway. *)
Lemma parseSurveyDraft_loop (draft : jsstring) :
  parseSurveyDraft draft = flush (fold_left step (draft_lines draft) initial).
Proof.
  unfold parseSurveyDraft.
  assert (Hblank : all_space draft ->
                   flush (fold_left step (draft_lines draft) initial) = []).
  { intros H. unfold draft_lines. rewrite (preprocess_all_space draft H).
    now rewrite fold_step_blank by (now apply split_all_space). }
  destruct draft as [|c draft]; cbn [is_empty].
  - symmetry. apply Hblank. constructor.
  - destruct (Nat.eqb_spec (length (trim (c :: draft))) 0) as [E|]; [|reflexivity].
    symmetry. apply Hblank, trim_nil. now apply length_zero_iff_nil.
Qed.

(** C9. The lines before the first question-boundary line leave no
    trace in the result, whatever they are: the parser returns what the
    loop returns on the remaining lines.  A draft none of whose lines is a
    question boundary parses to the empty sequence; so do the empty draft
    and every draft made of white space.  (The parser is a total
    function: it has no error to raise.) *)
Theorem C9_lines_before_first_question :
  (forall draft pre rest,
      draft_lines draft = pre ++ rest ->
      Forall not_boundary pre ->
      parseSurveyDraft draft = flush (fold_left step rest initial))
  /\ (forall draft,
        Forall not_boundary (draft_lines draft) -> parseSurveyDraft draft = [])
  /\ parseSurveyDraft [] = []
  /\ (forall draft, all_space draft -> parseSurveyDraft draft = []).
Proof.
  assert (H1 : forall draft pre rest,
             draft_lines draft = pre ++ rest ->
             Forall not_boundary pre ->
             parseSurveyDraft draft = flush (fold_left step rest initial)).
  { intros draft pre rest Hlines Hpre.
    rewrite parseSurveyDraft_loop, Hlines.
    now rewrite fold_step_without_question. }
  split; [exact H1|]. split; [|split].
  - intros draft Hall.
    rewrite (H1 draft (draft_lines draft) []); [reflexivity| |exact Hall].
    now rewrite app_nil_r.
  - reflexivity.
  - intros draft Hspace. rewrite parseSurveyDraft_loop.
    unfold draft_lines. rewrite (preprocess_all_space draft Hspace).
    now rewrite fold_step_blank by (now apply split_all_space).
Qed.

(** C9 at a draft with three option-like lines before its question. *)
Lemma C9_lines_before_first_question_witness :
  draft_lines late_question_draft
  = [lit "① 예"; lit "- 아니오"; lit "3) 모름"] ++ [lit "Q1. 만족하십니까?"; lit "① 예"]
  /\ Forall not_boundary [lit "① 예"; lit "- 아니오"; lit "3) 모름"]
  /\ parseSurveyDraft late_question_draft
     = flush (fold_left step [lit "Q1. 만족하십니까?"; lit "① 예"] initial).
Proof.
  assert (Hlines : draft_lines late_question_draft
                   = [lit "① 예"; lit "- 아니오"; lit "3) 모름"]
                       ++ [lit "Q1. 만족하십니까?"; lit "① 예"])
    by (vm_compute; reflexivity).
  assert (Hpre : Forall not_boundary [lit "① 예"; lit "- 아니오"; lit "3) 모름"])
    by (repeat constructor; vm_compute; reflexivity).
  split; [exact Hlines|]. split; [exact Hpre|].
  exact (proj1 C9_lines_before_first_question late_question_draft _ _ Hlines Hpre).
Defined.

(* ===================================================================== *)
(** * Properties of the paginator *)
(* ===================================================================== *)

(** Division by the group size, in a form [lia] can use. *)
Ltac ceil_facts n :=
  pose proof (Nat.div_mod_eq (n + 9) 10);
  pose proof (Nat.mod_upper_bound (n + 9) 10 ltac:(discriminate)).

Lemma groupQuestions_loop_spec (qs : list Question.t) (fuel k : nat)
      (groups : list QuestionGroup.t) :
  group_count qs - k <= fuel ->
  groupQuestions_loop qs fuel (10 * k) groups
  = groups ++ List.map (group_at qs) (seq k (group_count qs - k)).
Proof.
  unfold group_count. ceil_facts (length qs).
  revert k groups. induction fuel as [|fuel IH]; intros k groups Hfuel.
  - replace ((length qs + 9) / 10 - k) with 0 by lia.
    simpl. now rewrite app_nil_r.
  - cbn [groupQuestions_loop].
    destruct (Nat.ltb_spec (10 * k) (length qs)) as [Hlt|Hge].
    + replace (10 * k + groupSize) with (10 * S k) by (unfold groupSize; lia).
      rewrite IH by lia.
      replace ((length qs + 9) / 10 - k)
        with (S ((length qs + 9) / 10 - S k)) by lia.
      cbn [seq List.map]. rewrite <- app_assoc. cbn [app].
      do 2 f_equal. unfold group_at.
      replace (10 * S k) with (10 * k + 10) by lia.
      f_equal. destruct (Nat.eqb_spec (10 * k) 0), (Nat.eqb_spec k 0);
        (reflexivity || lia).
    + replace ((length qs + 9) / 10 - k) with 0 by lia.
      simpl. now rewrite app_nil_r.
Qed.

(** The fuel of the loop, one round per question, is enough. *)
Lemma groupQuestions_spec (qs : list Question.t) :
  groupQuestions qs = List.map (group_at qs) (seq 0 (group_count qs)).
Proof.
  unfold groupQuestions.
  change 0 with (10 * 0) at 1.
  rewrite groupQuestions_loop_spec.
  - now rewrite Nat.sub_0_r.
  - unfold group_count. ceil_facts (length qs). lia.
Qed.

Lemma groupQuestions_length (qs : list Question.t) :
  length (groupQuestions qs) = group_count qs.
Proof. now rewrite groupQuestions_spec, length_map, length_seq. Qed.

Lemma groupQuestions_nth (qs : list Question.t) (k : nat) :
  k < group_count qs -> nth_error (groupQuestions qs) k = Some (group_at qs k).
Proof.
  intros Hk. rewrite groupQuestions_spec.
  rewrite nth_error_map, nth_error_nth' with (d := 0) by (now rewrite length_seq).
  now rewrite seq_nth.
Qed.

(** C6. For a sequence of n > 0 questions the paginator returns
    ceil(n/10) groups; group k (from 0) has startNum 10k+1, endNum
    min(10k+10, n), holds the questions at positions 10k .. 10k+9, and is
    expanded exactly when k = 0.  So the endNum of every group but the
    last is a multiple of 10 and the endNum of the last one is n; 23
    questions give the ranges [1,10], [11,20], [21,23]. *)
Theorem C6_groupQuestions_ranges (qs : list Question.t) :
  0 < length qs ->
  let n := length qs in
  let groups := groupQuestions qs in
  length groups = (n + 9) / 10
  /\ (forall k, k < length groups ->
        exists g, nth_error groups k = Some g
          /\ QuestionGroup.startNum g = 10 * k + 1
          /\ QuestionGroup.endNum g = Nat.min (10 * k + 10) n
          /\ QuestionGroup.questions g = slice (10 * k) (10 * k + 10) qs
          /\ QuestionGroup.isExpanded g = Nat.eqb k 0
          /\ (S k < length groups -> QuestionGroup.endNum g = 10 * S k)
          /\ (S k = length groups -> QuestionGroup.endNum g = n))
  /\ (n = 23 ->
        List.map (fun g => (QuestionGroup.startNum g, QuestionGroup.endNum g,
                            QuestionGroup.isExpanded g)) groups
        = [(1, 10, true); (11, 20, false); (21, 23, false)]).
Proof.
  intros Hpos n groups. subst groups.
  rewrite groupQuestions_length. fold n.
  split; [reflexivity|]. split.
  - intros k Hk. exists (group_at qs k). unfold group_count in Hk. fold n in Hk.
    split; [now apply groupQuestions_nth|].
    unfold group_at, group_count.
    cbn [QuestionGroup.startNum QuestionGroup.endNum QuestionGroup.questions
         QuestionGroup.isExpanded].
    fold n. ceil_facts n.
    repeat split; try reflexivity; intros; lia.
  - intros H23. rewrite groupQuestions_spec. unfold group_count. fold n.
    rewrite H23. cbn. unfold group_at. cbn. fold n. rewrite H23. reflexivity.
Qed.

(** C6 at a sequence of 23 questions. *)
Lemma C6_groupQuestions_ranges_witness :
  let qs := repeat (Question.mk [] [] [] [] [] false) 23 in
  0 < length qs /\ length (groupQuestions qs) = (length qs + 9) / 10.
Proof.
  intros qs.
  assert (Hpos : 0 < length qs) by (cbn; lia).
  split; [exact Hpos|].
  exact (proj1 (C6_groupQuestions_ranges qs Hpos)).
Defined.

(* ===================================================================== *)
(** * Properties of the serializer *)
(* ===================================================================== *)

Lemma circledNumbers_nth (i : nat) :
  i < 12 -> nth i circledNumbers [] = [(0x2460 + N.of_nat i)%N].
Proof.
  intros Hi.
  do 12 (destruct i as [|i]; [reflexivity|]). lia.
Qed.

Lemma forEach_option_line (opts : list jsstring) (i : nat) (text : jsstring) :
  forEach option_line opts i text = text ++ option_lines opts i.
Proof.
  revert i text. induction opts as [|opt rest IH]; intros i text; cbn [forEach option_lines].
  - now rewrite app_nil_r.
  - rewrite IH. unfold option_line, option_marker.
    destruct (Nat.ltb_spec i 12) as [Hlt|Hge].
    + rewrite circledNumbers_nth by exact Hlt.
      now rewrite <- !app_assoc.
    + now rewrite <- !app_assoc.
Qed.

(** C7. A question that is not open and has options is serialized as its
    header line, one line per option and a blank line; the option at
    index i is prefixed by the i-th circled numeral when i < 12 and by
    the parenthesized decimal i+1 otherwise.  With 13 options the
    prefixes are the twelve glyphs followed by (13). *)
Theorem C7_option_prefixes :
  (forall (q : Question.t) (idx : nat) (text : jsstring),
      Question.isOpen q = false ->
      Question.options q <> [] ->
      question_block text q idx
      = text ++ of_nat (idx + 1) ++ lit ". " ++ Question.text q
          ++ lit " (" ++ Question.type q ++ lit ")" ++ newline
          ++ option_lines (Question.options q) 0 ++ newline)
  /\ (forall i, i < 12 -> option_marker i = nth i circledNumbers [])
  /\ (forall i, 12 <= i -> option_marker i = lit "(" ++ of_nat (i + 1) ++ lit ")")
  /\ List.map option_marker (seq 0 13)
     = [lit "①"; lit "②"; lit "③"; lit "④"; lit "⑤"; lit "⑥";
        lit "⑦"; lit "⑧"; lit "⑨"; lit "⑩"; lit "⑪"; lit "⑫"; lit "(13)"].
Proof.
  repeat split.
  - intros q idx text Hopen Hopts. unfold question_block.
    rewrite Hopen. destruct (Question.options q) as [|o os] eqn:E; [congruence|].
    cbn [negb andb length Nat.ltb Nat.leb].
    rewrite forEach_option_line. now rewrite <- !app_assoc.
  - intros i Hi. unfold option_marker.
    destruct (Nat.ltb_spec i 12); [|lia]. now rewrite circledNumbers_nth.
  - intros i Hi. unfold option_marker.
    destruct (Nat.ltb_spec i 12); [lia|reflexivity].
Qed.

(** C7 at the question with thirteen options, with the whole canonical
    text. *)
Lemma C7_option_prefixes_witness :
  Question.isOpen thirteen_options = false
  /\ Question.options thirteen_options <> []
  /\ questionsToText [thirteen_options]
     = lit "1. Pick (SC)" ++ newline
       ++ lit "   ① opt0" ++ newline ++ lit "   ② opt1" ++ newline
       ++ lit "   ③ opt2" ++ newline ++ lit "   ④ opt3" ++ newline
       ++ lit "   ⑤ opt4" ++ newline ++ lit "   ⑥ opt5" ++ newline
       ++ lit "   ⑦ opt6" ++ newline ++ lit "   ⑧ opt7" ++ newline
       ++ lit "   ⑨ opt8" ++ newline ++ lit "   ⑩ opt9" ++ newline
       ++ lit "   ⑪ opt10" ++ newline ++ lit "   ⑫ opt11" ++ newline
       ++ lit "   (13) opt12" ++ newline ++ newline.
Proof.
  split; [reflexivity|]. split; [discriminate|].
  unfold questionsToText. cbn [forEach].
  rewrite (proj1 C7_option_prefixes thirteen_options 0 []);
    [vm_compute; reflexivity | reflexivity | discriminate].
Defined.

(* ===================================================================== *)
(** * Properties of the edit operations *)
(* ===================================================================== *)

Lemma str_eqb_eq (s t : jsstring) : str_eqb s t = true <-> s = t.
Proof.
  revert t. induction s as [|a s IH]; intros [|b t]; cbn; try (split; congruence).
  unfold char_eqb. rewrite andb_true_iff, N.eqb_eq, IH.
  split; [intros [-> ->]; reflexivity | intros H; inversion H; auto].
Qed.

Lemma slice_map {A B} (f : A -> B) (from to : nat) (l : list A) :
  slice from to (List.map f l) = List.map f (slice from to l).
Proof. unfold slice. now rewrite skipn_map, firstn_map. Qed.

Lemma groupQuestions_questions (qs : list Question.t) :
  List.map QuestionGroup.questions (groupQuestions qs)
  = List.map (fun k => slice (10 * k) (10 * k + 10) qs) (seq 0 (group_count qs)).
Proof. rewrite groupQuestions_spec, map_map. reflexivity. Qed.

Lemma groupQuestions_map (f : Question.t -> Question.t) (qs : list Question.t) :
  List.map QuestionGroup.questions (groupQuestions (List.map f qs))
  = List.map (List.map f) (List.map QuestionGroup.questions (groupQuestions qs)).
Proof.
  rewrite !groupQuestions_questions, map_map.
  unfold group_count. rewrite length_map.
  apply map_ext. intros k. apply slice_map.
Qed.

Lemma firstn_add {A} (a b : nat) (t : list A) :
  firstn (a + b) t = firstn a t ++ firstn b (skipn a t).
Proof.
  revert t. induction a as [|a IH]; intros [|x t]; cbn; try reflexivity.
  - now rewrite firstn_nil.
  - now rewrite IH.
Qed.

Lemma windows_concat {A} (l : list A) (k m : nat) :
  concat (List.map (fun j => slice (10 * j) (10 * j + 10) l) (seq k m))
  = firstn (10 * m) (skipn (10 * k) l).
Proof.
  revert k. induction m as [|m IH]; intros k.
  - reflexivity.
  - cbn [seq List.map concat]. rewrite IH. unfold slice.
    replace (10 * k + 10 - 10 * k) with 10 by lia.
    replace (10 * S m) with (10 + 10 * m) by lia.
    replace (10 * S k) with (10 + 10 * k) by lia.
    rewrite <- (skipn_skipn 10 (10 * k) l).
    now rewrite firstn_add.
Qed.

Lemma groupQuestions_concat (qs : list Question.t) :
  concat (List.map QuestionGroup.questions (groupQuestions qs)) = qs.
Proof.
  rewrite groupQuestions_questions, windows_concat.
  cbn [Nat.mul skipn]. apply firstn_all2.
  unfold group_count. ceil_facts (length qs). lia.
Qed.

Lemma views_agree_concat (s : state) :
  views_agree s ->
  concat (List.map QuestionGroup.questions (questionGroups s)) = questions s.
Proof. unfold views_agree. intros ->. apply groupQuestions_concat. Qed.

Lemma views_agree_In (s : state) (g : QuestionGroup.t) (q : Question.t) :
  views_agree s ->
  In g (questionGroups s) -> In q (QuestionGroup.questions g) -> In q (questions s).
Proof.
  intros Hagree Hg Hq. rewrite <- (views_agree_concat s Hagree).
  apply in_concat. exists (QuestionGroup.questions g). split; [|exact Hq].
  now apply in_map.
Qed.

Lemma map_both_agree (f : Question.t -> Question.t) (s : state) :
  views_agree s -> views_agree (map_both f s).
Proof.
  unfold views_agree, map_both, set_questionGroups, set_questions.
  cbn [questions questionGroups]. intros H.
  rewrite groupQuestions_map, <- H, !map_map. reflexivity.
Qed.

Lemma mapM_total {A} (f : A -> option A) (l l' : list A) :
  mapM f l = Some l' ->
  l' = List.map (fun x => match f x with Some y => y | None => x end) l.
Proof.
  revert l'. induction l as [|x l IH]; intros l'; cbn.
  - now intros [= <-].
  - destruct (f x) as [y|]; [|discriminate].
    destruct (mapM f l) as [ys|]; [|discriminate].
    intros [= <-]. f_equal. now apply IH.
Qed.

Lemma updateOption_map_both (qid : jsstring) (idx : Z) (newText : jsstring) (s s' : state) :
  updateOption qid idx newText s = Some s' ->
  s' = set_hasLocalChanges true
         (map_both (fun q => match updateOption_fn qid idx newText q with
                             | Some q' => q'
                             | None => q
                             end) s).
Proof.
  unfold updateOption, map_both.
  destruct (mapM _ (questions s)) as [qs|] eqn:Eq; [|discriminate].
  destruct (mapM _ (questionGroups s)) as [gs|] eqn:Eg; [|discriminate].
  intros [= <-]. apply mapM_total in Eq. subst qs.
  f_equal. f_equal.
  clear -Eg. revert gs Eg. induction (questionGroups s) as [|g l IH]; intros gs; cbn.
  - now intros [= <-].
  - destruct (mapM _ (QuestionGroup.questions g)) as [qs|] eqn:Eq; [|discriminate].
    destruct (mapM _ l) as [gs'|]; [|discriminate].
    intros [= <-]. apply mapM_total in Eq. subst qs. f_equal. now apply IH.
Qed.

(** Every edit is one function applied to the questions of both views. *)
Lemma apply_edit_map_both (e : edit) (s s' : state) :
  apply_edit e s = Some s' ->
  exists f, s' = set_hasLocalChanges true (map_both f s)
            /\ forall q, Question.id (f q) = Question.id q.
Proof.
  destruct e as [qid newText|qid idx newText|qid|qid idx]; cbn [apply_edit].
  - intros [= <-]. eexists. split; [reflexivity|].
    intros q. cbn. now destruct (str_eqb _ _).
  - intros H. apply updateOption_map_both in H. eexists. split; [exact H|].
    intros q. cbn. unfold updateOption_fn.
    destruct (str_eqb _ _); [|reflexivity].
    now destruct (array_assign _ _ _).
  - intros [= <-]. eexists. split; [reflexivity|].
    intros q. cbn. now destruct (str_eqb _ _).
  - intros [= <-]. eexists. split; [reflexivity|].
    intros q. unfold removeOption_fn. now destruct (str_eqb _ _).
Qed.

Lemma NoDup_map_eq {A B} (f : A -> B) (l : list A) (x y : A) :
  NoDup (List.map f l) -> In x l -> In y l -> f x = f y -> x = y.
Proof.
  induction l as [|a l IH]; cbn; [tauto|].
  intros Hnd Hx Hy Hf. inversion Hnd as [|? ? Hnotin Hnd']; subst.
  destruct Hx as [->|Hx], Hy as [->|Hy]; auto.
  - exfalso. apply Hnotin. rewrite Hf. now apply in_map.
  - exfalso. apply Hnotin. rewrite <- Hf. now apply in_map.
Qed.

(** C5. After any of the four edit operations on a state whose grouped
    view is the partition in tens of the flat sequence, the grouped view
    is again that partition of the new flat sequence; every question of
    the grouped view occurs, with all its fields, in the flat sequence;
    and when ids are unique, the question of the flat sequence with the
    same id is that very question. *)
Theorem C5_dual_view_consistency (e : edit) (s s' : state) :
  views_agree s ->
  apply_edit e s = Some s' ->
  views_agree s'
  /\ concat (List.map QuestionGroup.questions (questionGroups s')) = questions s'
  /\ (forall g q, In g (questionGroups s') -> In q (QuestionGroup.questions g) ->
        In q (questions s'))
  /\ (NoDup (List.map Question.id (questions s)) ->
      forall g q q',
        In g (questionGroups s') -> In q (QuestionGroup.questions g) ->
        In q' (questions s') -> Question.id q' = Question.id q ->
        Question.text q' = Question.text q
        /\ Question.options q' = Question.options q
        /\ Question.type q' = Question.type q
        /\ Question.isOpen q' = Question.isOpen q).
Proof.
  intros Hagree Hedit.
  destruct (apply_edit_map_both e s s' Hedit) as (f & -> & Hid).
  assert (Hagree' : views_agree (set_hasLocalChanges true (map_both f s)))
    by (apply (map_both_agree f) in Hagree; exact Hagree).
  split; [exact Hagree'|].
  split; [now apply views_agree_concat|].
  split; [intros g q; now apply views_agree_In|].
  intros Hnd g q q' Hg Hq Hq' Hsame.
  assert (q' = q) as ->; [|auto].
  apply (views_agree_In _ g q Hagree' Hg) in Hq.
  cbn in Hq, Hq'.
  apply (NoDup_map_eq Question.id (List.map f (questions s))); auto.
  rewrite map_map. erewrite map_ext; [exact Hnd|]. exact Hid.
Qed.

(** C5 at the scenario state, for an option appended to the first
    question. *)
Lemma C5_dual_view_consistency_witness :
  views_agree scenario_state
  /\ apply_edit (AddOption (lit "q_0")) scenario_state
     = Some (addOption (lit "q_0") scenario_state)
  /\ views_agree (addOption (lit "q_0") scenario_state).
Proof.
  assert (Hagree : views_agree scenario_state) by reflexivity.
  split; [exact Hagree|]. split; [reflexivity|].
  exact (proj1 (C5_dual_view_consistency (AddOption (lit "q_0")) scenario_state
                  (addOption (lit "q_0") scenario_state) Hagree eq_refl)).
Defined.

Lemma filter_idx_all {A} (p : A -> nat -> bool) (l : list A) (idx : nat) :
  (forall x j, idx <= j < idx + length l -> p x j = true) ->
  filter_idx p l idx = l.
Proof.
  revert idx. induction l as [|x l IH]; intros idx Hp; cbn [filter_idx].
  - reflexivity.
  - rewrite Hp by (cbn; lia). f_equal.
    apply IH. intros y j Hj. apply Hp. cbn. lia.
Qed.

Lemma removeOption_fn_out_of_range (qid : jsstring) (i : Z) (q : Question.t) :
  (Question.id q = qid ->
   (i < 0 \/ Z.of_nat (length (Question.options q)) <= i)%Z) ->
  removeOption_fn qid i q = q.
Proof.
  intros Hrange. unfold removeOption_fn.
  destruct (str_eqb (Question.id q) qid) eqn:E; [|reflexivity].
  apply str_eqb_eq in E. specialize (Hrange E).
  rewrite filter_idx_all; [now destruct q|].
  intros x j Hj. apply negb_true_iff, Z.eqb_neq. lia.
Qed.

Lemma map_id_on {A} (f : A -> A) (l : list A) :
  (forall x, In x l -> f x = x) -> List.map f l = l.
Proof.
  induction l as [|x l IH]; cbn; intros H; [reflexivity|].
  rewrite H by auto. f_equal. apply IH. auto.
Qed.

Lemma map_both_id (f : Question.t -> Question.t) (s : state) :
  (forall q, In q (questions s) -> f q = q) ->
  (forall g q, In g (questionGroups s) -> In q (QuestionGroup.questions g) -> f q = q) ->
  map_both f s = s.
Proof.
  intros Hflat Hgrouped. unfold map_both.
  rewrite (map_id_on f (questions s)) by exact Hflat.
  rewrite (map_id_on _ (questionGroups s)).
  - now destruct s.
  - intros g Hg. rewrite (map_id_on f) by (intros q; apply Hgrouped; exact Hg).
    now destruct g.
Qed.

(** C10. In a state of the store (the views agree, ids are unique),
    removing from a question an option at an index outside
    [0, options.length) fails nowhere and changes nothing but the dirty
    flag, which it sets: the questions of both views keep all their
    fields. *)
Theorem C10_removeOption_out_of_range (s : state) (q : Question.t) (i : Z) :
  store_invariant s ->
  In q (questions s) ->
  (i < 0 \/ Z.of_nat (length (Question.options q)) <= i)%Z ->
  removeOption (Question.id q) i s = set_hasLocalChanges true s
  /\ questions (removeOption (Question.id q) i s) = questions s
  /\ questionGroups (removeOption (Question.id q) i s) = questionGroups s
  /\ hasLocalChanges (removeOption (Question.id q) i s) = true.
Proof.
  intros [Hagree Hnd] Hq Hrange.
  assert (Hfix : forall q', In q' (questions s) ->
                   removeOption_fn (Question.id q) i q' = q').
  { intros q' Hq'. apply removeOption_fn_out_of_range. intros Hid.
    now rewrite (NoDup_map_eq Question.id (questions s) q' q Hnd Hq' Hq Hid). }
  assert (E : removeOption (Question.id q) i s = set_hasLocalChanges true s).
  { unfold removeOption. rewrite map_both_id; [reflexivity|exact Hfix|].
    intros g q' Hg Hq'. apply Hfix. now apply (views_agree_In s g q' Hagree Hg). }
  rewrite E. repeat split; reflexivity.
Qed.

(** C10 at the scenario state: index 2 of a question with two options. *)
Lemma C10_removeOption_out_of_range_witness :
  let q := Question.mk (lit "q_0") (lit "1") (lit "만족하십니까?")
             [lit "예"; lit "아니오"] (lit "SC") false in
  store_invariant scenario_state
  /\ In q (questions scenario_state)
  /\ (2 < 0 \/ Z.of_nat (length (Question.options q)) <= 2)%Z
  /\ removeOption (lit "q_0") 2 scenario_state
     = set_hasLocalChanges true scenario_state.
Proof.
  intros q.
  assert (Hinv : store_invariant scenario_state).
  { split; [reflexivity|]. repeat constructor; cbn; intuition discriminate. }
  assert (Hin : In q (questions scenario_state)) by (left; reflexivity).
  assert (Hrange : (2 < 0 \/ Z.of_nat (length (Question.options q)) <= 2)%Z)
    by (right; cbn; lia).
  split; [exact Hinv|]. split; [exact Hin|]. split; [exact Hrange|].
  exact (proj1 (C10_removeOption_out_of_range scenario_state q 2 Hinv Hin Hrange)).
Defined.

(* ===================================================================== *)
(** * The states the panel reaches *)
(* ===================================================================== *)

Lemma uint_units_inj (d d' : Decimal.uint) : uint_units d = uint_units d' -> d = d'.
Proof.
  revert d'. induction d; intros d'; destruct d'; cbn [uint_units];
    intros H; try discriminate; try reflexivity;
    injection H as H; f_equal; now apply IHd.
Qed.

Lemma id_of_inj (j k : nat) : id_of j = id_of k -> j = k.
Proof.
  unfold id_of, of_nat. intros H. apply app_inv_head in H.
  now apply DecimalNat.Unsigned.to_uint_inj, uint_units_inj.
Qed.

Lemma step_ids (st : Parser.state) (raw : jsstring) :
  List.map Question.id (flush st) = List.map id_of (seq 0 (questionId st)) ->
  List.map Question.id (flush (step st raw))
  = List.map id_of (seq 0 (questionId (step st raw))).
Proof.
  unfold step. intros H.
  destruct (is_empty (trim raw)); [exact H|].
  destruct (first_match QUESTION_KEYWORD_PATTERNS (trim raw)) as [m|].
  - unfold flush at 1. cbn [currentQuestion parsedQuestions questionId].
    rewrite seq_S, !map_app, H. reflexivity.
  - destruct (currentQuestion st) as [q|] eqn:Eq; [|exact H].
    destruct (is_empty (extract_option (trim raw))); [exact H|].
    destruct (0 <? length (clean_option (extract_option (trim raw)))); [|exact H].
    unfold flush in *. cbn [currentQuestion parsedQuestions questionId].
    rewrite Eq in H. rewrite map_app in *. exact H.
Qed.

Lemma parseSurveyDraft_ids (draft : jsstring) :
  NoDup (List.map Question.id (parseSurveyDraft draft)).
Proof.
  rewrite parseSurveyDraft_loop.
  assert (H : forall lines st,
             List.map Question.id (flush st) = List.map id_of (seq 0 (questionId st)) ->
             List.map Question.id (flush (fold_left step lines st))
             = List.map id_of (seq 0 (questionId (fold_left step lines st)))).
  { induction lines as [|l lines IH]; intros st Hst; cbn [fold_left]; [exact Hst|].
    apply IH, step_ids, Hst. }
  rewrite (H (draft_lines draft) initial eq_refl).
  apply Finite.Injective_map_NoDup; [exact id_of_inj|apply seq_NoDup].
Qed.

Lemma map_idx_questions (f : QuestionGroup.t -> nat -> QuestionGroup.t)
      (gs : list QuestionGroup.t) (idx : nat) :
  (forall g i, QuestionGroup.questions (f g i) = QuestionGroup.questions g) ->
  List.map QuestionGroup.questions (map_idx f gs idx)
  = List.map QuestionGroup.questions gs.
Proof.
  intros Hf. revert idx. induction gs as [|g gs IH]; intros idx; cbn; [reflexivity|].
  now rewrite Hf, IH.
Qed.

(* ===================================================================== *)
(** * Properties of save and export *)
(* ===================================================================== *)

Lemma saveChanges_run (m : machine) (sid : jsstring) :
  known_session (sessionId (panel m)) = Some sid ->
  hasLocalChanges (panel m) = true ->
  saveChanges m
  = let first := Requested (UpdateField sid (lit "survey_draft") (save_text m)) true in
    let second := Requested (UpdateField sid (lit "final_survey") (save_text m)) true in
    let failure := [ConsoleError (lit "Save error:");
                    Alert (lit "저장 중 오류가 발생했습니다.")] in
    if outcome m (issued m) then
      if outcome m (S (issued m)) then
        (Ok tt,
         {| panel := set_isSaving false
                       (set_hasLocalChanges false
                          (updateSurveyState (save_text m) (save_text m)
                             (set_isSaving true (panel m))));
            outcome := outcome m; issued := S (S (issued m));
            trace := (trace m ++ [first]) ++ [second] |})
      else
        (Ok tt,
         {| panel := set_isSaving false (set_isSaving true (panel m));
            outcome := outcome m; issued := S (S (issued m));
            trace := (((trace m ++ [first]) ++ [second])
                        ++ [ConsoleError (lit "Save error:")])
                       ++ [Alert (lit "저장 중 오류가 발생했습니다.")] |})
    else
      (Ok tt,
       {| panel := set_isSaving false (set_isSaving true (panel m));
          outcome := outcome m; issued := S (issued m);
          trace := ((trace m ++ [first]) ++ [ConsoleError (lit "Save error:")])
                     ++ [Alert (lit "저장 중 오류가 발생했습니다.")] |}).
Proof.
  intros Hsid Hdirty.
  unfold saveChanges, bind, read. rewrite Hsid, Hdirty. cbn [negb].
  unfold try_catch_finally, bind, update, await, emit, save_text.
  cbn [panel outcome issued trace hasLocalChanges set_isSaving fst snd].
  rewrite Hdirty.
  destruct (outcome m (issued m)); cbn [panel outcome issued trace fst snd];
    [destruct (outcome m (S (issued m)))|];
    cbn [panel outcome issued trace fst snd hasLocalChanges set_isSaving];
    rewrite ?Hdirty; reflexivity.
Qed.

(** C3. From a dirty state with a known session, a save whose first
    persistence call rejects ends without an error escaping, has issued
    that one call only, and leaves the dirty flag set and the question
    sequence (and its grouped view) as they were.  In general the save
    clears the dirty flag exactly when both calls resolve, and never
    touches the questions. *)
Theorem C3_save_failure_keeps_dirty (m : machine) (sid : jsstring) :
  known_session (sessionId (panel m)) = Some sid ->
  hasLocalChanges (panel m) = true ->
  let m' := snd (saveChanges m) in
  (outcome m (issued m) = false ->
     fst (saveChanges m) = Ok tt
     /\ hasLocalChanges (panel m') = true
     /\ questions (panel m') = questions (panel m)
     /\ questionGroups (panel m') = questionGroups (panel m)
     /\ issued m' = S (issued m))
  /\ (hasLocalChanges (panel m') = false <->
      outcome m (issued m) = true /\ outcome m (S (issued m)) = true)
  /\ questions (panel m') = questions (panel m).
Proof.
  intros Hsid Hdirty m'. subst m'.
  rewrite (saveChanges_run m sid Hsid Hdirty). cbv zeta.
  destruct (outcome m (issued m)); [destruct (outcome m (S (issued m)))|];
    cbn [fst snd panel issued hasLocalChanges questions questionGroups
         set_isSaving set_hasLocalChanges updateSurveyState];
    rewrite ?Hdirty; repeat split; try reflexivity; try discriminate;
    intros; intuition discriminate.
Qed.

(** C3 at the scenario state, edited, with the server out of reach. *)
Lemma C3_save_failure_keeps_dirty_witness :
  known_session (sessionId (panel offline_machine)) = Some (lit "session-1")
  /\ hasLocalChanges (panel offline_machine) = true
  /\ outcome offline_machine (issued offline_machine) = false
  /\ hasLocalChanges (panel (snd (saveChanges offline_machine))) = true.
Proof.
  assert (Hsid : known_session (sessionId (panel offline_machine))
                 = Some (lit "session-1")) by reflexivity.
  assert (Hdirty : hasLocalChanges (panel offline_machine) = true) by reflexivity.
  assert (Hfirst : outcome offline_machine (issued offline_machine) = false)
    by reflexivity.
  split; [exact Hsid|]. split; [exact Hdirty|]. split; [exact Hfirst|].
  exact (proj1 (proj2 (proj1 (C3_save_failure_keeps_dirty offline_machine
                                 (lit "session-1") Hsid Hdirty) Hfirst))).
Defined.

(** When the save fails, the export still goes out, with the dirty flag
    set. *)
Lemma C4_export_when_save_fails : ~ export_request_is_clean.
Proof.
  intros H.
  specialize (H offline_machine (lit "session-1") docx true eq_refl eq_refl).
  assert (Hin : In (Requested (ExportSurvey (lit "session-1") docx) true)
                   (trace (snd (handleExport docx offline_machine)))).
  { vm_compute. right. right. right. left. reflexivity. }
  specialize (H Hin). discriminate.
Qed.

(** C4 (amended). From a dirty state with a known session, an export
    first runs the save, whose first persistence call opens the trace,
    and issues the file-generation request after it, once; when that
    request goes out the dirty flag is false exactly when both
    persistence calls resolved. *)
Theorem C4_export_after_save (m : machine) (sid : jsstring) (fmt : format) :
  known_session (sessionId (panel m)) = Some sid ->
  hasLocalChanges (panel m) = true ->
  let saved := snd (saveChanges m) in
  let m' := snd (handleExport fmt m) in
  exists rest tail,
    trace saved
    = trace m ++ Requested (UpdateField sid (lit "survey_draft") (save_text m)) true
                   :: rest
    /\ trace m'
       = trace saved
           ++ Requested (ExportSurvey sid fmt) (hasLocalChanges (panel saved)) :: tail
    /\ (forall sid' fmt' d, ~ In (Requested (ExportSurvey sid' fmt') d) rest)
    /\ (forall r d, ~ In (Requested r d) tail)
    /\ (hasLocalChanges (panel saved) = false <->
        outcome m (issued m) = true /\ outcome m (S (issued m)) = true).
Proof.
  intros Hsid Hdirty saved m'. subst saved m'.
  unfold handleExport, bind, read. rewrite Hsid, Hdirty.
  rewrite (saveChanges_run m sid Hsid Hdirty). cbv zeta.
  unfold try_catch_finally, exportSurvey, await, update, emit, bind.
  destruct (outcome m (issued m)); [destruct (outcome m (S (issued m)))|];
    cbn [fst snd panel issued trace outcome hasLocalChanges
         set_isSaving set_hasLocalChanges set_isExporting updateSurveyState];
    rewrite ?Hdirty.
  all: match goal with
       | |- context [if outcome ?w ?n then _ else _] => destruct (outcome w n)
       end;
    cbn [fst snd panel issued trace outcome hasLocalChanges
         set_isSaving set_hasLocalChanges set_isExporting updateSurveyState].
  all: rewrite <- ?app_assoc; cbn [app].
  all: eexists; eexists; split; [reflexivity|]; split;
    [rewrite <- ?app_assoc; cbn [app]; reflexivity|]; split; [|split];
    [ intros sid' fmt' d Hin; cbn in Hin; intuition discriminate
    | intros r d Hin; cbn in Hin; intuition discriminate
    | intuition discriminate ].
Qed.

(** C4 at the scenario state, edited, with every request resolving. *)
Lemma C4_export_after_save_witness :
  known_session (sessionId (panel online_machine)) = Some (lit "session-1")
  /\ hasLocalChanges (panel online_machine) = true
  /\ exists rest tail,
       trace (snd (saveChanges online_machine))
       = trace online_machine
           ++ Requested (UpdateField (lit "session-1") (lit "survey_draft")
                           (save_text online_machine)) true :: rest
       /\ trace (snd (handleExport hwpx online_machine))
          = trace (snd (saveChanges online_machine))
              ++ Requested (ExportSurvey (lit "session-1") hwpx)
                   (hasLocalChanges (panel (snd (saveChanges online_machine))))
                   :: tail
       /\ (forall sid' fmt' d, ~ In (Requested (ExportSurvey sid' fmt') d) rest)
       /\ (forall r d, ~ In (Requested r d) tail)
       /\ (hasLocalChanges (panel (snd (saveChanges online_machine))) = false <->
           outcome online_machine (issued online_machine) = true
           /\ outcome online_machine (S (issued online_machine)) = true).
Proof.
  split; [reflexivity|]. split; [reflexivity|].
  exact (C4_export_after_save online_machine (lit "session-1") hwpx eq_refl eq_refl).
Defined.

(* ===================================================================== *)
(** * The store invariant holds in every reachable state *)
(* ===================================================================== *)

Lemma saveChanges_questions (m : machine) :
  questions (panel (snd (saveChanges m))) = questions (panel m)
  /\ questionGroups (panel (snd (saveChanges m))) = questionGroups (panel m).
Proof.
  destruct (known_session (sessionId (panel m))) as [sid|] eqn:Hsid.
  - destruct (hasLocalChanges (panel m)) eqn:Hdirty.
    + rewrite (saveChanges_run m sid Hsid Hdirty). cbv zeta.
      destruct (outcome m (issued m)); [destruct (outcome m (S (issued m)))|];
        split; reflexivity.
    + unfold saveChanges, bind, read. rewrite Hsid, Hdirty. split; reflexivity.
  - unfold saveChanges, bind, read. rewrite Hsid. split; reflexivity.
Qed.

Lemma handleExport_questions (fmt : format) (m : machine) :
  questions (panel (snd (handleExport fmt m))) = questions (panel m)
  /\ questionGroups (panel (snd (handleExport fmt m))) = questionGroups (panel m).
Proof.
  unfold handleExport, bind, read.
  destruct (known_session (sessionId (panel m))) as [sid|]; [|split; reflexivity].
  assert (H : questions (panel (snd ((if hasLocalChanges (panel m)
                                      then saveChanges else ret tt) m)))
              = questions (panel m)
              /\ questionGroups (panel (snd ((if hasLocalChanges (panel m)
                                              then saveChanges else ret tt) m)))
                 = questionGroups (panel m)).
  { destruct (hasLocalChanges (panel m)); [apply saveChanges_questions|split; reflexivity]. }
  destruct ((if hasLocalChanges (panel m) then saveChanges else ret tt) m)
    as [[[]|r] m1]; cbn [snd] in H; [|exact H].
  unfold try_catch_finally, exportSurvey, await, update, emit, bind.
  cbn [panel outcome issued trace].
  destruct (outcome m1 (issued m1)); exact H.
Qed.

Lemma reachable_invariant (s : state) : reachable s -> store_invariant s.
Proof.
  induction 1 as [s|e s s' Hs [Hagree Hnd] Hedit|groupIdx s Hs [Hagree Hnd]
                 |m Hm [Hagree Hnd]|fmt m Hm [Hagree Hnd]].
  - split; [reflexivity|]. apply parseSurveyDraft_ids.
  - destruct (apply_edit_map_both e s s' Hedit) as (f & -> & Hid). split.
    + exact (map_both_agree f s Hagree).
    + cbn [questions set_hasLocalChanges map_both set_questionGroups set_questions].
      rewrite map_map. erewrite map_ext; [exact Hnd|exact Hid].
  - split; [|exact Hnd]. unfold views_agree, toggleGroup in *.
    cbn [questions questionGroups set_questionGroups].
    rewrite map_idx_questions; [exact Hagree|].
    intros g i. now destruct (Nat.eqb i groupIdx).
  - destruct (saveChanges_questions m) as [Hq Hg].
    unfold store_invariant, views_agree. now rewrite Hq, Hg.
  - destruct (handleExport_questions fmt m) as [Hq Hg].
    unfold store_invariant, views_agree. now rewrite Hq, Hg.
Qed.

(* ===================================================================== *)
(** * What a question line starts with *)
(* ===================================================================== *)

Lemma boundary_starts (line : jsstring) (m : match_result) :
  first_match QUESTION_KEYWORD_PATTERNS line = Some m ->
  exists a t, line = a :: t /\ boundary_head a = true.
Proof.
  unfold QUESTION_KEYWORD_PATTERNS. cbn [first_match]. unfold boundary_head.
  destruct (exec _ line) as [m1|] eqn:E1.
  - intros _. apply exec_anchored in E1. destruct E1 as (i' & c' & H).
    apply cat_opt_head in H.
    destruct H as [(a & t & -> & Ha)|H].
    { exists a, t. rewrite Ha. split; reflexivity. }
    apply cat_opt_head in H.
    destruct H as [(a & t & -> & Ha)|H].
    { exists a, t. rewrite Ha. split; reflexivity. }
    change (lit "문항") with [0xBB38; 0xD56D]%N in H.
    apply cat_lit_head in H. destruct H as (t & ->).
    eexists _, t. split; reflexivity.
  - match goal with
    | |- context [exec ?p line] => destruct (exec p line) as [m2|] eqn:E2
    end; [|intros [=]].
    intros _. apply exec_anchored in E2. destruct E2 as (i' & c' & H).
    apply cat_class_head in H. destruct H as (a & t & -> & Ha).
    exists a, t. split; [reflexivity|]. rewrite Ha. now rewrite !orb_true_r.
Qed.

Lemma trimStart_keeps (a : char) (t : jsstring) :
  is_space a = false -> trimStart (a :: t) = a :: t.
Proof. intros H. cbn [trimStart]. now rewrite H. Qed.

Lemma trimStart_ends (u : jsstring) (a : char) :
  is_space a = false -> exists u', trimStart (u ++ [a]) = u' ++ [a].
Proof.
  intros Ha. induction u as [|b u IH]; cbn [app trimStart].
  - rewrite Ha. now exists [].
  - destruct (is_space b); [exact IH|]. now exists (b :: u).
Qed.

(** Trimming keeps a first code unit that is not white space. *)
Lemma trim_head (a : char) (t : jsstring) :
  is_space a = false -> exists t', trim (a :: t) = a :: t'.
Proof.
  intros Ha. unfold trim, trimEnd. rewrite (trimStart_keeps a t Ha).
  cbn [List.rev]. destruct (trimStart_ends (List.rev t) a Ha) as (u' & ->).
  rewrite rev_app_distr. cbn. eauto.
Qed.

Lemma trimStart_spaces (u t : jsstring) :
  all_space u -> trimStart (u ++ t) = trimStart t.
Proof.
  induction 1 as [|b u Hb Hu IH]; cbn [app trimStart]; [reflexivity|].
  now rewrite Hb.
Qed.

(** A line that, after leading white space, starts with a code unit no
    question line starts with is not a question boundary. *)
Lemma not_boundary_by_head (u : jsstring) (a : char) (t : jsstring) :
  all_space u -> is_space a = false -> boundary_head a = false ->
  not_boundary (u ++ a :: t).
Proof.
  intros Hu Ha Hhead. unfold not_boundary.
  destruct (first_match _ _) as [m|] eqn:E; [|reflexivity].
  apply boundary_starts in E. destruct E as (b & w & Hline & Hb).
  unfold trim in Hline. rewrite (trimStart_spaces u (a :: t) Hu) in Hline.
  fold (trim (a :: t)) in Hline.
  destruct (trim_head a t Ha) as (t' & Ht). rewrite Ht in Hline.
  injection Hline as <- _. congruence.
Qed.

(* ===================================================================== *)
(** * Parsed fields never hold a line break *)
(* ===================================================================== *)

Lemma trimStart_incl (s : jsstring) (x : char) : In x (trimStart s) -> In x s.
Proof.
  induction s as [|a s IH]; cbn [trimStart]; [tauto|].
  destruct (is_space a); [|tauto]. intros H. right. now apply IH.
Qed.

Lemma trim_incl (s : jsstring) (x : char) : In x (trim s) -> In x s.
Proof.
  unfold trim, trimEnd. intros H.
  apply in_rev, trimStart_incl in H. apply in_rev in H.
  now apply trimStart_incl.
Qed.

Lemma match_here_rest (r : regex) (i : nat) (s : jsstring) (m : match_result) :
  match_here r i s = Some m -> exists u, s = u ++ m_rest m.
Proof.
  intros H. apply match_here_sound in H. destruct H as (i' & c' & Hm & _).
  apply matches_suffix in Hm. destruct Hm as (u & Hu & _). eauto.
Qed.

Lemma replace_all_from_incl (r : regex) (fuel i : nat) (s : jsstring) (x : char) :
  In x (replace_all_from r [] fuel i s) -> In x s.
Proof.
  revert i s. induction fuel as [|fuel IH]; intros i s; cbn [replace_all_from];
    [tauto|].
  assert (Hcopy : In x match s with
                       | [] => []
                       | a :: s' => a :: replace_all_from r [] fuel (S i) s'
                       end -> In x s).
  { destruct s as [|a s']; [tauto|]. intros [->|H]; [now left|].
    right. now apply IH in H. }
  destruct (match_here r i s) as [m|] eqn:E; [|exact Hcopy].
  destruct (length (m_rest m) <? length s); cbn [app]; [|exact Hcopy].
  intros H. apply IH in H. apply match_here_rest in E. destruct E as (u & ->).
  apply in_or_app. now right.
Qed.

Lemma replace_all_incl (r : regex) (s : jsstring) (x : char) :
  In x (replace_all r [] s) -> In x s.
Proof. apply replace_all_from_incl. Qed.

Lemma replace_incl (r : regex) (s : jsstring) (x : char) :
  In x (replace r [] s) -> In x s.
Proof.
  unfold replace. destruct (exec r s) as [m|] eqn:E; [|tauto].
  cbn [app]. intros H. apply in_app_or in H. destruct H as [H|H].
  - rewrite <- (firstn_skipn (m_start m) s). apply in_or_app. now left.
  - now apply (proj1 (exec_within r s m E)).
Qed.

Lemma group_incl (r : regex) (line : jsstring) (m : match_result) (n : nat) (x : char) :
  exec r line = Some m -> In x (group n m) -> In x line.
Proof.
  intros E. unfold group.
  destruct (capture n (m_caps m)) as [v|] eqn:Ev; [|intros []].
  now apply (proj2 (exec_within r line m E) n v Ev).
Qed.

Lemma first_match_incl (patterns : list regex) (line : jsstring) (m : match_result)
      (n : nat) (x : char) :
  first_match patterns line = Some m -> In x (group n m) -> In x line.
Proof.
  induction patterns as [|r rs IH]; cbn [first_match]; [discriminate|].
  destruct (exec r line) as [m'|] eqn:E; [|exact IH].
  intros [= ->]. now apply (group_incl r).
Qed.

Lemma split_head_incl (sep : char) (s : jsstring) (x : char) :
  In x (hd [] (split sep s)) -> In x s.
Proof.
  induction s as [|a s IH]; cbn [split hd]; [tauto|].
  destruct (char_eqb a sep); cbn [hd]; [intros []|].
  destruct (split sep s) as [|piece rest]; cbn [hd] in *.
  - intros [->|[]]. now left.
  - intros [->|H]; [now left|]. right. now apply IH.
Qed.

Lemma extract_option_incl (line : jsstring) (x : char) :
  In x (extract_option line) -> In x line.
Proof.
  unfold extract_option.
  assert (H1 : In x match first_match optionPatterns line with
                    | Some m => group 1 m
                    | None => []
                    end -> In x line).
  { destruct (first_match optionPatterns line) as [m|] eqn:E; [|intros []].
    now apply (first_match_incl optionPatterns line m 1). }
  set (t1 := match first_match optionPatterns line with
             | Some m => group 1 m
             | None => []
             end) in *.
  assert (H2 : In x (if is_empty t1
                     then match exec NUMBERED_OPTION line with
                          | Some numMatch => group 2 numMatch
                          | None => t1
                          end
                     else t1) -> In x line).
  { destruct (is_empty t1); [|exact H1].
    destruct (exec NUMBERED_OPTION line) as [m|] eqn:E; [|exact H1].
    now apply (group_incl NUMBERED_OPTION line m 2). }
  set (t2 := if is_empty t1 then _ else t1) in *.
  destruct (is_empty t2); [|exact H2].
  destruct (exec DASH_OPTION line) as [m|] eqn:E; [|exact H2].
  now apply (group_incl DASH_OPTION line m 1).
Qed.

Lemma clean_option_incl (t : jsstring) (x : char) : In x (clean_option t) -> In x t.
Proof.
  unfold clean_option. intros H.
  apply trim_incl, replace_incl, replace_all_incl, split_head_incl in H. exact H.
Qed.

Lemma clean_question_text_incl (t : jsstring) (x : char) :
  In x (clean_question_text t) -> In x t.
Proof.
  unfold clean_question_text. intros H.
  now apply trim_incl, replace_all_incl, replace_all_incl, replace_all_incl in H.
Qed.

Lemma own_units_free (bad : char) (w : jsstring) :
  forallb (fun x => existsb (N.eqb x) own_units) w = true ->
  foreign bad -> free bad w.
Proof.
  intros Hw [_ Hbad] Hin. apply Hbad.
  rewrite forallb_forall in Hw. apply Hw in Hin.
  apply existsb_exists in Hin. destruct Hin as (y & Hy & E).
  apply N.eqb_eq in E. now subst.
Qed.

Lemma type_codes_free (bad : char) (code : jsstring) :
  foreign bad -> In code type_codes -> free bad code.
Proof.
  intros Hbad H. unfold type_codes in H. cbn [In] in H.
  repeat (destruct H as [<-|H]; [now apply own_units_free|]). destruct H.
Qed.

Lemma step_free (bad : char) (st : Parser.state) (raw : jsstring) :
  foreign bad -> free bad raw ->
  Forall (fields_free bad) (flush st) ->
  Forall (fields_free bad) (flush (step st raw)).
Proof.
  intros Hbad Hraw H. unfold step.
  destruct (is_empty (trim raw)); [exact H|].
  destruct (first_match QUESTION_KEYWORD_PATTERNS (trim raw)) as [m|] eqn:Em.
  - unfold flush at 1. cbn [currentQuestion parsedQuestions].
    apply Forall_app. split; [exact H|]. constructor; [|constructor].
    unfold fields_free. cbn [Question.text Question.type Question.options].
    split; [|split; [now apply type_codes_free, type_of_line_closed|constructor]].
    intros Hin. apply Hraw.
    apply clean_question_text_incl in Hin.
    apply (first_match_incl _ _ _ _ _ Em) in Hin. now apply trim_incl.
  - destruct (currentQuestion st) as [q|] eqn:Eq; [|exact H].
    destruct (is_empty (extract_option (trim raw))); [exact H|].
    destruct (0 <? length (clean_option (extract_option (trim raw)))); [|exact H].
    unfold flush in *. cbn [currentQuestion parsedQuestions]. rewrite Eq in H.
    apply Forall_app in H. destruct H as [Hp Hq].
    apply Forall_app. split; [exact Hp|]. constructor; [|constructor].
    inversion Hq as [|? ? (Ht & Hty & Ho) _]; subst.
    unfold fields_free. cbn [Question.text Question.type Question.options].
    split; [exact Ht|]. split; [exact Hty|].
    apply Forall_app. split; [exact Ho|]. constructor; [|constructor].
    intros Hin. apply Hraw.
    now apply clean_option_incl, extract_option_incl, trim_incl in Hin.
Qed.

(** A code unit that no line of the draft holds is in no field of a
    parsed question: the fields are cut out of single lines, and the type
    is one of the codes. *)
Lemma parseSurveyDraft_free (bad : char) (draft : jsstring) :
  foreign bad -> Forall (free bad) (draft_lines draft) ->
  Forall (fields_free bad) (parseSurveyDraft draft).
Proof.
  intros Hbad. rewrite parseSurveyDraft_loop.
  generalize (draft_lines draft). intros lines Hlines.
  assert (H : forall st, Forall (fields_free bad) (flush st) ->
                         Forall (fields_free bad) (flush (fold_left step lines st))).
  { induction Hlines as [|l lines Hl Hlines IH]; intros st Hst; cbn [fold_left];
      [exact Hst|].
    apply IH, step_free; assumption. }
  apply H. constructor.
Qed.

Lemma split_nf (s : jsstring) : Forall nf (split 10%N s).
Proof.
  unfold nf, free. induction s as [|a s IH]; cbn [split].
  - constructor; [intros []|constructor].
  - unfold char_eqb. destruct (N.eqb_spec a 10) as [->|Hne].
    + constructor; [intros []|exact IH].
    + destruct (split 10%N s) as [|piece rest].
      * constructor; [|constructor]. intros [H|[]]. now apply Hne.
      * inversion IH as [|? ? Hpiece Hrest]; subst.
        constructor; [|exact Hrest].
        intros [H|H]; [now apply Hne|now apply Hpiece].
Qed.

Lemma split_free (bad sep : char) (s : jsstring) :
  free bad s -> Forall (free bad) (split sep s).
Proof.
  unfold free. induction s as [|a s IH]; intros Hs; cbn [split].
  - constructor; [intros []|constructor].
  - assert (Hs' : ~ In bad s) by (intros H; apply Hs; now right).
    specialize (IH Hs').
    destruct (char_eqb a sep); [constructor; [intros []|exact IH]|].
    destruct (split sep s) as [|piece rest].
    + constructor; [|constructor]. intros [H|[]]. apply Hs. now left.
    + inversion IH as [|? ? Hpiece Hrest]; subst.
      constructor; [|exact Hrest].
      intros [H|H]; [apply Hs; now left|now apply Hpiece].
Qed.

Lemma line_feed_foreign : foreign 10%N.
Proof. split; [reflexivity|]. unfold own_units. cbn. intuition discriminate. Qed.

(* ===================================================================== *)
(** * The lines of the canonical text *)
(* ===================================================================== *)

Lemma unlines_app (ls ls' : list jsstring) :
  unlines (ls ++ ls') = unlines ls ++ unlines ls'.
Proof. unfold unlines. now rewrite map_app, concat_app. Qed.

Lemma option_lines_unlines (opts : list jsstring) (i : nat) :
  option_lines opts i = unlines (option_text_lines opts i).
Proof.
  revert i. induction opts as [|opt rest IH]; intros i; [reflexivity|].
  cbn [option_lines option_text_lines]. unfold unlines. cbn [List.map concat].
  fold (unlines (option_text_lines rest (S i))). rewrite <- IH.
  unfold option_text_line. now rewrite <- !app_assoc.
Qed.

Lemma question_block_unlines (text : jsstring) (q : Question.t) (idx : nat) :
  question_block text q idx = text ++ unlines (block_lines q idx).
Proof.
  unfold question_block, block_lines.
  change (header_line q idx :: ?l) with ([header_line q idx] ++ l).
  rewrite !unlines_app.
  change (unlines [header_line q idx]) with ((header_line q idx ++ newline) ++ []).
  change (unlines [[]]) with newline.
  unfold header_line. rewrite app_nil_r.
  destruct (negb (Question.isOpen q) && (0 <? length (Question.options q))).
  - rewrite forEach_option_line, option_lines_unlines. now rewrite <- !app_assoc.
  - destruct (Question.isOpen q).
    + change (unlines [lit "   [주관식 응답]"]) with (lit "   [주관식 응답]" ++ newline).
      now rewrite <- !app_assoc.
    + change (unlines []) with (@nil char). now rewrite <- !app_assoc.
Qed.

Lemma questionsToText_unlines (qs : list Question.t) :
  questionsToText qs = unlines (text_lines qs 0).
Proof.
  unfold questionsToText.
  assert (H : forall idx text,
             forEach question_block qs idx text = text ++ unlines (text_lines qs idx)).
  { induction qs as [|q rest IH]; intros idx text; cbn [forEach text_lines].
    - now rewrite app_nil_r.
    - rewrite IH, question_block_unlines, unlines_app. now rewrite <- app_assoc. }
  now rewrite H.
Qed.

Lemma split_line (l t : jsstring) :
  nf l -> split 10%N (l ++ 10%N :: t) = l :: split 10%N t.
Proof.
  unfold nf, free. induction l as [|a l IH]; intros Hl; cbn [app split].
  - unfold char_eqb. now rewrite N.eqb_refl.
  - unfold char_eqb. destruct (N.eqb_spec a 10) as [->|Hne].
    + exfalso. apply Hl. now left.
    + rewrite IH; [reflexivity|]. intros Hin. apply Hl. now right.
Qed.

Lemma split_unlines (ls : list jsstring) :
  Forall nf ls -> split 10%N (unlines ls) = ls ++ [[]].
Proof.
  induction 1 as [|l ls Hl Hls IH]; [reflexivity|].
  unfold unlines. cbn [List.map concat]. fold (unlines ls).
  rewrite <- app_assoc. cbn [newline app]. now rewrite split_line, IH.
Qed.

(** Decides the comparisons of a goal one at a time, closing the
    impossible branches as they appear. *)
Ltac decide_comparisons :=
  repeat match goal with
         | |- context [N.eqb ?a ?b] => destruct (N.eqb_spec a b); try lia
         | |- context [N.leb ?a ?b] => destruct (N.leb_spec a b); try lia
         | |- context [N.ltb ?a ?b] => destruct (N.ltb_spec a b); try lia
         end;
  cbn; try reflexivity; try lia.

Lemma boundary_head_false (a : char) :
  a <> 42%N -> a <> 0xBB38%N -> a <> 81%N -> a <> 113%N -> boundary_head a = false.
Proof.
  intros H1 H2 H3 H4. unfold boundary_head, char_eqb.
  destruct (N.eqb_spec 42 a); [congruence|].
  destruct (N.eqb_spec 0xBB38 a); [congruence|]. cbn [orb].
  change (upper_char 81%N) with 81%N. apply N.eqb_neq.
  unfold upper_char, is_lower_ascii.
  destruct (N.leb_spec 97 a), (N.leb_spec a 122); cbn [andb]; lia.
Qed.

Lemma is_space_false (a : char) :
  (13 < a < 0xA0 -> a <> 32 -> is_space a = false)%N
  /\ (0x205F < a < 0x3000 -> is_space a = false)%N.
Proof.
  unfold is_space. split; intros; decide_comparisons.
Qed.

Lemma digit_plain (a : char) : is_digit a = true -> plain_head a.
Proof.
  unfold is_digit. intros H. apply andb_true_iff in H. destruct H as [H1 H2].
  apply N.leb_le in H1, H2. unfold plain_head. split; [|split].
  - apply (proj1 (is_space_false a)); lia.
  - apply boundary_head_false; lia.
  - lia.
Qed.

Lemma glyph_plain (i : nat) : i < 12 -> plain_head (0x2460 + N.of_nat i)%N.
Proof.
  intros Hi. set (a := (0x2460 + N.of_nat i)%N).
  assert (0x2460 <= a <= 0x246B)%N by (subst a; lia).
  unfold plain_head. split; [|split].
  - apply (proj2 (is_space_false a)); lia.
  - apply boundary_head_false; lia.
  - lia.
Qed.

Lemma uint_units_digits (d : Decimal.uint) :
  Forall (fun a => is_digit a = true) (uint_units d).
Proof. induction d; cbn [uint_units]; constructor; auto. Qed.

Lemma of_nat_digits (n : nat) :
  exists a t, of_nat n = a :: t /\ Forall (fun a => is_digit a = true) (of_nat n).
Proof.
  unfold of_nat. pose proof (uint_units_digits (Nat.to_uint n)) as Hd.
  destruct (Nat.to_uint n) as [| | | | | | | | | |] eqn:E; cbn [uint_units] in *; eauto.
  exfalso. pose proof (DecimalNat.Unsigned.to_of (Nat.to_uint n)) as H.
  rewrite DecimalNat.Unsigned.of_to, E in H. discriminate.
Qed.

Lemma free_app (bad : char) (s t : jsstring) :
  free bad s -> free bad t -> free bad (s ++ t).
Proof. unfold free. intros Hs Ht H. apply in_app_or in H. tauto. Qed.

Lemma free_of_nat (bad : char) (n : nat) : foreign bad -> free bad (of_nat n).
Proof.
  intros [Hbad _]. destruct (of_nat_digits n) as (_ & _ & _ & Hd). intros Hin.
  rewrite Forall_forall in Hd. apply Hd in Hin. congruence.
Qed.

Lemma free_option_marker (bad : char) (i : nat) :
  foreign bad -> free bad (option_marker i).
Proof.
  intros Hbad. unfold option_marker. destruct (Nat.ltb_spec i 12) as [Hi|Hi].
  - rewrite <- (circledNumbers_nth i Hi). apply own_units_free; [|exact Hbad].
    do 12 (destruct i as [|i]; [reflexivity|]). lia.
  - repeat apply free_app; try (now apply free_of_nat);
      now apply own_units_free.
Qed.

Lemma header_line_plain (q : Question.t) (idx : nat) :
  exists a t, header_line q idx = a :: t /\ plain_head a.
Proof.
  unfold header_line. destruct (of_nat_digits (idx + 1)) as (a & t & E & Hd).
  rewrite E in *. inversion Hd; subst. cbn [app].
  eexists _, _. split; [reflexivity|]. now apply digit_plain.
Qed.

Lemma option_text_line_plain (i : nat) (opt : jsstring) :
  exists a t, option_text_line i opt = lit "   " ++ a :: t /\ plain_head a.
Proof.
  unfold option_text_line, option_marker. destruct (Nat.ltb_spec i 12) as [Hi|Hi].
  - eexists _, _. split; [reflexivity|]. now apply glyph_plain.
  - eexists _, _. split; [reflexivity|].
    unfold plain_head. split; [reflexivity|split; [reflexivity|discriminate]].
Qed.

Lemma three_spaces : all_space (lit "   ").
Proof. repeat constructor. Qed.

Lemma text_lines_not_boundary (qs : list Question.t) (idx : nat) :
  Forall not_boundary (text_lines qs idx).
Proof.
  assert (Hempty : not_boundary []) by (vm_compute; reflexivity).
  assert (Hopts : forall opts i, Forall not_boundary (option_text_lines opts i)).
  { induction opts as [|opt rest IH]; intros i; cbn [option_text_lines];
      constructor; [|apply IH].
    destruct (option_text_line_plain i opt) as (a & t & -> & Ha & Hb & _).
    now apply not_boundary_by_head; [apply three_spaces| |]. }
  revert idx. induction qs as [|q rest IH]; intros idx; cbn [text_lines];
    [constructor|].
  apply Forall_app. split; [|apply IH].
  unfold block_lines. constructor.
  - destruct (header_line_plain q idx) as (a & t & -> & Ha & Hb & _).
    now apply (not_boundary_by_head []); [constructor| |].
  - apply Forall_app. split; [|now constructor].
    destruct (negb (Question.isOpen q) && (0 <? length (Question.options q)));
      [apply Hopts|].
    destruct (Question.isOpen q); [|constructor].
    constructor; [|constructor]. vm_compute. reflexivity.
Qed.

Lemma text_lines_free (bad : char) (qs : list Question.t) (idx : nat) :
  foreign bad ->
  Forall (fields_free bad) qs -> Forall (free bad) (text_lines qs idx).
Proof.
  intros Hbad.
  assert (Hopts : forall opts i,
             Forall (free bad) opts -> Forall (free bad) (option_text_lines opts i)).
  { induction opts as [|opt rest IH]; intros i Hall; cbn [option_text_lines];
      inversion Hall; subst; constructor; [|now apply IH].
    unfold option_text_line.
    repeat apply free_app; try (now apply own_units_free);
      try (now apply free_option_marker).
    intros Hin. apply trim_incl, replace_incl in Hin. contradiction. }
  intros Hqs. revert idx. induction Hqs as [|q rest (Ht & Hty & Ho) Hrest IH];
    intros idx; cbn [text_lines]; [constructor|].
  apply Forall_app. split; [|apply IH].
  unfold block_lines. constructor.
  - unfold header_line.
    repeat apply free_app; try (now apply own_units_free);
      try (now apply free_of_nat); assumption.
  - apply Forall_app. split; [|constructor; [intros []|constructor]].
    destruct (negb (Question.isOpen q) && (0 <? length (Question.options q)));
      [now apply Hopts|].
    destruct (Question.isOpen q); [|constructor].
    constructor; [|constructor]. now apply own_units_free.
Qed.

Lemma unlines_free (bad : char) (ls : list jsstring) :
  bad <> 10%N -> Forall (free bad) ls -> free bad (unlines ls).
Proof.
  intros Hbad. induction 1 as [|l ls Hl Hls IH]; [intros []|].
  unfold unlines. cbn [List.map concat]. fold (unlines ls).
  repeat apply free_app; [exact Hl| |exact IH].
  intros [H|[]]. now apply Hbad.
Qed.

(** The canonical text of questions without line feeds in their fields
    holds no question line; unless it looks like a printed array, it
    parses to the empty sequence. *)
Lemma canonical_text_parses_to_nothing (qs : list Question.t) :
  Forall (fields_free 10%N) qs ->
  includes sep_single (questionsToText qs) = false ->
  includes sep_double (questionsToText qs) = false ->
  parseSurveyDraft (questionsToText qs) = [].
Proof.
  intros Hclean Hs Hd.
  rewrite parseSurveyDraft_loop. unfold draft_lines, preprocess.
  rewrite Hs, Hd. cbn [orb].
  rewrite questionsToText_unlines, split_unlines
    by (now apply text_lines_free; [apply line_feed_foreign|]).
  rewrite fold_step_without_question;
    [reflexivity|reflexivity|apply text_lines_not_boundary].
Qed.

Lemma not_includes (bad : char) (p s : jsstring) :
  free bad s -> includes (bad :: p) s = false.
Proof.
  intros Hs. destruct (includes (bad :: p) s) eqn:E; [|reflexivity].
  apply includes_head in E. contradiction.
Qed.

Lemma quote_foreign : foreign 39%N /\ foreign 34%N.
Proof.
  split; (split; [reflexivity|]); unfold own_units; cbn; intuition discriminate.
Qed.

(** A draft without quote characters, parsed and serialized, parses to no
    question at all. *)
Lemma quote_free_draft_reparses_to_nothing (draft : jsstring) :
  free 39%N draft -> free 34%N draft ->
  parseSurveyDraft (questionsToText (parseSurveyDraft draft)) = [].
Proof.
  intros Hs Hd.
  assert (Hlines : draft_lines draft = split 10%N draft).
  { unfold draft_lines, preprocess.
    unfold sep_single. change (lit "', '") with (39 :: lit ", '")%N.
    unfold sep_double. now rewrite !not_includes. }
  destruct quote_foreign as [Hf39 Hf34].
  assert (H10 : Forall (fields_free 10%N) (parseSurveyDraft draft)).
  { apply parseSurveyDraft_free; [apply line_feed_foreign|apply split_nf]. }
  assert (H39 : Forall (fields_free 39%N) (parseSurveyDraft draft)).
  { apply parseSurveyDraft_free; [exact Hf39|]. rewrite Hlines. now apply split_free. }
  assert (H34 : Forall (fields_free 34%N) (parseSurveyDraft draft)).
  { apply parseSurveyDraft_free; [exact Hf34|]. rewrite Hlines. now apply split_free. }
  apply canonical_text_parses_to_nothing; [exact H10| |].
  - unfold sep_single. change (lit "', '") with (39 :: lit ", '")%N.
    apply not_includes. rewrite questionsToText_unlines.
    apply unlines_free; [discriminate|]. now apply text_lines_free.
  - unfold sep_double. apply not_includes. rewrite questionsToText_unlines.
    apply unlines_free; [discriminate|]. now apply text_lines_free.
Qed.

(* ===================================================================== *)
(** * Parse, serialize, reparse *)
(* ===================================================================== *)

(** C1. The round trip loses the questions.  A draft without quote
    characters, whatever it parses to, reparses to no question at all
    after serialization: the header line the serializer writes,
    [<position>. <text> (<type>)], carries neither of the two markers a
    question line must start with.  So the one-question draft goes from
    one question (serialized as [1. a (SC)]) to none, the scenario draft
    of the specification from two to none, and a successful save followed
    by the re-derivation of the model from the saved draft empties the
    panel. *)
Theorem C1_roundtrip_loses_questions :
  (forall draft, free 39%N draft -> free 34%N draft -> reparse draft = [])
  /\ parseSurveyDraft one_question_draft
     = [Question.mk (lit "q_0") (lit "1") (lit "a") [] (lit "SC") false]
  /\ questionsToText (parseSurveyDraft one_question_draft)
     = lit "1. a (SC)" ++ newline ++ newline
  /\ reparse one_question_draft = []
  /\ length (parseSurveyDraft scenario_draft) = 2
  /\ reparse scenario_draft = []
  /\ fst (saveChanges online_machine) = Ok tt
  /\ questions (panel online_machine) = parseSurveyDraft scenario_draft
  /\ questions (rederive (panel (snd (saveChanges online_machine)))) = [].
Proof.
  split; [exact quote_free_draft_reparses_to_nothing|].
  repeat split; vm_compute; reflexivity.
Qed.

(** C1 at the one-question draft. *)
Lemma C1_roundtrip_loses_questions_witness :
  free 39%N one_question_draft
  /\ free 34%N one_question_draft
  /\ length (parseSurveyDraft one_question_draft) = 1
  /\ reparse one_question_draft = [].
Proof.
  assert (H39 : free 39%N one_question_draft)
    by (unfold free; cbn; intuition discriminate).
  assert (H34 : free 34%N one_question_draft)
    by (unfold free; cbn; intuition discriminate).
  split; [exact H39|]. split; [exact H34|]. split; [reflexivity|].
  exact (proj1 C1_roundtrip_loses_questions one_question_draft H39 H34).
Defined.

(* ===================================================================== *)
(** * More of the parser: ids, count, layout, fields *)
(* ===================================================================== *)

(** ** Trimming twice *)

Lemma trimStart_idem (s : jsstring) : trimStart (trimStart s) = trimStart s.
Proof.
  induction s as [|a s IH]; cbn [trimStart]; [reflexivity|].
  destruct (is_space a) eqn:Ea; [exact IH|].
  cbn [trimStart]. now rewrite Ea.
Qed.

Lemma trim_shape (s : jsstring) :
  trim s = []
  \/ exists a u, trim s = a :: u /\ is_space a = false
                 /\ trimStart (List.rev (a :: u)) = List.rev (a :: u).
Proof.
  unfold trim, trimEnd.
  destruct (trimStart s) as [|a t] eqn:E; [now left|right].
  pose proof (trimStart_head s a t E) as Ha.
  cbn [List.rev].
  destruct (trimStart_ends (List.rev t) a Ha) as (u' & Hu').
  rewrite Hu', rev_app_distr. cbn [List.rev app].
  exists a, (List.rev u'). split; [reflexivity|]. split; [exact Ha|].
  cbn [List.rev]. rewrite rev_involutive, <- Hu'. apply trimStart_idem.
Qed.

Lemma trim_idem (s : jsstring) : trim (trim s) = trim s.
Proof.
  destruct (trim_shape s) as [->|(a & u & -> & Ha & Hrev)]; [reflexivity|].
  unfold trim, trimEnd. rewrite (trimStart_keeps a u Ha), Hrev.
  apply rev_involutive.
Qed.

(** ** One round of the loop *)

Lemma first_match_nil : first_match QUESTION_KEYWORD_PATTERNS [] = None.
Proof. vm_compute. reflexivity. Qed.

Lemma is_empty_nil (s : jsstring) : is_empty s = true -> s = [].
Proof. destruct s; [reflexivity|discriminate]. Qed.




(** What every round keeps true of the questions held, given that a new
    question satisfies it and that one more option keeps it. *)
Lemma fold_step_invariant (P : Question.t -> Prop) :
  (forall (n : nat) (line : jsstring) (m : match_result),
      first_match QUESTION_KEYWORD_PATTERNS line = Some m ->
      P (Question.mk (lit "q_" ++ of_nat n) (group 1 m)
           (clean_question_text (group 2 m)) [] (type_of_line line)
           (str_eqb (type_of_line line) (lit "OQ")
            || includes (lit "주관식") line))) ->
  (forall (q : Question.t) (t : jsstring),
      P q -> clean_option t <> [] ->
      P (Question.with_options q (Question.options q ++ [clean_option t]))) ->
  forall (lines : list jsstring) (st : Parser.state),
    Forall P (flush st) -> Forall P (flush (fold_left step lines st)).
Proof.
  intros Hnew Hopt.
  induction lines as [|raw lines IH]; intros st H; cbn [fold_left]; [exact H|].
  apply IH. unfold step.
  destruct (is_empty (trim raw)); [exact H|].
  destruct (first_match QUESTION_KEYWORD_PATTERNS (trim raw)) as [m|] eqn:Em.
  - unfold flush at 1. cbn [currentQuestion parsedQuestions].
    apply Forall_app. split; [exact H|]. constructor; [|constructor].
    now apply Hnew.
  - destruct (currentQuestion st) as [q|] eqn:Eq; [|exact H].
    destruct (is_empty (extract_option (trim raw))); [exact H|].
    destruct (0 <? length (clean_option (extract_option (trim raw)))) eqn:El;
      [|exact H].
    unfold flush in *. cbn [currentQuestion parsedQuestions]. rewrite Eq in H.
    apply Forall_app in H. destruct H as [Hp Hq].
    apply Forall_app. split; [exact Hp|]. constructor; [|constructor].
    inversion Hq; subst. apply Hopt; [assumption|].
    apply Nat.ltb_lt in El. intros E. rewrite E in El. cbn in El. lia.
Qed.

Lemma parseSurveyDraft_invariant (P : Question.t -> Prop) :
  (forall (n : nat) (line : jsstring) (m : match_result),
      first_match QUESTION_KEYWORD_PATTERNS line = Some m ->
      P (Question.mk (lit "q_" ++ of_nat n) (group 1 m)
           (clean_question_text (group 2 m)) [] (type_of_line line)
           (str_eqb (type_of_line line) (lit "OQ")
            || includes (lit "주관식") line))) ->
  (forall (q : Question.t) (t : jsstring),
      P q -> clean_option t <> [] ->
      P (Question.with_options q (Question.options q ++ [clean_option t]))) ->
  forall draft : jsstring, Forall P (parseSurveyDraft draft).
Proof.
  intros Hnew Hopt draft. rewrite parseSurveyDraft_loop.
  apply fold_step_invariant; [exact Hnew|exact Hopt|constructor].
Qed.

(** ** Ids and count *)

Lemma fold_step_ids (lines : list jsstring) (st : Parser.state) :
  List.map Question.id (flush st) = List.map id_of (seq 0 (questionId st)) ->
  List.map Question.id (flush (fold_left step lines st))
  = List.map id_of (seq 0 (questionId (fold_left step lines st))).
Proof.
  revert st. induction lines as [|l lines IH]; intros st Hst; cbn [fold_left];
    [exact Hst|].
  apply IH, step_ids, Hst.
Qed.

Lemma parseSurveyDraft_id_list (draft : jsstring) :
  List.map Question.id (parseSurveyDraft draft)
  = List.map id_of (seq 0 (length (parseSurveyDraft draft))).
Proof.
  rewrite parseSurveyDraft_loop.
  pose proof (fold_step_ids (draft_lines draft) initial eq_refl) as H.
  rewrite H. f_equal. f_equal.
  apply (f_equal (@length _)) in H. rewrite !length_map, length_seq in H.
  now symmetry.
Qed.

(** X1. The ids the parser gives are q_0, q_1, ... in the order of the
    questions, whatever the draft: the k-th question has id q_k, and no
    two questions share an id. *)
Theorem parseSurveyDraft_ids_in_order (draft : jsstring) :
  List.map Question.id (parseSurveyDraft draft)
  = List.map (fun k => lit "q_" ++ of_nat k) (seq 0 (length (parseSurveyDraft draft)))
  /\ (forall k q, nth_error (parseSurveyDraft draft) k = Some q ->
                  Question.id q = lit "q_" ++ of_nat k)
  /\ NoDup (List.map Question.id (parseSurveyDraft draft)).
Proof.
  pose proof (parseSurveyDraft_id_list draft) as H. fold id_of.
  change (fun k => lit "q_" ++ of_nat k) with id_of.
  split; [exact H|]. split.
  - intros k q Hk.
    pose proof (map_nth_error Question.id k (parseSurveyDraft draft) Hk) as Hid.
    rewrite H in Hid.
    assert (Hlt : k < length (parseSurveyDraft draft)).
    { apply nth_error_Some. congruence. }
    rewrite nth_error_map, nth_error_seq in Hid.
    apply Nat.ltb_lt in Hlt. rewrite Hlt in Hid. cbn in Hid.
    now injection Hid as <-.
  - rewrite H. apply Finite.Injective_map_NoDup; [exact id_of_inj|apply seq_NoDup].
Qed.

Lemma parseSurveyDraft_ids_in_order_witness :
  let q := Question.mk (lit "q_1") (lit "2") (lit "의견을 말해주세요") [] (lit "OQ") true in
  nth_error (parseSurveyDraft scenario_draft) 1 = Some q
  /\ Question.id q = lit "q_" ++ of_nat 1.
Proof.
  intros q.
  assert (H : nth_error (parseSurveyDraft scenario_draft) 1 = Some q)
    by (vm_compute; reflexivity).
  split; [exact H|].
  exact (proj1 (proj2 (parseSurveyDraft_ids_in_order scenario_draft)) 1 q H).
Defined.

Lemma step_count (st : Parser.state) (raw : jsstring) :
  length (flush (step st raw))
  = length (flush st) + (if is_boundary raw then 1 else 0).
Proof.
  unfold step, is_boundary.
  destruct (is_empty (trim raw)) eqn:E.
  - apply is_empty_nil in E. rewrite E, first_match_nil. lia.
  - destruct (first_match QUESTION_KEYWORD_PATTERNS (trim raw)) as [m|].
    + unfold flush at 1. cbn [currentQuestion parsedQuestions].
      now rewrite length_app.
    + rewrite Nat.add_0_r.
      destruct (currentQuestion st) as [q|] eqn:Eq; [|reflexivity].
      destruct (is_empty (extract_option (trim raw))); [reflexivity|].
      destruct (0 <? length (clean_option (extract_option (trim raw))));
        [|reflexivity].
      unfold flush. cbn [currentQuestion parsedQuestions]. rewrite Eq.
      now rewrite !length_app.
Qed.

Lemma fold_step_count (lines : list jsstring) (st : Parser.state) :
  length (flush (fold_left step lines st))
  = length (flush st) + length (filter is_boundary lines).
Proof.
  revert st. induction lines as [|l lines IH]; intros st; cbn [fold_left filter].
  - cbn. lia.
  - rewrite IH, step_count. destruct (is_boundary l); cbn [length]; lia.
Qed.

(** X2. The parser returns exactly one question for each line of the
    draft that matches a question-boundary pattern: no other line adds a
    question, and no line removes one. *)
Theorem parseSurveyDraft_one_question_per_boundary (draft : jsstring) :
  length (parseSurveyDraft draft) = length (filter is_boundary (draft_lines draft)).
Proof.
  rewrite parseSurveyDraft_loop, fold_step_count. reflexivity.
Qed.



(** ** The shape of texts and options *)

Lemma trim_trimmed (s : jsstring) : trimmed (trim s).
Proof. apply trim_idem. Qed.

Lemma split_head_free (sep : char) (s : jsstring) : free sep (hd [] (split sep s)).
Proof.
  unfold free. induction s as [|a s IH]; cbn [split hd]; [tauto|].
  unfold char_eqb. destruct (N.eqb_spec a sep) as [->|Hne]; cbn [hd]; [tauto|].
  destruct (split sep s) as [|piece rest]; cbn [hd] in *.
  - intros [H|[]]. now apply Hne.
  - intros [H|H]; [now apply Hne|now apply IH].
Qed.

Lemma clean_option_arrow (t : jsstring) : free 0x2192%N (clean_option t).
Proof.
  unfold clean_option. intros H.
  apply trim_incl, replace_incl, replace_all_incl in H.
  exact (split_head_free _ _ H).
Qed.

(** The first and the last code unit of a trimmed string are no white
    space. *)
Lemma trimmed_ends (s : jsstring) :
  trimmed s ->
  (forall a t, s = a :: t -> is_space a = false)
  /\ (forall u a, s = u ++ [a] -> is_space a = false).
Proof.
  unfold trimmed. intros H.
  destruct (trim_shape s) as [E|(a & u & E & Ha & Hrev)]; rewrite H in E.
  - subst s. split; [discriminate|]. intros u a Hs. now destruct u.
  - subst s. split; [now intros ? ? [= <- <-]|].
    intros v b Hs. rewrite Hs, rev_app_distr in Hrev. cbn [List.rev app] in Hrev.
    now apply trimStart_head in Hrev.
Qed.

(** X4. Whatever the draft, the text of a parsed question is trimmed,
    and every parsed option is a non-empty, trimmed string without the
    routing arrow U+2192; no text, type or option holds a line feed. *)
Theorem parseSurveyDraft_fields_clean (draft : jsstring) (q : Question.t) :
  In q (parseSurveyDraft draft) ->
  trim (Question.text q) = Question.text q
  /\ ~ In 10%N (Question.text q)
  /\ ~ In 10%N (Question.type q)
  /\ (forall o, In o (Question.options q) ->
        o <> [] /\ trim o = o /\ ~ In 0x2192%N o /\ ~ In 10%N o
        /\ (forall a t, o = a :: t -> is_space a = false)
        /\ (forall u a, o = u ++ [a] -> is_space a = false)).
Proof.
  intros Hq.
  pose proof (parseSurveyDraft_invariant
                (fun q => trimmed (Question.text q)
                          /\ Forall (fun o => o <> [] /\ trimmed o /\ free 0x2192%N o)
                               (Question.options q))) as Hinv.
  assert (H1 : trimmed (Question.text q)
               /\ Forall (fun o => o <> [] /\ trimmed o /\ free 0x2192%N o)
                    (Question.options q)).
  { refine (proj1 (Forall_forall _ _) (Hinv _ _ draft) q Hq).
    - intros n line m _. cbn [Question.text Question.options].
      split; [apply trim_trimmed|constructor].
    - intros q0 t [Ht Ho] Hne. cbn [Question.with_options Question.text Question.options].
      split; [exact Ht|]. apply Forall_app. split; [exact Ho|].
      constructor; [|constructor].
      split; [exact Hne|]. split; [apply trim_trimmed|apply clean_option_arrow]. }
  assert (H2 : fields_free 10%N q).
  { refine (proj1 (Forall_forall _ _)
              (parseSurveyDraft_free 10%N draft line_feed_foreign _) q Hq).
    apply split_nf. }
  destruct H1 as [Ht Ho]. destruct H2 as (Hft & Hfty & Hfo).
  split; [exact Ht|]. split; [exact Hft|]. split; [exact Hfty|].
  intros o Hin. rewrite Forall_forall in Ho, Hfo.
  destruct (Ho o Hin) as (Hne & Htr & Har).
  split; [exact Hne|]. split; [exact Htr|]. split; [exact Har|].
  split; [exact (Hfo o Hin)|]. exact (trimmed_ends o Htr).
Qed.

Lemma parseSurveyDraft_fields_clean_witness :
  In (Question.mk (lit "q_0") (lit "1") (lit "a") [lit "x"; lit "z"] (lit "MA") false)
     (parseSurveyDraft (lit "['Q1. a (ma(3))', '- x → y', '3) z']"))
  /\ forall o, In o [lit "x"; lit "z"] -> o <> [] /\ ~ In 0x2192%N o.
Proof.
  assert (Hq : In (Question.mk (lit "q_0") (lit "1") (lit "a") [lit "x"; lit "z"]
                     (lit "MA") false)
                  (parseSurveyDraft (lit "['Q1. a (ma(3))', '- x → y', '3) z']")))
    by (vm_compute; left; reflexivity).
  split; [exact Hq|].
  intros o Ho.
  destruct (proj2 (proj2 (proj2 (parseSurveyDraft_fields_clean _ _ Hq))) o Ho)
    as (Hne & _ & Har & _).
  split; [exact Hne|exact Har].
Defined.

(** ** Open questions *)

Lemma str_eqb_refl (s : jsstring) : str_eqb s s = true.
Proof. now apply str_eqb_eq. Qed.

(** X5. A parsed question whose type is OQ is open, and the serializer
    writes an open question as its header line and the placeholder line
    for a free answer: none of its options reaches the canonical text. *)
Theorem parsed_open_question_block (draft : jsstring) (q : Question.t)
        (text : jsstring) (idx : nat) :
  In q (parseSurveyDraft draft) ->
  Question.type q = lit "OQ" ->
  Question.isOpen q = true
  /\ question_block text q idx
     = text ++ of_nat (idx + 1) ++ lit ". " ++ Question.text q ++ lit " (OQ)" ++ newline
         ++ lit "   [주관식 응답]" ++ newline ++ newline.
Proof.
  intros Hq Hty.
  assert (Hopen : Question.isOpen q = true).
  { refine (proj1 (Forall_forall _ _)
              (parseSurveyDraft_invariant
                 (fun q => Question.type q = lit "OQ" -> Question.isOpen q = true)
                 _ _ draft) q Hq Hty).
    - intros n line m _. cbn [Question.type Question.isOpen]. intros ->.
      reflexivity.
    - intros q0 t H _. exact H. }
  split; [exact Hopen|].
  unfold question_block. rewrite Hopen, Hty. cbn [negb andb].
  change (lit " (" ++ lit "OQ" ++ lit ")" ++ newline) with (lit " (OQ)" ++ newline).
  now rewrite <- !app_assoc.
Qed.

Lemma parsed_open_question_block_witness :
  let q := Question.mk (lit "q_1") (lit "2") (lit "의견을 말해주세요") [] (lit "OQ") true in
  In q (parseSurveyDraft scenario_draft)
  /\ Question.type q = lit "OQ"
  /\ question_block [] q 1
     = lit "2. 의견을 말해주세요 (OQ)" ++ newline ++ lit "   [주관식 응답]" ++ newline
         ++ newline.
Proof.
  intros q.
  assert (Hq : In q (parseSurveyDraft scenario_draft))
    by (vm_compute; right; left; reflexivity).
  assert (Hty : Question.type q = lit "OQ") by reflexivity.
  split; [exact Hq|]. split; [exact Hty|].
  exact (proj2 (parsed_open_question_block scenario_draft q [] 1 Hq Hty)).
Defined.

(** ** The number of a question *)

(** What a match consumes is made of code units its classes accept. *)
Lemma matches_consumed (P : char -> Prop) r i s c i' s' c' :
  matches r i s c i' s' c' ->
  classes_within P r ->
  exists u, s = u ++ s' /\ i' = i + length u /\ Forall P u.
Proof.
  induction 1 as [i s c|p a i s c Hp|r1 r2 i s c i1 s1 c1 i2 s2 c2 _ IH1 _ IH2
                 |r1 r2 i s c i' s' c' _ IH|r1 r2 i s c i' s' c' _ IH
                 |g r i s c|g r i s c i1 s1 c1 i2 s2 c2 _ IH1 _ _ IH2
                 |n r i s c i' s' c' _ IH|s c|i c];
    cbn [classes_within]; intros Hr.
  - exists []. split; [reflexivity|]. split; [cbn; lia|constructor].
  - exists [a]. split; [reflexivity|]. split; [cbn; lia|]. constructor; auto.
  - destruct Hr as [Hr1 Hr2].
    destruct (IH1 Hr1) as (u1 & -> & -> & Hu1).
    destruct (IH2 Hr2) as (u2 & -> & -> & Hu2).
    exists (u1 ++ u2). rewrite <- app_assoc, length_app.
    split; [reflexivity|]. split; [lia|]. now apply Forall_app.
  - apply IH, Hr.
  - apply IH, Hr.
  - exists []. split; [reflexivity|]. split; [cbn; lia|constructor].
  - destruct (IH1 Hr) as (u1 & -> & -> & Hu1).
    destruct (IH2 Hr) as (u2 & -> & -> & Hu2).
    exists (u1 ++ u2). rewrite <- app_assoc, length_app.
    split; [reflexivity|]. split; [lia|]. now apply Forall_app.
  - apply IH, Hr.
  - exists []. split; [reflexivity|]. split; [cbn; lia|constructor].
  - exists []. split; [reflexivity|]. split; [cbn; lia|constructor].
Qed.

Lemma firstn_exact {A} (n : nat) (u r : list A) :
  n = length u -> firstn n (u ++ r) = u.
Proof.
  intros ->. rewrite firstn_app, Nat.sub_diag, firstn_all. cbn. apply app_nil_r.
Qed.

(** One or more digits. *)
Lemma plus_digit_consumed i s c i' s' c' :
  matches (Plus Digit) i s c i' s' c' ->
  exists u, s = u ++ s' /\ i' = i + length u /\ digits u.
Proof.
  intros H.
  assert (Hlt : i < i').
  { unfold Plus in H. inversion H; subst.
    match goal with H : matches Digit _ _ _ _ _ _ |- _ => inversion H; subst end.
    match goal with H : matches (Star _ _) _ _ _ _ _ _ |- _ =>
      apply matches_suffix in H; destruct H as (w & _ & ->) end.
    lia. }
  destruct (matches_consumed (fun a => is_digit a = true) _ _ _ _ _ _ _ H)
    as (u & Hs & Hi & Hu).
  { cbn. split; auto. }
  exists u. split; [exact Hs|]. split; [exact Hi|]. split; [|exact Hu].
  intros ->. cbn in Hi. lia.
Qed.

Lemma question_number_shape i s c i' s' c' :
  matches question_number i s c i' s' c' ->
  exists v, c' = (1, v) :: c /\ number_shape v.
Proof.
  unfold question_number. intros H. inv H.
  match goal with H : matches (Cat _ _) _ _ _ _ _ _ |- _ => rename H into Hb end.
  assert (Hc : c'0 = c).
  { apply (matches_no_groups _ _ _ _ _ _ _ Hb). reflexivity. }
  subst c'0. eexists. split; [reflexivity|].
  inv Hb.
  match goal with H : matches (Plus Digit) _ _ _ _ _ _ |- _ =>
    apply plus_digit_consumed in H; destruct H as (u & -> & -> & Hu) end.
  match goal with H : matches (Opt _) _ _ _ _ _ _ |- _ => unfold Opt in H; inv H end.
  - match goal with H : matches (Cat (Chr 45) _) _ _ _ _ _ _ |- _ => inv H end.
    match goal with H : matches (Chr 45) _ _ _ _ _ _ |- _ => inv H end.
    match goal with H : matches (Plus Digit) _ _ _ _ _ _ |- _ =>
      apply plus_digit_consumed in H; destruct H as (w & -> & -> & Hw) end.
    match goal with H : char_eqb _ _ = true |- _ => apply N.eqb_eq in H; subst end.
    right. exists u, w. split; [|split; assumption].
    change (u ++ 45%N :: w ++ s') with (u ++ (45%N :: w) ++ s').
    rewrite app_assoc.
    apply (firstn_exact _ (u ++ 45%N :: w) s'). rewrite length_app. cbn [length]. lia.
  - match goal with H : matches Empty _ _ _ _ _ _ |- _ => inv H end.
    left. rewrite firstn_exact by lia. exact Hu.
Qed.

(** A leading part without groups leaves the captures alone. *)
Lemma cat_skip r1 r2 i s c i' s' c' :
  matches (Cat r1 r2) i s c i' s' c' ->
  no_groups r1 = true ->
  exists i1 s1, matches r2 i1 s1 c i' s' c'.
Proof.
  intros H Hr. inv H.
  match goal with H : matches r1 _ _ _ _ _ _ |- _ =>
    apply matches_no_groups in H; [subst|exact Hr] end.
  eauto.
Qed.

Ltac skip_prefix H :=
  let i1 := fresh "i" in
  let s1 := fresh "s" in
  apply cat_skip in H; [destruct H as (i1 & s1 & H)|reflexivity].

Lemma boundary_number (line : jsstring) (m : match_result) :
  first_match QUESTION_KEYWORD_PATTERNS line = Some m ->
  number_shape (group 1 m).
Proof.
  unfold QUESTION_KEYWORD_PATTERNS. cbn [first_match].
  destruct (exec _ line) as [m1|] eqn:E1.
  - intros [= <-]. apply search_from_located in E1.
    destruct E1 as (u & t & i' & c' & _ & _ & H & Hcaps).
    unfold group. rewrite Hcaps. cbn [capture Nat.eqb].
    cbn [Seq] in H.
    do 5 skip_prefix H.
    inv H.
    match goal with H : matches question_number _ _ _ _ _ _ |- _ =>
      apply question_number_shape in H; destruct H as (v & -> & Hv) end.
    match goal with H : matches (Cat _ _) _ _ _ _ _ _ |- _ => rename H into H2 end.
    do 4 skip_prefix H2.
    inv H2.
    match goal with H : matches (Plus Dot) _ _ _ _ _ _ |- _ =>
      apply matches_no_groups in H; [subst|reflexivity] end.
    cbn [capture Nat.eqb]. exact Hv.
  - match goal with
    | |- context [exec ?p line] => destruct (exec p line) as [m2|] eqn:E2
    end; [|intros [=]].
    intros [= <-]. apply search_from_located in E2.
    destruct E2 as (u & t & i' & c' & _ & _ & H & Hcaps).
    unfold group. rewrite Hcaps. cbn [capture Nat.eqb].
    cbn [Seq] in H.
    do 2 skip_prefix H.
    inv H.
    match goal with H : matches question_number _ _ _ _ _ _ |- _ =>
      apply question_number_shape in H; destruct H as (v & -> & Hv) end.
    match goal with H : matches (Cat _ _) _ _ _ _ _ _ |- _ => rename H into H2 end.
    do 2 skip_prefix H2.
    inv H2.
    match goal with H : matches (Plus Dot) _ _ _ _ _ _ |- _ =>
      apply matches_no_groups in H; [subst|reflexivity] end.
    cbn [capture Nat.eqb]. exact Hv.
Qed.

(** X6. The number of a parsed question is a run of decimal digits,
    possibly followed by a dash and a second run of digits: it is never
    empty and holds nothing else, whatever the question line held. *)
Theorem parseSurveyDraft_number_shape (draft : jsstring) (q : Question.t) :
  In q (parseSurveyDraft draft) ->
  (Question.number q <> []
   /\ Forall (fun a => is_digit a = true) (Question.number q))
  \/ exists a b,
       Question.number q = a ++ 45%N :: b
       /\ (a <> [] /\ Forall (fun x => is_digit x = true) a)
       /\ (b <> [] /\ Forall (fun x => is_digit x = true) b).
Proof.
  intros Hq.
  refine (proj1 (Forall_forall _ _)
            (parseSurveyDraft_invariant (fun q => number_shape (Question.number q))
               _ _ draft) q Hq).
  - intros n line m Hm. cbn [Question.number]. exact (boundary_number line m Hm).
  - intros q0 t H _. exact H.
Qed.

Lemma parseSurveyDraft_number_shape_witness :
  let q := Question.mk (lit "q_0") (lit "2-1") (lit "선택") [] (lit "MA") false in
  In q (parseSurveyDraft (lit "**문항 2-1:** 선택 (MA)"))
  /\ exists a b, Question.number q = a ++ 45%N :: b.
Proof.
  intros q.
  assert (Hq : In q (parseSurveyDraft (lit "**문항 2-1:** 선택 (MA)")))
    by (vm_compute; left; reflexivity).
  split; [exact Hq|].
  destruct (parseSurveyDraft_number_shape _ q Hq) as [[_ H]|(a & b & E & _)].
  - exfalso. cbn [Question.number] in H.
    assert (Hd : is_digit 45%N = true).
    { rewrite Forall_forall in H. apply H. vm_compute. right. left. reflexivity. }
    discriminate Hd.
  - exists a, b. exact E.
Defined.

(* ===================================================================== *)
(** * More of the paginator and the serializer *)
(* ===================================================================== *)

(** ** The groups partition the sequence *)

Lemma slice_length {A} (from to : nat) (l : list A) :
  length (slice from to l) = Nat.min (to - from) (length l - from).
Proof. unfold slice. now rewrite length_firstn, length_skipn. Qed.

Lemma groupQuestions_In (qs : list Question.t) (g : QuestionGroup.t) :
  In g (groupQuestions qs) -> exists k, k < group_count qs /\ g = group_at qs k.
Proof.
  rewrite groupQuestions_spec. intros H. apply in_map_iff in H.
  destruct H as (k & <- & Hk). apply in_seq in Hk. exists k. split; [lia|reflexivity].
Qed.

(** X7. The groups of the paginator partition the sequence: their
    question lists, one after the other, give the sequence back; every
    group holds between one and ten questions, every group but the last
    exactly ten, and endNum - startNum + 1 questions in each.  There is no
    group exactly when there is no question. *)
Theorem groupQuestions_partition (qs : list Question.t) :
  concat (List.map QuestionGroup.questions (groupQuestions qs)) = qs
  /\ (forall g, In g (groupQuestions qs) ->
        1 <= length (QuestionGroup.questions g) <= 10
        /\ QuestionGroup.startNum g + length (QuestionGroup.questions g)
           = QuestionGroup.endNum g + 1)
  /\ (forall k g, nth_error (groupQuestions qs) k = Some g ->
        S k < length (groupQuestions qs) ->
        length (QuestionGroup.questions g) = 10)
  /\ (groupQuestions qs = [] <-> qs = []).
Proof.
  split; [apply groupQuestions_concat|]. split; [|split].
  - intros g Hg. apply groupQuestions_In in Hg. destruct Hg as (k & Hk & ->).
    unfold group_at, group_count in *.
    cbn [QuestionGroup.questions QuestionGroup.startNum QuestionGroup.endNum].
    rewrite slice_length. ceil_facts (length qs). lia.
  - intros k g Hg Hk. rewrite groupQuestions_length in Hk.
    rewrite groupQuestions_nth in Hg by lia. injection Hg as <-.
    unfold group_at, group_count in *. cbn [QuestionGroup.questions].
    rewrite slice_length. ceil_facts (length qs). lia.
  - split.
    + intros H. apply (f_equal (@length _)) in H.
      rewrite groupQuestions_length in H. unfold group_count in H. cbn [length] in H.
      ceil_facts (length qs). apply length_zero_iff_nil. lia.
    + intros ->. reflexivity.
Qed.

Lemma groupQuestions_partition_witness :
  let q := Question.mk (lit "q_0") (lit "1") (lit "a") [] (lit "SC") false in
  let g := QuestionGroup.mk 1 1 [q] true in
  In g (groupQuestions [q])
  /\ 1 <= length (QuestionGroup.questions g) <= 10.
Proof.
  intros q g.
  assert (H : In g (groupQuestions [q])) by (left; reflexivity).
  split; [exact H|].
  exact (proj1 (proj1 (proj2 (groupQuestions_partition [q])) g H)).
Defined.

(** ** What the serializer prints *)

Lemma question_block_printed (text : jsstring) (q q' : Question.t) (idx : nat) :
  same_printed q q' -> question_block text q idx = question_block text q' idx.
Proof.
  intros (Ht & Hty & Hopen & Hopts). unfold question_block.
  rewrite <- Ht, <- Hty, <- Hopen.
  destruct (Question.isOpen q); cbn [negb andb].
  - reflexivity.
  - now rewrite <- (Hopts eq_refl).
Qed.

Lemma forEach_question_block_printed (qs qs' : list Question.t) :
  Forall2 same_printed qs qs' ->
  forall (idx : nat) (text : jsstring),
    forEach question_block qs idx text = forEach question_block qs' idx text.
Proof.
  induction 1 as [|q q' qs qs' Hq _ IH]; intros idx text; cbn [forEach].
  - reflexivity.
  - rewrite (question_block_printed text q q' idx Hq). apply IH.
Qed.

(** X8. The canonical text depends on the position, text, type and open
    flag of each question, and on the options of the questions that are
    not open, and on nothing else: the id and the number of a question
    are never written, and the options of an open question are dropped. *)
Theorem questionsToText_printed_fields (qs qs' : list Question.t) :
  Forall2 (fun q q' =>
             Question.text q = Question.text q'
             /\ Question.type q = Question.type q'
             /\ Question.isOpen q = Question.isOpen q'
             /\ (Question.isOpen q = false ->
                 Question.options q = Question.options q')) qs qs' ->
  questionsToText qs = questionsToText qs'.
Proof.
  intros H. unfold questionsToText.
  now apply forEach_question_block_printed.
Qed.

Lemma questionsToText_printed_fields_witness :
  Forall2 same_printed (fst printed_pair) (snd printed_pair)
  /\ questionsToText (fst printed_pair) = questionsToText (snd printed_pair).
Proof.
  assert (H : Forall2 same_printed (fst printed_pair) (snd printed_pair)).
  { unfold printed_pair, same_printed. cbn [fst snd].
    repeat constructor; cbn; discriminate. }
  split; [exact H|].
  exact (questionsToText_printed_fields _ _ H).
Defined.

(* ===================================================================== *)
(** * More of the edit operations *)
(* ===================================================================== *)

(** ** Lists changed at one index *)

Lemma replaced_nth {A} (x : A) (l : list A) (i : nat) :
  i <= length l ->
  nth_error (replaced i x l) i = Some x
  /\ (forall j, j <> i -> nth_error (replaced i x l) j = nth_error l j)
  /\ length (replaced i x l) = Nat.max (length l) (S i).
Proof.
  unfold replaced. revert i. induction l as [|a l IH]; intros i Hi.
  - cbn [length] in Hi. replace i with 0 by lia. cbn. split; [reflexivity|].
    split; [|reflexivity].
    intros [|j] Hj; [lia|]. cbn. now destruct j.
  - destruct i as [|i].
    + cbn. split; [reflexivity|]. split; [|lia].
      intros [|j] Hj; [lia|reflexivity].
    + cbn [length] in Hi. destruct (IH i ltac:(lia)) as (H1 & H2 & H3).
      cbn [firstn skipn app nth_error length]. split; [exact H1|]. split.
      * intros [|j] Hj; [reflexivity|]. cbn [nth_error]. apply H2. lia.
      * cbn [skipn] in H3. rewrite H3. lia.
Qed.

Lemma without_nth {A} (l : list A) (i : nat) :
  i < length l ->
  length (without i l) + 1 = length l
  /\ (forall j, j < i -> nth_error (without i l) j = nth_error l j)
  /\ (forall j, i <= j -> nth_error (without i l) j = nth_error l (S j)).
Proof.
  unfold without. revert i. induction l as [|a l IH]; intros i Hi; [cbn in Hi; lia|].
  destruct i as [|i].
  - cbn. split; [lia|]. split; [lia|reflexivity].
  - cbn [length] in Hi. destruct (IH i ltac:(lia)) as (H1 & H2 & H3).
    cbn [firstn skipn app length]. split; [cbn [skipn] in H1; lia|]. split.
    + intros [|j] Hj; [reflexivity|]. cbn [nth_error]. apply H2. lia.
    + intros [|j] Hj; [lia|]. cbn [nth_error]. apply H3. lia.
Qed.

Lemma filter_idx_without {A} (l : list A) (idx0 i : nat) :
  filter_idx (fun _ idx => negb (Z.of_nat idx =? Z.of_nat (idx0 + i))%Z) l idx0
  = without i l.
Proof.
  unfold without. revert idx0 i. induction l as [|a l IH]; intros idx0 i.
  - cbn. now rewrite firstn_nil.
  - cbn [filter_idx]. destruct i as [|i].
    + rewrite Nat.add_0_r, Z.eqb_refl. cbn [negb firstn skipn app].
      apply filter_idx_all. intros x j Hj.
      apply negb_true_iff, Z.eqb_neq. lia.
    + destruct (Z.eqb_spec (Z.of_nat idx0) (Z.of_nat (idx0 + S i))) as [E|_]; [lia|].
      cbn [negb firstn skipn app]. f_equal.
      replace (idx0 + S i) with (S idx0 + i) by lia. apply IH.
Qed.

Lemma array_assign_replaced (a : list jsstring) (i : nat) (x : jsstring) :
  i <= length a -> array_assign a (Z.of_nat i) x = Some (replaced i x a).
Proof.
  intros Hi. unfold array_assign, replaced.
  destruct (Z.ltb_spec (Z.of_nat i) 0) as [H|_]; [lia|].
  rewrite Nat2Z.id.
  destruct (Z.ltb_spec (Z.of_nat i) (Z.of_nat (length a))) as [_|H]; [reflexivity|].
  assert (E : i = length a) by lia. subst i.
  rewrite Z.eqb_refl, firstn_all.
  rewrite skipn_all2 by lia. reflexivity.
Qed.

(** ** Edits of one question *)

Lemma map_target (f : Question.t -> Question.t) (qs : list Question.t)
      (k : nat) (q : Question.t) :
  NoDup (List.map Question.id qs) ->
  nth_error qs k = Some q ->
  (forall q', Question.id q' <> Question.id q -> f q' = q') ->
  List.map f qs = firstn k qs ++ f q :: skipn (S k) qs.
Proof.
  intros Hnd Hk Hf. revert k Hnd Hk.
  induction qs as [|x qs IH]; intros k Hnd Hk; [now destruct k|].
  cbn [List.map] in Hnd. inversion Hnd as [|? ? Hx Hnd']; subst.
  destruct k as [|k]; cbn [nth_error] in Hk.
  - injection Hk as ->. cbn [List.map firstn skipn app]. f_equal.
    apply map_id_on. intros q' Hq'. apply Hf. intros E. apply Hx.
    rewrite <- E. now apply in_map.
  - cbn [List.map firstn skipn app]. f_equal; [|now apply IH].
    apply Hf. intros E. apply Hx. rewrite E.
    apply in_map. now apply nth_error_In in Hk.
Qed.

Lemma map_both_compose (f g : Question.t -> Question.t) (b : bool) (s : state) :
  map_both g (set_hasLocalChanges b (map_both f s))
  = set_hasLocalChanges b (map_both (fun q => g (f q)) s).
Proof.
  unfold map_both, set_hasLocalChanges, set_questionGroups, set_questions.
  cbn [questions questionGroups sessionId survey_draft final_survey
       hasLocalChanges isSaving isExporting].
  rewrite !map_map. cbn [QuestionGroup.with_questions QuestionGroup.questions
                         QuestionGroup.startNum QuestionGroup.endNum
                         QuestionGroup.isExpanded].
  f_equal. apply map_ext. intros g0. unfold QuestionGroup.with_questions.
  cbn [QuestionGroup.questions QuestionGroup.startNum QuestionGroup.endNum
       QuestionGroup.isExpanded].
  now rewrite map_map.
Qed.

(** In a state of the store, the questions with the id of [q] are [q]
    itself, in both views. *)
Lemma same_id_same_question (s : state) (q q' : Question.t) :
  store_invariant s ->
  In q (questions s) ->
  In q' (questions s)
  \/ (exists g, In g (questionGroups s) /\ In q' (QuestionGroup.questions g)) ->
  Question.id q' = Question.id q -> q' = q.
Proof.
  intros [Hagree Hnd] Hq Hq' E.
  assert (Hin : In q' (questions s)).
  { destruct Hq' as [H|(g & Hg & H)]; [exact H|].
    exact (views_agree_In s g q' Hagree Hg H). }
  exact (NoDup_map_eq Question.id (questions s) q' q Hnd Hin Hq E).
Qed.

Lemma mapM_some {A B} (f : A -> option B) (l : list A) :
  (forall x, In x l -> exists y, f x = Some y) -> exists l', mapM f l = Some l'.
Proof.
  induction l as [|x l IH]; intros H; cbn [mapM]; [now exists []|].
  destruct (H x (or_introl eq_refl)) as (y & ->).
  destruct IH as (l' & ->); [intros z Hz; apply H; now right|].
  now exists (y :: l').
Qed.

Lemma updateOption_succeeds (qid : jsstring) (idx : Z) (newText : jsstring) (s : state) :
  (forall q, In q (questions s) ->
             exists q', updateOption_fn qid idx newText q = Some q') ->
  (forall g q, In g (questionGroups s) -> In q (QuestionGroup.questions g) ->
               exists q', updateOption_fn qid idx newText q = Some q') ->
  exists s', updateOption qid idx newText s = Some s'.
Proof.
  intros Hq Hg. unfold updateOption.
  destruct (mapM_some _ _ Hq) as (qs & ->).
  destruct (mapM_some
              (fun g => match mapM (updateOption_fn qid idx newText)
                                   (QuestionGroup.questions g) with
                        | Some qs => Some (QuestionGroup.with_questions g qs)
                        | None => None
                        end) (questionGroups s)) as (gs & ->).
  - intros g Hin.
    destruct (mapM_some (updateOption_fn qid idx newText) (QuestionGroup.questions g)
                (fun x Hx => Hg g x Hin Hx)) as (l & ->).
    eauto.
  - eauto.
Qed.

(** X9. Replacing an option by index: in a state of the store, for the
    question at position k and an index i up to the number of its
    options, the edit succeeds; the question at k gets the new text at
    index i (appended when i is the number of options), every other
    option and every other question stays, the views still agree and the
    dirty flag is set. *)
Theorem updateOption_in_range (s : state) (k : nat) (q : Question.t) (i : nat)
        (newText : jsstring) :
  store_invariant s ->
  nth_error (questions s) k = Some q ->
  i <= length (Question.options q) ->
  exists s' newOptions,
    updateOption (Question.id q) (Z.of_nat i) newText s = Some s'
    /\ questions s'
       = firstn k (questions s)
           ++ Question.with_options q newOptions :: skipn (S k) (questions s)
    /\ nth_error newOptions i = Some newText
    /\ (forall j, j <> i -> nth_error newOptions j = nth_error (Question.options q) j)
    /\ length newOptions = Nat.max (length (Question.options q)) (S i)
    /\ views_agree s'
    /\ hasLocalChanges s' = true.
Proof.
  intros Hinv Hk Hi.
  assert (Hq : In q (questions s)) by (now apply nth_error_In in Hk).
  assert (Hfn : forall q', In q' (questions s)
                           \/ (exists g, In g (questionGroups s)
                                         /\ In q' (QuestionGroup.questions g)) ->
                updateOption_fn (Question.id q) (Z.of_nat i) newText q'
                = Some (if str_eqb (Question.id q') (Question.id q)
                        then Question.with_options q'
                               (replaced i newText (Question.options q'))
                        else q')).
  { intros q' Hq'. unfold updateOption_fn.
    destruct (str_eqb (Question.id q') (Question.id q)) eqn:E; [|reflexivity].
    apply str_eqb_eq in E.
    rewrite (same_id_same_question s q q' Hinv Hq Hq' E).
    now rewrite array_assign_replaced. }
  destruct (updateOption_succeeds (Question.id q) (Z.of_nat i) newText s)
    as (s' & Hs').
  { intros q' Hq'. rewrite Hfn by (now left). eauto. }
  { intros g q' Hg' Hq'. rewrite Hfn by (right; eauto). eauto. }
  exists s', (replaced i newText (Question.options q)).
  split; [exact Hs'|].
  pose proof (updateOption_map_both _ _ _ _ _ Hs') as ->.
  destruct (replaced_nth newText (Question.options q) i Hi) as (H1 & H2 & H3).
  split; [|split; [exact H1|split; [exact H2|split; [exact H3|split]]]].
  - cbn [questions set_hasLocalChanges map_both set_questionGroups set_questions].
    rewrite (map_target _ (questions s) k q (proj2 Hinv) Hk).
    + rewrite Hfn by (now left). now rewrite str_eqb_refl.
    + intros q' Hne. unfold updateOption_fn.
      destruct (str_eqb (Question.id q') (Question.id q)) eqn:E; [|reflexivity].
      apply str_eqb_eq in E. contradiction.
  - apply (map_both_agree _ s (proj1 Hinv)).
  - reflexivity.
Qed.

Lemma updateOption_in_range_witness :
  let q := Question.mk (lit "q_0") (lit "1") (lit "만족하십니까?")
             [lit "예"; lit "아니오"] (lit "SC") false in
  store_invariant scenario_state
  /\ nth_error (questions scenario_state) 0 = Some q
  /\ 1 <= length (Question.options q)
  /\ exists s', updateOption (lit "q_0") 1 (lit "모름") scenario_state = Some s'.
Proof.
  intros q.
  assert (Hinv : store_invariant scenario_state)
    by (apply reachable_invariant; unfold scenario_state; constructor).
  assert (Hk : nth_error (questions scenario_state) 0 = Some q)
    by (vm_compute; reflexivity).
  assert (Hi : 1 <= length (Question.options q)) by (cbn; lia).
  split; [exact Hinv|]. split; [exact Hk|]. split; [exact Hi|].
  destruct (updateOption_in_range scenario_state 0 q 1 (lit "모름") Hinv Hk Hi)
    as (s' & _ & Hs' & _).
  exists s'. exact Hs'.
Defined.

Lemma removeOption_fn_without (q : Question.t) (i : nat) :
  removeOption_fn (Question.id q) (Z.of_nat i) q
  = Question.with_options q (without i (Question.options q)).
Proof.
  unfold removeOption_fn. rewrite str_eqb_refl. f_equal.
  exact (filter_idx_without (Question.options q) 0 i).
Qed.

Lemma removeOption_fn_other (qid : jsstring) (i : Z) (q : Question.t) :
  Question.id q <> qid -> removeOption_fn qid i q = q.
Proof.
  intros Hne. unfold removeOption_fn.
  destruct (str_eqb (Question.id q) qid) eqn:E; [|reflexivity].
  apply str_eqb_eq in E. contradiction.
Qed.

(** X10. Removing an option by index: in a state of the store, for the
    question at position k and an index i below the number of its
    options, the question at k loses exactly the option at index i, the
    options before it keep their index and those after it move down by
    one; every other question stays, and the dirty flag is set. *)
Theorem removeOption_in_range (s : state) (k : nat) (q : Question.t) (i : nat) :
  store_invariant s ->
  nth_error (questions s) k = Some q ->
  i < length (Question.options q) ->
  exists newOptions,
    questions (removeOption (Question.id q) (Z.of_nat i) s)
    = firstn k (questions s)
        ++ Question.with_options q newOptions :: skipn (S k) (questions s)
    /\ length newOptions + 1 = length (Question.options q)
    /\ (forall j, j < i -> nth_error newOptions j = nth_error (Question.options q) j)
    /\ (forall j, i <= j ->
          nth_error newOptions j = nth_error (Question.options q) (S j))
    /\ views_agree (removeOption (Question.id q) (Z.of_nat i) s)
    /\ hasLocalChanges (removeOption (Question.id q) (Z.of_nat i) s) = true.
Proof.
  intros Hinv Hk Hi. exists (without i (Question.options q)).
  destruct (without_nth (Question.options q) i Hi) as (H1 & H2 & H3).
  split; [|split; [exact H1|split; [exact H2|split; [exact H3|split]]]].
  - unfold removeOption.
    cbn [questions set_hasLocalChanges map_both set_questionGroups set_questions].
    rewrite (map_target _ (questions s) k q (proj2 Hinv) Hk).
    + now rewrite removeOption_fn_without.
    + intros q' Hne. now apply removeOption_fn_other.
  - apply (map_both_agree _ s (proj1 Hinv)).
  - reflexivity.
Qed.

Lemma removeOption_in_range_witness :
  let q := Question.mk (lit "q_0") (lit "1") (lit "만족하십니까?")
             [lit "예"; lit "아니오"] (lit "SC") false in
  store_invariant scenario_state
  /\ nth_error (questions scenario_state) 0 = Some q
  /\ 0 < length (Question.options q)
  /\ hasLocalChanges (removeOption (lit "q_0") 0 scenario_state) = true.
Proof.
  intros q.
  assert (Hinv : store_invariant scenario_state)
    by (apply reachable_invariant; unfold scenario_state; constructor).
  assert (Hk : nth_error (questions scenario_state) 0 = Some q)
    by (vm_compute; reflexivity).
  assert (Hi : 0 < length (Question.options q)) by (cbn; lia).
  split; [exact Hinv|]. split; [exact Hk|]. split; [exact Hi|].
  destruct (removeOption_in_range scenario_state 0 q 0 Hinv Hk Hi)
    as (newOptions & _ & _ & _ & _ & _ & H).
  exact H.
Defined.

Lemma with_options_same (q : Question.t) (o : list jsstring) :
  Question.with_options (Question.with_options q o) (Question.options q) = q.
Proof. now destruct q. Qed.

Lemma without_last {A} (l : list A) (x : A) : without (length l) (l ++ [x]) = l.
Proof.
  unfold without. rewrite firstn_app, Nat.sub_diag, firstn_all.
  rewrite skipn_all2 by (rewrite length_app; cbn; lia).
  cbn. now rewrite !app_nil_r.
Qed.

Lemma set_hasLocalChanges_twice (b : bool) (s : state) :
  set_hasLocalChanges b (set_hasLocalChanges b s) = set_hasLocalChanges b s.
Proof. reflexivity. Qed.

(** X11. Appending an option: in a state of the store, the question at
    position k gets the placeholder as its last option and every other
    question stays; removing the option just added gives back both views
    as they were, with the dirty flag set. *)
Theorem addOption_then_removeOption (s : state) (k : nat) (q : Question.t) :
  store_invariant s ->
  nth_error (questions s) k = Some q ->
  questions (addOption (Question.id q) s)
  = firstn k (questions s)
      ++ Question.with_options q (Question.options q ++ [placeholder_option])
      :: skipn (S k) (questions s)
  /\ removeOption (Question.id q) (Z.of_nat (length (Question.options q)))
       (addOption (Question.id q) s)
     = set_hasLocalChanges true s.
Proof.
  intros Hinv Hk.
  assert (Hq : In q (questions s)) by (now apply nth_error_In in Hk).
  split.
  - unfold addOption.
    cbn [questions set_hasLocalChanges map_both set_questionGroups set_questions].
    rewrite (map_target _ (questions s) k q (proj2 Hinv) Hk).
    + now rewrite str_eqb_refl.
    + intros q' Hne.
      destruct (str_eqb (Question.id q') (Question.id q)) eqn:E; [|reflexivity].
      apply str_eqb_eq in E. contradiction.
  - unfold removeOption, addOption. rewrite map_both_compose.
    rewrite set_hasLocalChanges_twice. f_equal.
    assert (H : forall q', In q' (questions s)
                           \/ (exists g, In g (questionGroups s)
                                         /\ In q' (QuestionGroup.questions g)) ->
                removeOption_fn (Question.id q)
                  (Z.of_nat (length (Question.options q)))
                  (if str_eqb (Question.id q') (Question.id q)
                   then Question.with_options q'
                          (Question.options q' ++ [placeholder_option])
                   else q') = q').
    { intros q' Hq'.
      destruct (str_eqb (Question.id q') (Question.id q)) eqn:E.
      - apply str_eqb_eq in E.
        rewrite (same_id_same_question s q q' Hinv Hq Hq' E).
        change (Question.id q)
          with (Question.id (Question.with_options q
                               (Question.options q ++ [placeholder_option]))) at 1.
        replace (length (Question.options q))
          with (length (Question.options q) + 0) by lia.
        unfold removeOption_fn. rewrite str_eqb_refl.
        cbn [Question.with_options Question.options Question.id Question.number
             Question.text Question.type Question.isOpen].
        rewrite (filter_idx_without _ 0 (length (Question.options q) + 0)).
        rewrite Nat.add_0_r, without_last. now destruct q.
      - apply removeOption_fn_other. intros E'. apply str_eqb_eq in E'. congruence. }
    apply map_both_id.
    + intros q' Hq'. apply H. now left.
    + intros g q' Hg Hq'. apply H. right. eauto.
Qed.

Lemma addOption_then_removeOption_witness :
  let q := Question.mk (lit "q_0") (lit "1") (lit "만족하십니까?")
             [lit "예"; lit "아니오"] (lit "SC") false in
  store_invariant scenario_state
  /\ nth_error (questions scenario_state) 0 = Some q
  /\ removeOption (lit "q_0") 2 (addOption (lit "q_0") scenario_state)
     = set_hasLocalChanges true scenario_state.
Proof.
  intros q.
  assert (Hinv : store_invariant scenario_state)
    by (apply reachable_invariant; unfold scenario_state; constructor).
  assert (Hk : nth_error (questions scenario_state) 0 = Some q)
    by (vm_compute; reflexivity).
  split; [exact Hinv|]. split; [exact Hk|].
  exact (proj2 (addOption_then_removeOption scenario_state 0 q Hinv Hk)).
Defined.

Lemma map_both_ext (f g : Question.t -> Question.t) (s : state) :
  (forall q, f q = g q) -> map_both f s = map_both g s.
Proof.
  intros H. unfold map_both. f_equal; [|f_equal; now apply map_ext].
  apply map_ext. intros g0. f_equal. now apply map_ext.
Qed.

Lemma with_text_same (q : Question.t) : Question.with_text q (Question.text q) = q.
Proof. now destruct q. Qed.

(** X12. Replacing the text of a question: in a state of the store, the
    question at position k gets the new text and every other question
    stays.  A second replacement overwrites the first, and writing the
    text a question already has changes nothing but the dirty flag. *)
Theorem updateQuestionText_in_place (s : state) (k : nat) (q : Question.t)
        (newText : jsstring) :
  store_invariant s ->
  nth_error (questions s) k = Some q ->
  questions (updateQuestionText (Question.id q) newText s)
  = firstn k (questions s) ++ Question.with_text q newText :: skipn (S k) (questions s)
  /\ views_agree (updateQuestionText (Question.id q) newText s)
  /\ (forall earlier,
        updateQuestionText (Question.id q) newText
          (updateQuestionText (Question.id q) earlier s)
        = updateQuestionText (Question.id q) newText s)
  /\ updateQuestionText (Question.id q) (Question.text q) s = set_hasLocalChanges true s.
Proof.
  intros Hinv Hk.
  assert (Hq : In q (questions s)) by (now apply nth_error_In in Hk).
  split; [|split; [|split]].
  - unfold updateQuestionText.
    cbn [questions set_hasLocalChanges map_both set_questionGroups set_questions].
    rewrite (map_target _ (questions s) k q (proj2 Hinv) Hk).
    + now rewrite str_eqb_refl.
    + intros q' Hne.
      destruct (str_eqb (Question.id q') (Question.id q)) eqn:E; [|reflexivity].
      apply str_eqb_eq in E. contradiction.
  - apply (map_both_agree _ s (proj1 Hinv)).
  - intros earlier. unfold updateQuestionText. rewrite map_both_compose.
    rewrite set_hasLocalChanges_twice. f_equal.
    apply map_both_ext. intros q'.
    destruct (str_eqb (Question.id q') (Question.id q)) eqn:E;
      cbn [Question.with_text Question.id]; rewrite ?E; reflexivity.
  - unfold updateQuestionText. f_equal.
    assert (H : forall q', In q' (questions s)
                           \/ (exists g, In g (questionGroups s)
                                         /\ In q' (QuestionGroup.questions g)) ->
                (if str_eqb (Question.id q') (Question.id q)
                 then Question.with_text q' (Question.text q) else q') = q').
    { intros q' Hq'.
      destruct (str_eqb (Question.id q') (Question.id q)) eqn:E; [|reflexivity].
      apply str_eqb_eq in E.
      rewrite (same_id_same_question s q q' Hinv Hq Hq' E). apply with_text_same. }
    apply map_both_id.
    + intros q' Hq'. apply H. now left.
    + intros g q' Hg Hq'. apply H. right. eauto.
Qed.

Lemma updateQuestionText_in_place_witness :
  let q := Question.mk (lit "q_1") (lit "2") (lit "의견을 말해주세요") [] (lit "OQ") true in
  store_invariant scenario_state
  /\ nth_error (questions scenario_state) 1 = Some q
  /\ updateQuestionText (Question.id q) (Question.text q) scenario_state
     = set_hasLocalChanges true scenario_state.
Proof.
  intros q.
  assert (Hinv : store_invariant scenario_state)
    by (apply reachable_invariant; unfold scenario_state; constructor).
  assert (Hk : nth_error (questions scenario_state) 1 = Some q)
    by (vm_compute; reflexivity).
  split; [exact Hinv|]. split; [exact Hk|].
  exact (proj2 (proj2 (proj2 (updateQuestionText_in_place scenario_state 1 q
                                (lit "x") Hinv Hk)))).
Defined.

(** ** An edit that names no question *)

Lemma str_eqb_neq (s t : jsstring) : s <> t -> str_eqb s t = false.
Proof.
  intros H. destruct (str_eqb s t) eqn:E; [|reflexivity].
  apply str_eqb_eq in E. contradiction.
Qed.

(** X13. An edit whose id names no question of the flat sequence changes
    nothing in either view; it succeeds all the same, and sets the dirty
    flag. *)
Theorem edit_unknown_id (e : edit) (s : state) :
  views_agree s ->
  (forall q, In q (questions s) -> Question.id q <> edit_target e) ->
  apply_edit e s = Some (set_hasLocalChanges true s).
Proof.
  intros Hagree Hnone.
  assert (Hall : forall q', In q' (questions s)
                            \/ (exists g, In g (questionGroups s)
                                          /\ In q' (QuestionGroup.questions g)) ->
                 str_eqb (Question.id q') (edit_target e) = false).
  { intros q' [H|(g & Hg & H)]; apply str_eqb_neq, Hnone; [exact H|].
    exact (views_agree_In s g q' Hagree Hg H). }
  assert (Hid : forall f : Question.t -> Question.t,
             (forall q', str_eqb (Question.id q') (edit_target e) = false -> f q' = q') ->
             set_hasLocalChanges true (map_both f s) = set_hasLocalChanges true s).
  { intros f Hf. f_equal. apply map_both_id.
    - intros q' Hq'. apply Hf, Hall. now left.
    - intros g q' Hg Hq'. apply Hf, Hall. right. eauto. }
  destruct e as [qid newText|qid idx newText|qid|qid idx];
    cbn [apply_edit edit_target] in *.
  - f_equal. unfold updateQuestionText. apply Hid. now intros q' ->.
  - destruct (updateOption_succeeds qid idx newText s) as (s' & Hs').
    { intros q' Hq'. unfold updateOption_fn. rewrite Hall by (now left). eauto. }
    { intros g q' Hg Hq'. unfold updateOption_fn.
      rewrite Hall by (right; eauto). eauto. }
    rewrite Hs'. f_equal.
    rewrite (updateOption_map_both _ _ _ _ _ Hs'). apply Hid.
    intros q' Hq'. unfold updateOption_fn. now rewrite Hq'.
  - f_equal. unfold addOption. apply Hid. now intros q' ->.
  - f_equal. unfold removeOption. apply Hid.
    intros q' Hq'. unfold removeOption_fn. now rewrite Hq'.
Qed.

Lemma Some_inj {A} (a b : A) : Some a = Some b -> a = b.
Proof. now intros [= ->]. Qed.

Lemma edit_unknown_id_witness :
  views_agree scenario_state
  /\ (forall q, In q (questions scenario_state) ->
                Question.id q <> edit_target (AddOption (lit "q_7")))
  /\ addOption (lit "q_7") scenario_state = set_hasLocalChanges true scenario_state.
Proof.
  assert (Hagree : views_agree scenario_state)
    by (apply reachable_invariant; unfold scenario_state; constructor).
  assert (Hnone : forall q, In q (questions scenario_state) ->
                            Question.id q <> edit_target (AddOption (lit "q_7"))).
  { intros q Hq. vm_compute in Hq.
    destruct Hq as [<-|[<-|[]]]; vm_compute; discriminate. }
  split; [exact Hagree|]. split; [exact Hnone|].
  exact (Some_inj _ _
           (edit_unknown_id (AddOption (lit "q_7")) scenario_state Hagree Hnone)).
Defined.

(** ** What no edit changes *)

Lemma apply_edit_skeleton (e : edit) (s s' : state) :
  apply_edit e s = Some s' ->
  exists f, s' = set_hasLocalChanges true (map_both f s)
            /\ forall q, skeleton (f q) = skeleton q.
Proof.
  unfold skeleton.
  destruct e as [qid newText|qid idx newText|qid|qid idx]; cbn [apply_edit].
  - intros [= <-]. eexists. split; [reflexivity|].
    intros q. cbn. now destruct (str_eqb _ _).
  - intros H. apply updateOption_map_both in H. eexists. split; [exact H|].
    intros q. cbn. unfold updateOption_fn.
    destruct (str_eqb _ _); [|reflexivity].
    now destruct (array_assign _ _ _).
  - intros [= <-]. eexists. split; [reflexivity|].
    intros q. cbn. now destruct (str_eqb _ _).
  - intros [= <-]. eexists. split; [reflexivity|].
    intros q. unfold removeOption_fn. now destruct (str_eqb _ _).
Qed.

(** X14. No edit changes the number of questions, or the id, number,
    type or open flag of any question; in the grouped view the ranges,
    the expansion flags and the sizes of the groups stay; the session and
    the stored texts stay; the dirty flag is set. *)
Theorem edit_keeps_skeleton (e : edit) (s s' : state) :
  apply_edit e s = Some s' ->
  List.map (fun q => (Question.id q, Question.number q, Question.type q,
                      Question.isOpen q)) (questions s')
  = List.map (fun q => (Question.id q, Question.number q, Question.type q,
                        Question.isOpen q)) (questions s)
  /\ length (questions s') = length (questions s)
  /\ List.map (fun g => (QuestionGroup.startNum g, QuestionGroup.endNum g,
                         QuestionGroup.isExpanded g,
                         length (QuestionGroup.questions g))) (questionGroups s')
     = List.map (fun g => (QuestionGroup.startNum g, QuestionGroup.endNum g,
                           QuestionGroup.isExpanded g,
                           length (QuestionGroup.questions g))) (questionGroups s)
  /\ sessionId s' = sessionId s
  /\ survey_draft s' = survey_draft s
  /\ final_survey s' = final_survey s
  /\ hasLocalChanges s' = true.
Proof.
  intros H. destruct (apply_edit_skeleton e s s' H) as (f & -> & Hf).
  cbn [questions questionGroups sessionId survey_draft final_survey hasLocalChanges
       set_hasLocalChanges map_both set_questionGroups set_questions].
  split; [|split; [|split; [|repeat split]]].
  - rewrite map_map. apply map_ext. intros q. exact (Hf q).
  - apply length_map.
  - rewrite map_map. apply map_ext. intros g.
    cbn [QuestionGroup.with_questions QuestionGroup.startNum QuestionGroup.endNum
         QuestionGroup.isExpanded QuestionGroup.questions].
    now rewrite length_map.
Qed.

Lemma edit_keeps_skeleton_witness :
  apply_edit (UpdateQuestionText (lit "q_1") (lit "새 문항")) scenario_state
  = Some (updateQuestionText (lit "q_1") (lit "새 문항") scenario_state)
  /\ length (questions (updateQuestionText (lit "q_1") (lit "새 문항") scenario_state))
     = length (questions scenario_state).
Proof.
  assert (H : apply_edit (UpdateQuestionText (lit "q_1") (lit "새 문항")) scenario_state
              = Some (updateQuestionText (lit "q_1") (lit "새 문항") scenario_state))
    by reflexivity.
  split; [exact H|].
  exact (proj1 (proj2 (edit_keeps_skeleton _ _ _ H))).
Defined.

(** ** Folding and unfolding a group *)

Lemma flipped_twice (g : QuestionGroup.t) : flipped (flipped g) = g.
Proof.
  destruct g. unfold flipped, QuestionGroup.with_isExpanded.
  cbn. now rewrite negb_involutive.
Qed.

Lemma toggle_nth (groupIdx : nat) (gs : list QuestionGroup.t) (idx0 j : nat) :
  nth_error (map_idx (fun g idx => if Nat.eqb idx groupIdx then flipped g else g)
               gs idx0) j
  = option_map (fun g => if Nat.eqb (idx0 + j) groupIdx then flipped g else g)
      (nth_error gs j).
Proof.
  revert idx0 j. induction gs as [|g gs IH]; intros idx0 j.
  - now destruct j.
  - destruct j as [|j]; cbn [map_idx nth_error option_map].
    + now rewrite Nat.add_0_r.
    + rewrite IH. now replace (S idx0 + j) with (idx0 + S j) by lia.
Qed.

Lemma toggle_twice (groupIdx : nat) (gs : list QuestionGroup.t) (idx0 : nat) :
  map_idx (fun g idx => if Nat.eqb idx groupIdx then flipped g else g)
    (map_idx (fun g idx => if Nat.eqb idx groupIdx then flipped g else g) gs idx0)
    idx0
  = gs.
Proof.
  revert idx0. induction gs as [|g gs IH]; intros idx0; cbn [map_idx]; [reflexivity|].
  rewrite IH. f_equal. destruct (Nat.eqb idx0 groupIdx); [apply flipped_twice|reflexivity].
Qed.

Lemma toggle_beyond (groupIdx : nat) (gs : list QuestionGroup.t) (idx0 : nat) :
  idx0 + length gs <= groupIdx ->
  map_idx (fun g idx => if Nat.eqb idx groupIdx then flipped g else g) gs idx0 = gs.
Proof.
  revert idx0. induction gs as [|g gs IH]; intros idx0 H; cbn [map_idx]; [reflexivity|].
  cbn [length] in H. rewrite IH by lia.
  destruct (Nat.eqb_spec idx0 groupIdx); [lia|reflexivity].
Qed.

Lemma set_questionGroups_same (s : state) : set_questionGroups (questionGroups s) s = s.
Proof. now destruct s. Qed.

(** X15. Folding or unfolding a group flips the expansion flag of the
    group at the given index and changes nothing else: not the other
    groups, not the range or the questions of any group, not the flat
    sequence, not the dirty flag.  Doing it twice gives the state back,
    and an index that names no group changes nothing. *)
Theorem toggleGroup_flips_one_flag (groupIdx : nat) (s : state) :
  (forall j g, nth_error (questionGroups s) j = Some g ->
     nth_error (questionGroups (toggleGroup groupIdx s)) j
     = Some (if Nat.eqb j groupIdx
             then QuestionGroup.with_isExpanded g (negb (QuestionGroup.isExpanded g))
             else g))
  /\ length (questionGroups (toggleGroup groupIdx s)) = length (questionGroups s)
  /\ questions (toggleGroup groupIdx s) = questions s
  /\ hasLocalChanges (toggleGroup groupIdx s) = hasLocalChanges s
  /\ toggleGroup groupIdx (toggleGroup groupIdx s) = s
  /\ (length (questionGroups s) <= groupIdx -> toggleGroup groupIdx s = s).
Proof.
  unfold toggleGroup. fold flipped.
  change (fun (g : QuestionGroup.t) (idx : nat) =>
            if Nat.eqb idx groupIdx
            then QuestionGroup.with_isExpanded g (negb (QuestionGroup.isExpanded g))
            else g)
    with (fun (g : QuestionGroup.t) (idx : nat) =>
            if Nat.eqb idx groupIdx then flipped g else g).
  cbn [questionGroups questions hasLocalChanges set_questionGroups].
  split; [|split; [|split; [reflexivity|split; [reflexivity|split]]]].
  - intros j g Hj. rewrite toggle_nth, Hj. reflexivity.
  - assert (H : forall (gs : list QuestionGroup.t) idx0,
               length (map_idx (fun g idx => if Nat.eqb idx groupIdx
                                             then flipped g else g) gs idx0)
               = length gs).
    { induction gs as [|g gs IH]; intros idx0; cbn [map_idx length];
        [reflexivity|now rewrite IH]. }
    apply H.
  - rewrite toggle_twice.
    unfold set_questionGroups at 1. cbn [sessionId survey_draft final_survey
      questions hasLocalChanges isSaving isExporting set_questionGroups].
    now destruct s.
  - intros H. rewrite toggle_beyond by (cbn; lia). apply set_questionGroups_same.
Qed.

Lemma toggleGroup_flips_one_flag_witness :
  let q0 := Question.mk (lit "q_0") (lit "1") (lit "만족하십니까?")
              [lit "예"; lit "아니오"] (lit "SC") false in
  let q1 := Question.mk (lit "q_1") (lit "2") (lit "의견을 말해주세요") [] (lit "OQ") true in
  nth_error (questionGroups scenario_state) 0
  = Some (QuestionGroup.mk 1 2 [q0; q1] true)
  /\ nth_error (questionGroups (toggleGroup 0 scenario_state)) 0
     = Some (QuestionGroup.mk 1 2 [q0; q1] false).
Proof.
  intros q0 q1.
  assert (H : nth_error (questionGroups scenario_state) 0
              = Some (QuestionGroup.mk 1 2 [q0; q1] true))
    by (vm_compute; reflexivity).
  split; [exact H|].
  exact (proj1 (toggleGroup_flips_one_flag 0 scenario_state) 0 _ H).
Defined.

(** ** What holds in every reachable state *)

Lemma groupQuestions_content_map (f : Question.t -> Question.t) (qs : list Question.t) :
  List.map content (groupQuestions (List.map f qs))
  = List.map (fun g => content (QuestionGroup.with_questions g
                                  (List.map f (QuestionGroup.questions g))))
      (groupQuestions qs).
Proof.
  rewrite !groupQuestions_spec, !map_map. unfold group_count.
  rewrite length_map. apply map_ext. intros k.
  unfold content, group_at.
  cbn [QuestionGroup.startNum QuestionGroup.endNum QuestionGroup.questions
       QuestionGroup.with_questions].
  now rewrite length_map, slice_map.
Qed.

Lemma map_content_with_questions (f : Question.t -> Question.t)
      (gs gs' : list QuestionGroup.t) :
  List.map content gs = List.map content gs' ->
  List.map (fun g => content (QuestionGroup.with_questions g
                                (List.map f (QuestionGroup.questions g)))) gs
  = List.map (fun g => content (QuestionGroup.with_questions g
                                  (List.map f (QuestionGroup.questions g)))) gs'.
Proof.
  revert gs'. induction gs as [|g gs IH]; intros [|g' gs'] H; cbn [List.map] in *;
    try discriminate; [reflexivity|].
  unfold content in H at 1 3. injection H as E1 E2 E3 Hgs.
  f_equal; [|now apply IH].
  unfold content.
  cbn [QuestionGroup.with_questions QuestionGroup.startNum QuestionGroup.endNum
       QuestionGroup.questions].
  now rewrite E1, E2, E3.
Qed.

Lemma toggle_content (groupIdx : nat) (gs : list QuestionGroup.t) (idx0 : nat) :
  List.map content
    (map_idx (fun g idx =>
                if Nat.eqb idx groupIdx
                then QuestionGroup.with_isExpanded g (negb (QuestionGroup.isExpanded g))
                else g) gs idx0)
  = List.map content gs.
Proof.
  revert idx0. induction gs as [|g gs IH]; intros idx0; cbn [map_idx List.map];
    [reflexivity|].
  rewrite IH. f_equal. now destruct (Nat.eqb idx0 groupIdx).
Qed.

(** X16. In every state the panel reaches, the grouped view is the
    pagination of the flat sequence up to the expansion flags: group by
    group the same range and the same questions; and no two questions
    share an id. *)
Theorem reachable_groups_are_pagination (s : state) :
  reachable s ->
  List.map (fun g => (QuestionGroup.startNum g, QuestionGroup.endNum g,
                      QuestionGroup.questions g)) (questionGroups s)
  = List.map (fun g => (QuestionGroup.startNum g, QuestionGroup.endNum g,
                        QuestionGroup.questions g)) (groupQuestions (questions s))
  /\ concat (List.map QuestionGroup.questions (questionGroups s)) = questions s
  /\ NoDup (List.map Question.id (questions s)).
Proof.
  intros Hs. fold content.
  change (fun g => (QuestionGroup.startNum g, QuestionGroup.endNum g,
                    QuestionGroup.questions g)) with content.
  destruct (reachable_invariant s Hs) as [Hagree Hnd].
  split; [|split; [now apply views_agree_concat|exact Hnd]].
  clear Hagree Hnd.
  induction Hs as [s|e s s' Hs IH Hedit|groupIdx s Hs IH|m Hm IH|fmt m Hm IH].
  - reflexivity.
  - destruct (apply_edit_map_both e s s' Hedit) as (f & -> & _).
    cbn [questions questionGroups set_hasLocalChanges map_both set_questionGroups
         set_questions].
    rewrite groupQuestions_content_map, map_map.
    now apply map_content_with_questions.
  - unfold toggleGroup. cbn [questions questionGroups set_questionGroups].
    now rewrite toggle_content.
  - destruct (saveChanges_questions m) as [-> ->]. exact IH.
  - destruct (handleExport_questions fmt m) as [-> ->]. exact IH.
Qed.

Lemma reachable_groups_are_pagination_witness :
  reachable (addOption (lit "q_0") scenario_state)
  /\ NoDup (List.map Question.id (questions (addOption (lit "q_0") scenario_state))).
Proof.
  assert (H : reachable (addOption (lit "q_0") scenario_state)).
  { apply (R_edit (AddOption (lit "q_0")) scenario_state); [|reflexivity].
    unfold scenario_state. constructor. }
  split; [exact H|].
  exact (proj2 (proj2 (reachable_groups_are_pagination _ H))).
Defined.

Lemma parseSurveyDraft_well_typed (draft : jsstring) :
  Forall well_typed (parseSurveyDraft draft).
Proof.
  apply parseSurveyDraft_invariant.
  - intros n line m _. unfold well_typed. cbn [Question.type Question.isOpen].
    split; [apply type_of_line_closed|]. now intros ->.
  - intros q t H _. exact H.
Qed.

Lemma skeleton_list_facts (qs qs' : list Question.t) :
  List.map skeleton qs' = List.map skeleton qs ->
  List.map Question.id qs' = List.map Question.id qs
  /\ (Forall well_typed qs -> Forall well_typed qs').
Proof.
  revert qs. induction qs' as [|q' qs' IH]; intros [|q qs] H; cbn [List.map] in *;
    try discriminate.
  - split; [reflexivity|constructor].
  - unfold skeleton in H at 1 3. injection H as E1 E2 E3 E4 Hqs.
    destruct (IH qs Hqs) as [Hid Hwt].
    split; [now rewrite E1, Hid|].
    intros Hall. inversion Hall as [|? ? [Hty Hopen] Hrest]; subst.
    constructor; [|now apply Hwt].
    unfold well_typed. now rewrite E3, E4.
Qed.

(** X17. In every state the panel reaches, the k-th question has the id
    q_k, its type is one of the seven codes, and a question of type OQ is
    open: what the parser set up, no edit, save or export undoes. *)
Theorem reachable_questions_well_formed (s : state) :
  reachable s ->
  List.map Question.id (questions s)
  = List.map (fun k => lit "q_" ++ of_nat k) (seq 0 (length (questions s)))
  /\ (forall q, In q (questions s) ->
        In (Question.type q) type_codes
        /\ (Question.type q = lit "OQ" -> Question.isOpen q = true)).
Proof.
  intros Hs. change (fun k => lit "q_" ++ of_nat k) with id_of.
  assert (H : List.map Question.id (questions s)
              = List.map id_of (seq 0 (length (questions s)))
              /\ Forall well_typed (questions s)).
  { induction Hs as [s|e s s' Hs [IH1 IH2] Hedit|groupIdx s Hs IH|m Hm IH|fmt m Hm IH].
    - cbn [rederive questions set_hasLocalChanges set_questionGroups set_questions].
      split; [apply parseSurveyDraft_id_list|apply parseSurveyDraft_well_typed].
    - destruct (apply_edit_skeleton e s s' Hedit) as (f & -> & Hf).
      cbn [questions set_hasLocalChanges map_both set_questionGroups set_questions].
      assert (Hsk : List.map skeleton (List.map f (questions s))
                    = List.map skeleton (questions s)).
      { rewrite map_map. apply map_ext. exact Hf. }
      destruct (skeleton_list_facts _ _ Hsk) as [Hid Hwt].
      split; [now rewrite Hid, length_map|now apply Hwt].
    - exact IH.
    - now destruct (saveChanges_questions m) as [-> _].
    - now destruct (handleExport_questions fmt m) as [-> _]. }
  destruct H as [H1 H2]. split; [exact H1|].
  intros q Hq. rewrite Forall_forall in H2. exact (H2 q Hq).
Qed.

Lemma reachable_questions_well_formed_witness :
  reachable (updateQuestionText (lit "q_1") (lit "새 문항") scenario_state)
  /\ List.map Question.id
       (questions (updateQuestionText (lit "q_1") (lit "새 문항") scenario_state))
     = [lit "q_0"; lit "q_1"].
Proof.
  assert (H : reachable (updateQuestionText (lit "q_1") (lit "새 문항") scenario_state)).
  { apply (R_edit (UpdateQuestionText (lit "q_1") (lit "새 문항")) scenario_state);
      [|reflexivity].
    unfold scenario_state. constructor. }
  split; [exact H|].
  refine (eq_trans (proj1 (reachable_questions_well_formed _ H)) _).
  vm_compute. reflexivity.
Defined.

(* ===================================================================== *)
(** * More of save and export *)
(* ===================================================================== *)

(** ** Save *)

(** X18. A save without a known session, or from a clean state, does
    nothing at all: no request, no message, no change of state. *)
Theorem saveChanges_guard (m : machine) :
  known_session (sessionId (panel m)) = None \/ hasLocalChanges (panel m) = false ->
  saveChanges m = (Ok tt, m).
Proof.
  intros H. unfold saveChanges, bind, read.
  destruct (known_session (sessionId (panel m))) as [sid|]; [|reflexivity].
  destruct H as [H|H]; [discriminate|]. now rewrite H.
Qed.

Lemma saveChanges_guard_witness :
  (known_session (sessionId (panel clean_machine)) = None
   \/ hasLocalChanges (panel clean_machine) = false)
  /\ saveChanges clean_machine = (Ok tt, clean_machine).
Proof.
  assert (H : known_session (sessionId (panel clean_machine)) = None
              \/ hasLocalChanges (panel clean_machine) = false)
    by (right; reflexivity).
  split; [exact H|]. exact (saveChanges_guard clean_machine H).
Defined.



(** X20. A save whose first call resolves and whose second call rejects
    has sent both requests, logs the error and alerts; the store keeps
    the texts it had, although the first field has been sent, and the
    dirty flag stays set; no error escapes and the saving flag is
    cleared. *)
Theorem saveChanges_second_call_fails (m : machine) (sid : jsstring) :
  known_session (sessionId (panel m)) = Some sid ->
  hasLocalChanges (panel m) = true ->
  outcome m (issued m) = true ->
  outcome m (S (issued m)) = false ->
  let text := questionsToText (questions (panel m)) in
  let m' := snd (saveChanges m) in
  fst (saveChanges m) = Ok tt
  /\ trace m' = trace m ++ [Requested (UpdateField sid (lit "survey_draft") text) true;
                            Requested (UpdateField sid (lit "final_survey") text) true;
                            ConsoleError (lit "Save error:");
                            Alert (lit "저장 중 오류가 발생했습니다.")]
  /\ survey_draft (panel m') = survey_draft (panel m)
  /\ final_survey (panel m') = final_survey (panel m)
  /\ hasLocalChanges (panel m') = true
  /\ isSaving (panel m') = false.
Proof.
  intros Hsid Hdirty H1 H2 text m'. subst text m'.
  rewrite (saveChanges_run m sid Hsid Hdirty). cbv zeta. rewrite H1, H2.
  unfold save_text.
  cbn [fst snd panel issued trace survey_draft final_survey hasLocalChanges isSaving
       set_isSaving].
  rewrite <- !app_assoc. cbn [app].
  repeat split; try reflexivity. exact Hdirty.
Qed.

Lemma saveChanges_second_call_fails_witness :
  known_session (sessionId (panel flaky_machine)) = Some (lit "session-1")
  /\ hasLocalChanges (panel flaky_machine) = true
  /\ outcome flaky_machine (issued flaky_machine) = true
  /\ outcome flaky_machine (S (issued flaky_machine)) = false
  /\ hasLocalChanges (panel (snd (saveChanges flaky_machine))) = true.
Proof.
  assert (Hsid : known_session (sessionId (panel flaky_machine))
                 = Some (lit "session-1")) by reflexivity.
  assert (Hdirty : hasLocalChanges (panel flaky_machine) = true) by reflexivity.
  assert (H1 : outcome flaky_machine (issued flaky_machine) = true) by reflexivity.
  assert (H2 : outcome flaky_machine (S (issued flaky_machine)) = false)
    by reflexivity.
  repeat (split; [assumption|]).
  destruct (saveChanges_second_call_fails flaky_machine (lit "session-1")
              Hsid Hdirty H1 H2) as (_ & _ & _ & _ & H & _).
  exact H.
Defined.



(** ** Export *)

(** X22. An export without a known session alerts that there is no
    session and does nothing else: no save, no request, no change of
    state, although the state may be dirty. *)
Theorem handleExport_without_session (fmt : format) (m : machine) :
  known_session (sessionId (panel m)) = None ->
  handleExport fmt m
  = (Ok tt, {| panel := panel m; outcome := outcome m; issued := issued m;
               trace := trace m ++ [Alert (lit "세션 정보가 없습니다.")] |}).
Proof.
  intros H. unfold handleExport, bind, read. now rewrite H.
Qed.

Lemma handleExport_without_session_witness :
  known_session (sessionId (panel detached_machine)) = None
  /\ hasLocalChanges (panel detached_machine) = true
  /\ trace (snd (handleExport docx detached_machine))
     = [Alert (lit "세션 정보가 없습니다.")].
Proof.
  assert (H : known_session (sessionId (panel detached_machine)) = None)
    by reflexivity.
  split; [exact H|]. split; [reflexivity|].
  exact (f_equal (fun x => trace (snd x))
           (handleExport_without_session docx detached_machine H)).
Defined.

(** X23. An export from a clean state with a known session issues the
    file-generation request and nothing before it: no save runs.  When
    the request resolves nothing else happens; when it rejects, the error
    is logged twice, once by the collaborator and once by the panel, and
    an alert is shown.  Either way no error escapes, and the state is as
    before with the export flag cleared. *)
Theorem handleExport_clean (fmt : format) (m : machine) (sid : jsstring) :
  known_session (sessionId (panel m)) = Some sid ->
  hasLocalChanges (panel m) = false ->
  let m' := snd (handleExport fmt m) in
  fst (handleExport fmt m) = Ok tt
  /\ trace m'
     = trace m ++ Requested (ExportSurvey sid fmt) false
         :: (if outcome m (issued m) then []
             else [ConsoleError (lit "Export error:");
                   ConsoleError (lit "Export error:");
                   Alert (lit "파일 다운로드 중 오류가 발생했습니다.")])
  /\ issued m' = S (issued m)
  /\ panel m' = set_isExporting false (set_isExporting true (panel m))
  /\ isExporting (panel m') = false.
Proof.
  intros Hsid Hclean m'. subst m'.
  unfold handleExport, bind, read. rewrite Hsid, Hclean.
  unfold ret, try_catch_finally, exportSurvey, await, update, emit, bind.
  cbn [panel outcome issued trace fst snd hasLocalChanges set_isExporting].
  rewrite Hclean.
  destruct (outcome m (issued m));
    cbn [panel outcome issued trace fst snd hasLocalChanges set_isExporting
         isExporting];
    rewrite <- ?app_assoc; cbn [app]; repeat split; reflexivity.
Qed.

Lemma handleExport_clean_witness :
  known_session (sessionId (panel clean_machine)) = Some (lit "session-1")
  /\ hasLocalChanges (panel clean_machine) = false
  /\ trace (snd (handleExport hwpx clean_machine))
     = [Requested (ExportSurvey (lit "session-1") hwpx) false].
Proof.
  assert (Hsid : known_session (sessionId (panel clean_machine))
                 = Some (lit "session-1")) by reflexivity.
  assert (Hclean : hasLocalChanges (panel clean_machine) = false) by reflexivity.
  split; [exact Hsid|]. split; [exact Hclean|].
  exact (proj1 (proj2 (handleExport_clean hwpx clean_machine (lit "session-1")
                         Hsid Hclean))).
Defined.



(* ===================================================================== *)
(** * Properties of the markdown renderer and the overview value *)
(* ===================================================================== *)

(** ** Splitting at a pattern *)

Lemma match_here_group1 (r : regex) (q : nat) (s : jsstring) (z : match_result) :
  match_here (Group 1 r) q s = Some z -> s = group 1 z ++ m_rest z.
Proof.
  intros H. apply match_here_sound in H.
  destruct H as (i' & c' & Hm & _ & Hcaps).
  unfold group. rewrite Hcaps. cbn [capture Nat.eqb].
  pose proof (matches_suffix _ _ _ _ _ _ _ Hm) as (u & Hs & Hi).
  inv Hm. cbn [capture Nat.eqb].
  rewrite firstn_exact by lia. reflexivity.
Qed.

Lemma split_loop_concat (r : regex) (fuel q : nat) (pending s : jsstring) :
  concat (split_loop (Group 1 r) fuel q pending s) = pending ++ s.
Proof.
  revert q pending s. induction fuel as [|fuel IH]; intros q pending s;
    cbn [split_loop].
  - cbn. now rewrite app_nil_r.
  - destruct s as [|a s']; [cbn; now rewrite !app_nil_r|].
    destruct (match_here (Group 1 r) q (a :: s')) as [z|] eqn:E.
    + destruct (is_empty pending && Nat.eqb (length (m_rest z)) (length (a :: s'))).
      * rewrite IH, <- app_assoc. reflexivity.
      * cbn [concat]. rewrite IH. cbn [app].
        now rewrite <- (match_here_group1 r q (a :: s') z E).
    + rewrite IH, <- app_assoc. reflexivity.
Qed.

(** The fuel of the split is enough: one round more changes nothing. *)
Lemma split_loop_fuel (r : regex) :
  forall (fuel q : nat) (pending s : jsstring),
    2 * length s + (if is_empty pending then 0 else 1) <= fuel ->
    split_loop r (S fuel) q pending s = split_loop r fuel q pending s.
Proof.
  induction fuel as [|fuel IH]; intros q pending s Hfuel.
  - destruct s as [|a s']; [|cbn [length] in Hfuel; lia].
    cbn. now rewrite app_nil_r.
  - destruct s as [|a s']; [reflexivity|].
    cbn [length] in Hfuel.
    assert (Hgrow : is_empty (pending ++ [a]) = false) by (now destruct pending).
    change (split_loop r (S (S fuel)) q pending (a :: s'))
      with (match match_here r q (a :: s') with
            | Some z =>
                if is_empty pending && Nat.eqb (length (m_rest z)) (length (a :: s'))
                then split_loop r (S fuel) (S q) (pending ++ [a]) s'
                else pending :: group 1 z
                       :: split_loop r (S fuel)
                            (q + (length (a :: s') - length (m_rest z)))
                            [] (m_rest z)
            | None => split_loop r (S fuel) (S q) (pending ++ [a]) s'
            end).
    change (split_loop r (S fuel) q pending (a :: s'))
      with (match match_here r q (a :: s') with
            | Some z =>
                if is_empty pending && Nat.eqb (length (m_rest z)) (length (a :: s'))
                then split_loop r fuel (S q) (pending ++ [a]) s'
                else pending :: group 1 z
                       :: split_loop r fuel
                            (q + (length (a :: s') - length (m_rest z)))
                            [] (m_rest z)
            | None => split_loop r fuel (S q) (pending ++ [a]) s'
            end).
    assert (Hadv : split_loop r (S fuel) (S q) (pending ++ [a]) s'
                   = split_loop r fuel (S q) (pending ++ [a]) s').
    { apply IH. rewrite Hgrow. destruct (is_empty pending); lia. }
    destruct (match_here r q (a :: s')) as [z|] eqn:E; [|exact Hadv].
    destruct (is_empty pending && Nat.eqb (length (m_rest z)) (length (a :: s')))
      eqn:Ec; [exact Hadv|].
    do 2 f_equal. apply IH. cbn [is_empty].
    destruct (match_here_rest r q (a :: s') z E) as (u & Hu).
    apply (f_equal (@length _)) in Hu. rewrite length_app in Hu.
    cbn [length] in Hu.
    apply andb_false_iff in Ec. destruct Ec as [Ec|Ec].
    + rewrite Ec in Hfuel. lia.
    + apply Nat.eqb_neq in Ec. cbn [length] in Ec. destruct (is_empty pending); lia.
Qed.

Lemma split_regex_fuel_enough (r : regex) (extra : nat) (a : char) (s : jsstring) :
  split_loop r (2 * length (a :: s) + 1 + extra) 0 [] (a :: s)
  = split_regex r (a :: s).
Proof.
  unfold split_regex. induction extra as [|extra IH].
  - now rewrite Nat.add_0_r.
  - rewrite <- IH. replace (2 * length (a :: s) + 1 + S extra)
      with (S (2 * length (a :: s) + 1 + extra)) by lia.
    apply split_loop_fuel. cbn [is_empty]. lia.
Qed.

Lemma split_regex_concat (r : regex) (s : jsstring) :
  concat (split_regex (Group 1 r) s) = s.
Proof.
  unfold split_regex. destruct s as [|a s'].
  - destruct (match_here (Group 1 r) 0 []) as [z|] eqn:E; [|reflexivity].
    reflexivity.
  - now rewrite split_loop_concat.
Qed.

Lemma split_loop_odd (r : regex) (fuel q : nat) (pending s : jsstring) :
  Nat.odd (length (split_loop r fuel q pending s)) = true.
Proof.
  revert q pending s. induction fuel as [|fuel IH]; intros q pending s;
    cbn [split_loop]; [reflexivity|].
  destruct s as [|a s']; [reflexivity|].
  destruct (match_here r q (a :: s')) as [z|]; [|apply IH].
  destruct (is_empty pending && Nat.eqb (length (m_rest z)) (length (a :: s')));
    [apply IH|].
  cbn [length]. rewrite Nat.odd_succ_succ. apply IH.
Qed.

(** X25. The renderer cuts the text into parts without losing or adding
    a code unit: the parts it renders, one node each, give the text back
    when put together, and there is an odd number of them (plain parts
    and matches alternate).  The empty text renders as nothing. *)
Theorem renderMarkdown_parts (text : jsstring) :
  (text = [] -> renderMarkdown text = None)
  /\ (text <> [] ->
      exists parts,
        renderMarkdown text = Some (List.map render_part parts)
        /\ concat parts = text
        /\ Nat.odd (length parts) = true).
Proof.
  split.
  - now intros ->.
  - intros Hne. exists (split_regex MARKDOWN text).
    split; [|split].
    + unfold renderMarkdown. now destruct text.
    + apply split_regex_concat.
    + destruct text as [|a s]; [contradiction|]. apply split_loop_odd.
Qed.

Lemma renderMarkdown_parts_witness :
  lit "a **b** c" <> []
  /\ exists parts,
       renderMarkdown (lit "a **b** c") = Some (List.map render_part parts)
       /\ concat parts = lit "a **b** c".
Proof.
  assert (H : lit "a **b** c" <> []) by (vm_compute; discriminate).
  split; [exact H|].
  destruct (proj2 (renderMarkdown_parts (lit "a **b** c")) H) as (parts & H1 & H2 & _).
  exists parts. split; [exact H1|exact H2].
Defined.

(** ** Text without markers *)

Lemma markdown_starts (q : nat) (s : jsstring) (z : match_result) :
  match_here MARKDOWN q s = Some z ->
  exists a t, s = a :: t /\ (a = 42%N \/ a = 35%N).
Proof.
  intros H. apply match_here_sound in H. destruct H as (i' & c' & Hm & _).
  unfold MARKDOWN in Hm. cbn [Any Seq] in Hm.
  change (lit "**") with [42%N; 42%N] in Hm.
  change (lit "##") with [35%N; 35%N] in Hm.
  inv Hm.
  match goal with H : matches (Alt _ _) _ _ _ _ _ _ |- _ => inv H end;
    [|match goal with H : matches (Alt _ _) _ _ _ _ _ _ |- _ => inv H end].
  - match goal with H : matches (Cat (Lit _) _) _ _ _ _ _ _ |- _ =>
      apply cat_lit_head in H; destruct H as (t & ->) end.
    eauto.
  - match goal with H : matches (Cat (Chr _) _) _ _ _ _ _ _ |- _ =>
      apply cat_class_head in H; destruct H as (a & t & -> & Ha) end.
    apply N.eqb_eq in Ha. subst. eauto.
  - match goal with H : matches (Cat (Lit _) _) _ _ _ _ _ _ |- _ =>
      apply cat_lit_head in H; destruct H as (t & ->) end.
    eauto.
Qed.

Lemma split_loop_plain (fuel q : nat) (pending s : jsstring) :
  free 42%N s -> free 35%N s ->
  split_loop MARKDOWN fuel q pending s = [pending ++ s].
Proof.
  revert q pending s. induction fuel as [|fuel IH]; intros q pending s H42 H35;
    cbn [split_loop]; [reflexivity|].
  destruct s as [|a s']; [now rewrite app_nil_r|].
  destruct (match_here MARKDOWN q (a :: s')) as [z|] eqn:E.
  - apply markdown_starts in E. destruct E as (b & t & [= <- <-] & [->| ->]).
    + exfalso. apply H42. now left.
    + exfalso. apply H35. now left.
  - rewrite IH.
    + now rewrite <- app_assoc.
    + intros Hin. apply H42. now right.
    + intros Hin. apply H35. now right.
Qed.

(** X26. A text without an asterisk and without a number sign is shown
    as it is: it renders as the one plain part that is the text. *)
Theorem renderMarkdown_plain (text : jsstring) :
  text <> [] -> ~ In 42%N text -> ~ In 35%N text ->
  renderMarkdown text = Some [Text text].
Proof.
  intros Hne H42 H35. destruct text as [|a s]; [contradiction|].
  unfold renderMarkdown, split_regex. cbn [is_empty].
  rewrite (split_loop_plain _ 0 [] (a :: s) H42 H35). cbn [app List.map].
  do 2 f_equal. unfold render_part.
  assert (Ha42 : char_eqb 42%N a = false).
  { apply N.eqb_neq. intros <-. apply H42. now left. }
  assert (Ha35 : char_eqb 35%N a = false).
  { apply N.eqb_neq. intros <-. apply H35. now left. }
  change (lit "**") with [42%N; 42%N]. change (lit "*") with [42%N].
  change (lit "## ") with [35%N; 35%N; 32%N].
  cbn [startsWith]. now rewrite Ha42, Ha35.
Qed.

Lemma renderMarkdown_plain_witness :
  lit "만족하십니까?" <> []
  /\ ~ In 42%N (lit "만족하십니까?")
  /\ ~ In 35%N (lit "만족하십니까?")
  /\ renderMarkdown (lit "만족하십니까?") = Some [Text (lit "만족하십니까?")].
Proof.
  assert (H : lit "만족하십니까?" <> []) by (vm_compute; discriminate).
  assert (H42 : ~ In 42%N (lit "만족하십니까?"))
    by (vm_compute; intuition discriminate).
  assert (H35 : ~ In 35%N (lit "만족하십니까?"))
    by (vm_compute; intuition discriminate).
  split; [exact H|]. split; [exact H42|]. split; [exact H35|].
  exact (renderMarkdown_plain _ H H42 H35).
Defined.

(** ** One emphasized span *)

(** A greedy star over a class runs to the end of the units the class
    accepts, when the rest of the pattern matches from there. *)
Lemma star_class_greedy (R : Type) (p : char -> bool) (k : cont R) (x : R) :
  forall (u t : jsstring) (i : nat) (c : captures),
    Forall (fun a => p a = true) u ->
    (forall b t', t = b :: t' -> p b = false) ->
    k (i + length u) t c = Some x ->
    rmatch (Star true (Class p)) i (u ++ t) c k = Some x.
Proof.
  induction u as [|a u IH]; intros t i c Hu Ht Hk.
  - cbn [app length] in *. rewrite Nat.add_0_r in Hk.
    cbn [rmatch]. destruct t as [|b t']; cbn [length star_loop]; [exact Hk|].
    cbn [rmatch]. rewrite (Ht b t' eq_refl). exact Hk.
  - inversion Hu as [|? ? Ha Hu']; subst.
    cbn [app rmatch length star_loop]. rewrite Ha.
    replace (i <? S i) with true by (symmetry; apply Nat.ltb_lt; lia).
    assert (H : rmatch (Star true (Class p)) (S i) (u ++ t) c k = Some x).
    { apply (IH t (S i) c Hu' Ht).
      cbn [length] in Hk. now replace (S i + length u) with (i + S (length u)) by lia. }
    cbn [rmatch] in H. now rewrite H.
Qed.

Lemma not_star_all (inner : jsstring) :
  ~ In 42%N inner -> Forall (fun a => negb (char_eqb a 42%N) = true) inner.
Proof.
  intros H. apply Forall_forall. intros a Ha.
  apply negb_true_iff, N.eqb_neq. intros ->. contradiction.
Qed.

(** One or more units that are no asterisk, then the closing marker. *)
Lemma plus_not_star_then (R : Type) (close : jsstring) (k : cont R) (x : R)
      (a : char) (inner : jsstring) (i : nat) (c : captures) :
  ~ In 42%N (a :: inner) ->
  close = [42%N] \/ close = [42%N; 42%N] ->
  k (S i + length inner + length close) [] c = Some x ->
  rmatch (Cat (Plus not_star) (Lit close)) i ((a :: inner) ++ close) c k = Some x.
Proof.
  intros Hfree Hclose Hk.
  pose proof (not_star_all _ Hfree) as Hall.
  inversion Hall as [|? ? Ha Hinner]; subst.
  unfold Plus, not_star. cbn [rmatch app]. rewrite Ha.
  apply star_class_greedy; [exact Hinner| |].
  - destruct Hclose as [->| ->]; intros b t' [= <- <-]; reflexivity.
  - destruct Hclose as [->| ->]; cbn [length] in Hk;
      cbn [rmatch Lit Seq List.map Chr]; change (char_eqb 42 42)%N with true;
      cbv iota;
      match goal with
      | H : k ?j' [] c = Some x |- k ?j [] c = Some x =>
          replace j with j' by lia; exact H
      end.
Qed.

(** The three alternatives of the pattern. *)
Lemma MARKDOWN_alternatives :
  MARKDOWN
  = Group 1
      (Alt (Cat (Lit [42; 42]%N) (Cat (Plus not_star) (Lit [42; 42]%N)))
         (Alt (Cat (Chr 42) (Cat (Plus not_star) (Lit [42%N])))
            (Cat (Lit [35; 35]%N) (Cat (Star true Space) (Plus Dot))))).
Proof. reflexivity. Qed.

Lemma match_here_group_alt (A B : regex) (i : nat) (s : jsstring) :
  match_here (Group 1 (Alt A B)) i s
  = match rmatch A i s [] (whole_match i s) with
    | Some x => Some x
    | None => rmatch B i s [] (whole_match i s)
    end.
Proof. reflexivity. Qed.

Lemma bold_branch (R : Type) (k : cont R) (x : R) (a : char) (inner : jsstring)
      (i : nat) (c : captures) :
  ~ In 42%N (a :: inner) ->
  k (S (S (S (S (S i)) + length inner))) [] c = Some x ->
  rmatch (Cat (Lit [42; 42]%N) (Cat (Plus not_star) (Lit [42; 42]%N))) i
    ([42; 42] ++ (a :: inner) ++ [42; 42])%N c k = Some x.
Proof.
  intros Hfree Hk.
  change (rmatch (Cat (Lit [42; 42]%N) (Cat (Plus not_star) (Lit [42; 42]%N))) i
            ([42; 42] ++ (a :: inner) ++ [42; 42])%N c k)
    with (rmatch (Cat (Plus not_star) (Lit [42; 42]%N)) (S (S i))
            ((a :: inner) ++ [42; 42])%N c k).
  apply plus_not_star_then; [exact Hfree|now right|].
  match goal with
  | H : k ?j' [] c = Some x |- k ?j [] c = Some x =>
      replace j with j' by (cbn [length]; lia); exact H
  end.
Qed.

Lemma bold_branch_fails (R : Type) (k : cont R) (a : char) (t : jsstring)
      (i : nat) (c : captures) :
  a <> 42%N ->
  rmatch (Cat (Lit [42; 42]%N) (Cat (Plus not_star) (Lit [42; 42]%N))) i
    (42%N :: a :: t) c k = None.
Proof.
  intros Ha.
  assert (E : char_eqb 42%N a = false) by (apply N.eqb_neq; congruence).
  cbn [rmatch Lit Seq List.map Chr]. change (char_eqb 42 42)%N with true.
  cbv iota. now rewrite E.
Qed.

Lemma italic_branch (R : Type) (k : cont R) (x : R) (a : char) (inner : jsstring)
      (i : nat) (c : captures) :
  ~ In 42%N (a :: inner) ->
  k (S (S (S i) + length inner)) [] c = Some x ->
  rmatch (Cat (Chr 42) (Cat (Plus not_star) (Lit [42%N]))) i
    ([42] ++ (a :: inner) ++ [42])%N c k = Some x.
Proof.
  intros Hfree Hk.
  change (rmatch (Cat (Chr 42) (Cat (Plus not_star) (Lit [42%N]))) i
            ([42] ++ (a :: inner) ++ [42])%N c k)
    with (rmatch (Cat (Plus not_star) (Lit [42%N])) (S i)
            ((a :: inner) ++ [42])%N c k).
  apply plus_not_star_then; [exact Hfree|now left|].
  match goal with
  | H : k ?j' [] c = Some x |- k ?j [] c = Some x =>
      replace j with j' by (cbn [length]; lia); exact H
  end.
Qed.

Lemma markdown_bold_match (a : char) (inner : jsstring) :
  ~ In 42%N (a :: inner) ->
  exists z, match_here MARKDOWN 0 ([42; 42] ++ (a :: inner) ++ [42; 42])%N = Some z
            /\ m_rest z = [].
Proof.
  intros Hfree. rewrite MARKDOWN_alternatives, match_here_group_alt.
  erewrite (bold_branch _ _ _ a inner 0 [] Hfree); [|reflexivity].
  eexists. split; reflexivity.
Qed.

Lemma markdown_italic_match (a : char) (inner : jsstring) :
  ~ In 42%N (a :: inner) ->
  exists z, match_here MARKDOWN 0 ([42] ++ (a :: inner) ++ [42])%N = Some z
            /\ m_rest z = [].
Proof.
  intros Hfree. rewrite MARKDOWN_alternatives, match_here_group_alt.
  assert (Ha : a <> 42%N) by (intros ->; apply Hfree; now left).
  change ([42] ++ (a :: inner) ++ [42])%N with (42 :: a :: inner ++ [42])%N at 1.
  rewrite (bold_branch_fails _ _ a (inner ++ [42%N]) 0 [] Ha).
  change (rmatch (Alt ?A ?B) ?i ?s ?c ?k)
    with (match rmatch A i s c k with
          | Some x => Some x
          | None => rmatch B i s c k
          end).
  erewrite (italic_branch _ _ _ a inner 0 [] Hfree); [|reflexivity].
  eexists. split; reflexivity.
Qed.

Lemma split_regex_whole (r : regex) (a : char) (s : jsstring) (z : match_result) :
  match_here r 0 (a :: s) = Some z -> m_rest z = [] ->
  split_regex r (a :: s) = [[]; group 1 z; []].
Proof.
  intros E Hrest. unfold split_regex.
  replace (2 * length (a :: s) + 1) with (S (S (2 * length s + 1)))
    by (cbn [length]; lia).
  cbn [split_loop]. rewrite E, Hrest. reflexivity.
Qed.

Lemma render_part_bold (inner : jsstring) :
  render_part ([42; 42] ++ inner ++ [42; 42])%N = Strong inner.
Proof.
  unfold render_part, endsWith. change (lit "**") with [42%N; 42%N].
  rewrite !rev_app_distr. cbn [List.rev app startsWith char_eqb N.eqb Pos.eqb andb].
  f_equal. unfold slice_end. cbn [skipn app].
  apply firstn_exact. cbn [length app]. rewrite ?length_app. cbn [length]. lia.
Qed.

Lemma render_part_italic (a : char) (inner : jsstring) :
  a <> 42%N ->
  render_part ([42] ++ (a :: inner) ++ [42])%N = Em (a :: inner).
Proof.
  intros Ha. unfold render_part, endsWith.
  change (lit "**") with [42%N; 42%N]. change (lit "*") with [42%N].
  assert (E : char_eqb 42%N a = false) by (apply N.eqb_neq; congruence).
  rewrite !rev_app_distr.
  cbn [List.rev app startsWith]. change (char_eqb 42 42)%N with true. rewrite E.
  cbn [andb negb].
  f_equal. unfold slice_end. cbn [skipn app].
  apply (firstn_exact _ (a :: inner) [42%N]). cbn [length app]. rewrite ?length_app.
  cbn [length]. lia.
Qed.

(** X27. A text that is one emphasized span and nothing else renders as
    one element between two empty parts: two asterisks on each side of a
    non-empty text without asterisks give a [strong] element holding
    that text, one asterisk on each side gives an [em] element. *)
Theorem renderMarkdown_emphasis (inner : jsstring) :
  inner <> [] -> ~ In 42%N inner ->
  renderMarkdown (lit "**" ++ inner ++ lit "**")
  = Some [Text []; Strong inner; Text []]
  /\ renderMarkdown (lit "*" ++ inner ++ lit "*")
     = Some [Text []; Em inner; Text []].
Proof.
  intros Hne Hfree. destruct inner as [|a inner]; [contradiction|].
  change (lit "**") with [42%N; 42%N]. change (lit "*") with [42%N].
  split.
  - destruct (markdown_bold_match a inner Hfree) as (z & E & Hrest).
    pose proof (match_here_group1 _ _ _ _ E) as Hg.
    rewrite Hrest, app_nil_r in Hg.
    unfold renderMarkdown. cbn [app is_empty] in *.
    match goal with
    | |- context [split_regex MARKDOWN ?t] =>
        replace (split_regex MARKDOWN t) with [[]; group 1 z; []]
          by (symmetry; exact (split_regex_whole _ _ _ z E Hrest))
    end.
    rewrite <- Hg. cbn [List.map]. do 2 f_equal.
    f_equal. exact (render_part_bold (a :: inner)).
  - destruct (markdown_italic_match a inner Hfree) as (z & E & Hrest).
    pose proof (match_here_group1 _ _ _ _ E) as Hg.
    rewrite Hrest, app_nil_r in Hg.
    unfold renderMarkdown. cbn [app is_empty] in *.
    match goal with
    | |- context [split_regex MARKDOWN ?t] =>
        replace (split_regex MARKDOWN t) with [[]; group 1 z; []]
          by (symmetry; exact (split_regex_whole _ _ _ z E Hrest))
    end.
    rewrite <- Hg. cbn [List.map]. do 2 f_equal.
    f_equal. apply (render_part_italic a inner).
    intros ->. apply Hfree. now left.
Qed.

Lemma renderMarkdown_emphasis_witness :
  lit "필수" <> [] /\ ~ In 42%N (lit "필수")
  /\ renderMarkdown (lit "**" ++ lit "필수" ++ lit "**")
     = Some [Text []; Strong (lit "필수"); Text []].
Proof.
  assert (Hne : lit "필수" <> []) by (vm_compute; discriminate).
  assert (Hfree : ~ In 42%N (lit "필수")) by (vm_compute; intuition discriminate).
  split; [exact Hne|]. split; [exact Hfree|].
  exact (proj1 (renderMarkdown_emphasis (lit "필수") Hne Hfree)).
Defined.

(** ** The overview value *)






(* ===================================================================== *)
(** * More of the parser: printed arrays and numbered lines *)
(* ===================================================================== *)

(** ** Global replacement, step by step *)

Lemma replace_all_from_copy (r : regex) (by_ : jsstring) (fuel i : nat)
      (a : char) (t : jsstring) :
  match_here r i (a :: t) = None ->
  replace_all_from r by_ (S fuel) i (a :: t)
  = a :: replace_all_from r by_ fuel (S i) t.
Proof. intros H. now rewrite replace_all_from_S, H. Qed.

Lemma replace_all_from_hit (r : regex) (by_ : jsstring) (fuel i : nat)
      (s : jsstring) (m : match_result) :
  match_here r i s = Some m ->
  length (m_rest m) < length s ->
  replace_all_from r by_ (S fuel) i s
  = by_ ++ replace_all_from r by_ fuel (i + (length s - length (m_rest m))) (m_rest m).
Proof.
  intros H Hlen. rewrite replace_all_from_S, H.
  apply Nat.ltb_lt in Hlen. now rewrite Hlen.
Qed.

Lemma replace_all_from_end (r : regex) (by_ : jsstring) (fuel i : nat) :
  match_here r i [] = None -> replace_all_from r by_ fuel i [] = [].
Proof.
  intros H. destruct fuel as [|fuel]; [reflexivity|].
  now rewrite replace_all_from_S, H.
Qed.

(** Where no position starts a match, nothing is replaced. *)
Lemma replace_all_from_none (r : regex) (by_ : jsstring) (s : jsstring) :
  (forall i u t, s = u ++ t -> match_here r i t = None) ->
  forall fuel i, replace_all_from r by_ fuel i s = s.
Proof.
  induction s as [|a s IH]; intros Hnone fuel i.
  - apply replace_all_from_end. now apply (Hnone i []).
  - destruct fuel as [|fuel]; [reflexivity|].
    rewrite replace_all_from_copy by (now apply (Hnone i [])).
    f_equal. apply IH. intros j u t ->. now apply (Hnone j (a :: u)).
Qed.

(** ** The four replacements on a printed array *)

(** A pattern that strips one unit of a class at the start and one at
    the end: [/^p|q$/g]. *)
Lemma strip_inner (p q : char -> bool) (b : char) :
  q b = true ->
  forall (body : jsstring) (fuel i : nat),
    length (body ++ [b]) < fuel ->
    replace_all_from (Alt (Cat Bol (Class p)) (Cat (Class q) Eol)) [] fuel (S i)
      (body ++ [b])
    = body.
Proof.
  intros Hb. induction body as [|a body IH]; intros fuel i Hfuel;
    (destruct fuel as [|fuel]; [cbn [length] in Hfuel; lia|]);
    cbn [app length] in *.
  - rewrite (replace_all_from_hit _ _ _ _ _
               {| m_start := S i; m_rest := [];
                  m_caps := [(0, firstn (S (S i) - S i) [b])] |}).
    + cbn [app m_rest]. apply replace_all_from_end. reflexivity.
    + unfold match_here. cbn [rmatch Nat.eqb]. now rewrite Hb.
    + cbn. lia.
  - rewrite replace_all_from_copy.
    + f_equal. apply IH. lia.
    + unfold match_here. cbn [rmatch Nat.eqb].
      destruct body; cbn [app]; now destruct (q a).
Qed.

Lemma strip_ends (p q : char -> bool) (a b : char) (body : jsstring) :
  p a = true -> q b = true ->
  replace_all (Alt (Cat Bol (Class p)) (Cat (Class q) Eol)) []
    ([a] ++ body ++ [b])
  = body.
Proof.
  intros Ha Hb. unfold replace_all. cbn [app].
  rewrite (replace_all_from_hit _ _ _ _ _
             {| m_start := 0; m_rest := body ++ [b];
                m_caps := [(0, firstn (1 - 0) (a :: body ++ [b]))] |}).
  - cbn [app m_rest length].
    replace (0 + (S (length (body ++ [b])) - length (body ++ [b]))) with 1 by lia.
    apply (strip_inner p q b Hb). cbn [length]. lia.
  - unfold match_here. cbn [rmatch Nat.eqb]. now rewrite Ha.
  - cbn [m_rest length]. lia.
Qed.

Lemma is_quote (a : char) :
  existsb (char_eqb a) [39; 34]%N = true -> a = 39%N \/ a = 34%N.
Proof.
  cbn [existsb]. rewrite !orb_true_iff. unfold char_eqb. rewrite !N.eqb_eq.
  intuition discriminate.
Qed.

(** No separator starts at a unit that is no quote. *)
Lemma separator_needs_quote (i : nat) (a : char) (t : jsstring) :
  a <> 39%N -> a <> 34%N -> match_here ITEM_SEPARATOR i (a :: t) = None.
Proof.
  intros H39 H34.
  destruct (match_here ITEM_SEPARATOR i (a :: t)) as [m|] eqn:E; [|reflexivity].
  apply match_here_sound in E. destruct E as (i' & c' & Hm & _).
  unfold ITEM_SEPARATOR in Hm. cbn [Seq] in Hm.
  apply cat_class_head in Hm. destruct Hm as (b & w & [= <- <-] & Hq).
  apply is_quote in Hq. tauto.
Qed.

(** The separator at the head of the subject is matched as a whole. *)
Lemma separator_match (R : Type) (k : cont R) (x : R) (i : nat) (c : captures)
      (rest : jsstring) :
  k (S (S (S (S i)))) rest c = Some x ->
  rmatch ITEM_SEPARATOR i (sep_single ++ rest) c k = Some x.
Proof.
  intros Hk. unfold ITEM_SEPARATOR. change sep_single with [39; 44; 32; 39]%N.
  cbn [Seq app].
  change (rmatch (Cat quote_class ?r) i (39%N :: ?s) c k)
    with (rmatch r (S i) s c k).
  change (rmatch (Cat (Star true Space) ?r) (S i) ?s c k)
    with (rmatch (Star true (Class is_space)) (S i) ([] ++ s) c
            (fun i' s' c' => rmatch r i' s' c' k)).
  apply star_class_greedy; [constructor|now intros b t' [= <- <-]|].
  cbn [length]. rewrite Nat.add_0_r.
  change (rmatch (Cat (Chr 44) ?r) (S i) (44%N :: ?s) c k)
    with (rmatch r (S (S i)) s c k).
  change (rmatch (Cat (Star true Space) ?r) (S (S i)) (32%N :: ?s) c k)
    with (rmatch (Star true (Class is_space)) (S (S i)) ([32%N] ++ s) c
            (fun i' s' c' => rmatch r i' s' c' k)).
  apply star_class_greedy;
    [repeat constructor|now intros b t' [= <- <-]|].
  cbn [length].
  replace (S (S i) + 1) with (S (S (S i))) by lia.
  exact Hk.
Qed.

Lemma separator_hit (i : nat) (rest : jsstring) :
  exists m, match_here ITEM_SEPARATOR i (sep_single ++ rest) = Some m
            /\ m_rest m = rest.
Proof.
  unfold match_here.
  change (rmatch (Group 0 ITEM_SEPARATOR) i (sep_single ++ rest) [] ?k)
    with (rmatch ITEM_SEPARATOR i (sep_single ++ rest) []
            (fun i' s' c' =>
               k i' s' ((0, firstn (i' - i) (sep_single ++ rest)) :: c'))).
  erewrite separator_match; [|reflexivity].
  eexists. split; reflexivity.
Qed.

Lemma separator_copy (l t : jsstring) :
  ~ In 39%N l -> ~ In 34%N l ->
  forall fuel i,
    replace_all_from ITEM_SEPARATOR newline (length l + fuel) i (l ++ t)
    = l ++ replace_all_from ITEM_SEPARATOR newline fuel (i + length l) t.
Proof.
  induction l as [|a l IH]; intros H39 H34 fuel i; cbn [app length].
  - now rewrite Nat.add_0_r.
  - cbn [Nat.add]. rewrite replace_all_from_copy.
    + f_equal. rewrite IH.
      * now replace (S i + length l) with (i + S (length l)) by lia.
      * intros H. apply H39. now right.
      * intros H. apply H34. now right.
    + apply separator_needs_quote.
      * intros ->. apply H39. now left.
      * intros ->. apply H34. now left.
Qed.

Lemma join_cons (sep l l' : jsstring) (rest : list jsstring) :
  join sep (l :: l' :: rest) = l ++ sep ++ join sep (l' :: rest).
Proof. reflexivity. Qed.

Lemma separators_to_newlines (items : list jsstring) :
  Forall printable items ->
  forall fuel i,
    length (join sep_single items) < fuel ->
    replace_all_from ITEM_SEPARATOR newline fuel i (join sep_single items)
    = join newline items.
Proof.
  induction 1 as [|l items (H39 & H34 & _) _ IH]; intros fuel i Hfuel.
  - cbn [join]. apply replace_all_from_end. reflexivity.
  - destruct items as [|l' rest].
    + cbn [join] in *.
      pose proof (separator_copy l [] H39 H34 (fuel - length l) i) as Hc.
      rewrite app_nil_r in Hc.
      replace (length l + (fuel - length l)) with fuel in Hc by lia.
      rewrite Hc, replace_all_from_end by reflexivity. apply app_nil_r.
    + rewrite !join_cons in *. rewrite !length_app in Hfuel.
      change (length sep_single) with 4 in Hfuel.
      pose proof (separator_copy l (sep_single ++ join sep_single (l' :: rest))
                    H39 H34 (S (fuel - length l - 1)) i) as Hc.
      replace (length l + S (fuel - length l - 1)) with fuel in Hc by lia.
      rewrite Hc. f_equal.
      destruct (separator_hit (i + length l) (join sep_single (l' :: rest)))
        as (m & Hm & Hrest).
      rewrite (replace_all_from_hit _ _ _ _ _ m Hm);
        [|rewrite Hrest, length_app; change (length sep_single) with 4; lia].
      rewrite Hrest. f_equal. apply IH. lia.
Qed.

Lemma escaped_newline_needs_backslash (s : jsstring) :
  ~ In 92%N s -> replace_all ESCAPED_NEWLINE newline s = s.
Proof.
  intros H. unfold replace_all. apply replace_all_from_none.
  intros i u t ->.
  destruct (match_here ESCAPED_NEWLINE i t) as [m|] eqn:E; [|reflexivity].
  apply match_here_sound in E. destruct E as (i' & c' & Hm & _).
  unfold ESCAPED_NEWLINE, Lit in Hm. cbn [List.map Seq] in Hm.
  apply cat_class_head in Hm. destruct Hm as (b & w & -> & Hb).
  apply N.eqb_eq in Hb. subst b. exfalso. apply H, in_or_app. right. now left.
Qed.

Lemma join_free (bad : char) (sep : jsstring) (items : list jsstring) :
  ~ In bad sep -> Forall (fun l => ~ In bad l) items -> ~ In bad (join sep items).
Proof.
  intros Hsep. induction 1 as [|l items Hl _ IH]; [now cbn|].
  destruct items as [|l' rest]; [exact Hl|].
  rewrite join_cons. intros H.
  apply in_app_or in H. destruct H as [H|H]; [now apply Hl|].
  apply in_app_or in H. destruct H as [H|H]; [now apply Hsep|now apply IH].
Qed.

Lemma includes_here (p s : jsstring) : startsWith p (p ++ s) = true.
Proof.
  induction p as [|a p IH]; cbn [app startsWith]; [reflexivity|].
  unfold char_eqb. now rewrite N.eqb_refl, IH.
Qed.

Lemma includes_mid (p u v : jsstring) : includes p (u ++ p ++ v) = true.
Proof.
  induction u as [|a u IH]; cbn [app].
  - destruct (p ++ v) eqn:E; cbn [includes]; rewrite <- E, includes_here;
      reflexivity.
  - cbn [includes]. rewrite IH. apply orb_true_r.
Qed.

(** The four replacements turn a printed array of printable lines into
    the lines, one per line. *)
Lemma preprocess_printed_array (items : list jsstring) :
  2 <= length items -> Forall printable items ->
  preprocess (printed_array items) = join newline items.
Proof.
  intros Hlen Hitems. unfold preprocess.
  assert (Hinc : includes sep_single (printed_array items) = true).
  { destruct items as [|l [|l' rest]]; cbn [length] in Hlen; try lia.
    unfold printed_array. rewrite join_cons.
    replace ([91%N] ++ ([39%N] ++ (l ++ sep_single ++ join sep_single (l' :: rest))
                          ++ [39%N]) ++ [93%N])
      with (([91%N] ++ [39%N] ++ l) ++ sep_single
              ++ (join sep_single (l' :: rest) ++ [39%N] ++ [93%N]))
      by (now rewrite <- !app_assoc).
    apply includes_mid. }
  rewrite Hinc. cbn [orb]. unfold printed_array.
  unfold BRACKETS, Chr. rewrite strip_ends by reflexivity.
  unfold OUTER_QUOTES, quote_class, OneOf. rewrite strip_ends by reflexivity.
  unfold replace_all at 2. rewrite separators_to_newlines by (exact Hitems || lia).
  apply escaped_newline_needs_backslash.
  apply join_free; [cbn; intuition discriminate|].
  eapply Forall_impl; [|exact Hitems]. now intros l (_ & _ & H).
Qed.

(** X29. A draft that arrives printed as an array of two or more
    single-quoted lines, none of which holds a quote character or a
    backslash, parses exactly like the same lines separated by line
    feeds. *)
Theorem parseSurveyDraft_printed_array (items : list jsstring) :
  2 <= length items ->
  Forall (fun l => ~ In 39%N l /\ ~ In 34%N l /\ ~ In 92%N l) items ->
  parseSurveyDraft (printed_array items) = parseSurveyDraft (join newline items).
Proof.
  intros Hlen Hitems. rewrite !parseSurveyDraft_loop. unfold draft_lines.
  rewrite (preprocess_printed_array items Hlen Hitems).
  assert (Hplain : preprocess (join newline items) = join newline items).
  { unfold preprocess. change sep_single with [39; 44; 32; 39]%N.
    rewrite (not_includes 39%N); [|apply join_free; [cbn; intuition discriminate|]].
    - unfold sep_double. rewrite (not_includes 34%N); [reflexivity|].
      apply join_free; [cbn; intuition discriminate|].
      eapply Forall_impl; [|exact Hitems]. now intros l (_ & H & _).
    - eapply Forall_impl; [|exact Hitems]. now intros l (H & _ & _). }
  now rewrite Hplain.
Qed.

Lemma parseSurveyDraft_printed_array_witness :
  2 <= length [lit "Q1. a (MA)"; lit "- x"; lit "3) z"]
  /\ Forall printable [lit "Q1. a (MA)"; lit "- x"; lit "3) z"]
  /\ printed_array [lit "Q1. a (MA)"; lit "- x"; lit "3) z"]
     = lit "['Q1. a (MA)', '- x', '3) z']"
  /\ parseSurveyDraft (printed_array [lit "Q1. a (MA)"; lit "- x"; lit "3) z"])
     = parseSurveyDraft (join newline [lit "Q1. a (MA)"; lit "- x"; lit "3) z"]).
Proof.
  assert (Hlen : 2 <= length [lit "Q1. a (MA)"; lit "- x"; lit "3) z"])
    by (cbn; lia).
  assert (Hitems : Forall printable [lit "Q1. a (MA)"; lit "- x"; lit "3) z"])
    by (repeat constructor; vm_compute; intuition discriminate).
  split; [exact Hlen|]. split; [exact Hitems|].
  split; [vm_compute; reflexivity|].
  exact (parseSurveyDraft_printed_array _ Hlen Hitems).
Defined.

(** ** A numbered line under a question *)

Lemma plus_class_greedy (R : Type) (p : char -> bool) (k : cont R) (x : R)
      (a : char) (u t : jsstring) (i : nat) (c : captures) :
  p a = true -> Forall (fun b => p b = true) u ->
  (forall b t', t = b :: t' -> p b = false) ->
  k (S i + length u) t c = Some x ->
  rmatch (Plus (Class p)) i ((a :: u) ++ t) c k = Some x.
Proof.
  intros Ha Hu Ht Hk. unfold Plus. cbn [rmatch app]. rewrite Ha.
  now apply (star_class_greedy _ p _ _ u t).
Qed.

Lemma plus_class_all (R : Type) (p : char -> bool) (k : cont R) (x : R)
      (a : char) (u : jsstring) (i : nat) (c : captures) :
  p a = true -> Forall (fun b => p b = true) u ->
  k (S i + length u) [] c = Some x ->
  rmatch (Plus (Class p)) i (a :: u) c k = Some x.
Proof.
  intros Ha Hu Hk.
  pose proof (plus_class_greedy R p k x a u [] i c Ha Hu) as H.
  cbn [app] in H. rewrite app_nil_r in H. apply H; [|exact Hk].
  intros b t' [=].
Qed.

(** One or two digits, captured, before a unit that is no digit. *)
Lemma numbered_head (R : Type) (k : cont R) (x : R) (d rest : jsstring)
      (c : captures) :
  d <> [] -> length d <= 2 -> Forall (fun a => is_digit a = true) d ->
  (forall b t', rest = b :: t' -> is_digit b = false) ->
  k (length d) rest ((1, d) :: c) = Some x ->
  rmatch (Group 1 (Cat Digit (Opt Digit))) 0 (d ++ rest) c k = Some x.
Proof.
  intros Hne Hlen Hd Hrest Hk.
  destruct d as [|d1 [|d2 [|d3 d]]]; [contradiction| | |cbn in Hlen; lia].
  - inversion Hd as [|? ? H1 _]; subst.
    unfold Opt, Digit. cbn [rmatch app Nat.sub firstn length] in *. rewrite H1.
    destruct rest as [|b t']; [exact Hk|].
    rewrite (Hrest b t' eq_refl). exact Hk.
  - inversion Hd as [|? ? H1 Hd']; subst. inversion Hd' as [|? ? H2 _]; subst.
    unfold Opt, Digit. cbn [rmatch app Nat.sub firstn length] in *.
    rewrite H1, H2.
    match goal with
    | |- match ?e with Some _ => _ | None => _ end = _ =>
        replace e with (Some x) by (symmetry; exact Hk)
    end.
    reflexivity.
Qed.

(** The mark, the white space and the text of the line, captured. *)
Lemma numbered_tail (R : Type) (k : cont R) (x : R) (mark s1 : char)
      (sp : jsstring) (a : char) (t : jsstring) (i : nat) (c : captures) :
  mark = 46%N \/ mark = 41%N ->
  Forall (fun b => is_space b = true) (s1 :: sp) ->
  is_space a = false ->
  Forall (fun b => is_line_terminator b = false) (a :: t) ->
  k (S (S (S i) + length sp) + length t) [] ((2, a :: t) :: c) = Some x ->
  rmatch (Cat (OneOf (lit ".)")) (Cat (Plus Space) (Group 2 (Plus Dot)))) i
    (mark :: (s1 :: sp) ++ a :: t) c k = Some x.
Proof.
  intros Hmark Hsp Ha Ht Hk.
  inversion Hsp as [|? ? Hs1 Hsp']; subst.
  inversion Ht as [|? ? Hta Ht']; subst.
  assert (Hm : existsb (char_eqb mark) (lit ".)") = true)
    by (destruct Hmark as [->| ->]; reflexivity).
  change (rmatch (Cat (OneOf (lit ".)")) ?r) i (mark :: ?s) c k)
    with (if existsb (char_eqb mark) (lit ".)") then rmatch r (S i) s c k else None).
  rewrite Hm.
  change (rmatch (Cat (Plus Space) ?r) (S i) ?s c k)
    with (rmatch (Plus (Class is_space)) (S i) s c
            (fun i' s' c' => rmatch r i' s' c' k)).
  apply plus_class_greedy; [exact Hs1|exact Hsp'| |].
  { intros b t' [= <- <-]. exact Ha. }
  change (rmatch (Group 2 (Plus Dot)) ?j (a :: t) c k)
    with (rmatch (Plus (Class (fun b => negb (is_line_terminator b)))) j
            (a :: t) c
            (fun i' s' c' => k i' s' ((2, firstn (i' - j) (a :: t)) :: c'))).
  apply plus_class_all.
  - now rewrite Hta.
  - eapply Forall_impl; [|exact Ht']. intros b Hb. cbv beta. now rewrite Hb.
  - cbv beta. rewrite firstn_all2 by (cbn [length]; lia). exact Hk.
Qed.

Lemma numbered_option_match (d : jsstring) (mark s1 : char) (sp : jsstring)
      (a : char) (t : jsstring) :
  d <> [] -> length d <= 2 -> Forall (fun b => is_digit b = true) d ->
  mark = 46%N \/ mark = 41%N ->
  Forall (fun b => is_space b = true) (s1 :: sp) ->
  is_space a = false ->
  Forall (fun b => is_line_terminator b = false) (a :: t) ->
  exists m,
    exec NUMBERED_OPTION (d ++ mark :: (s1 :: sp) ++ a :: t) = Some m
    /\ group 2 m = a :: t.
Proof.
  intros Hne Hlen Hd Hmark Hsp Ha Ht.
  assert (Hmd : is_digit mark = false) by (destruct Hmark as [->| ->]; reflexivity).
  assert (H : exists m,
             match_here NUMBERED_OPTION 0 (d ++ mark :: (s1 :: sp) ++ a :: t) = Some m
             /\ group 2 m = a :: t).
  { unfold match_here, NUMBERED_OPTION. cbn [Seq].
    change (rmatch (Group 0 (Cat Bol (Cat ?g ?r))) 0 ?s [] ?k)
      with (rmatch g 0 s []
              (fun i1 s1 c1 =>
                 rmatch r i1 s1 c1
                   (fun i' s' c' => k i' s' ((0, firstn (i' - 0) s) :: c')))).
    eexists. split.
    - apply numbered_head; [exact Hne|exact Hlen|exact Hd| |].
      + intros b t' [= <- <-]. exact Hmd.
      + apply numbered_tail; [exact Hmark|exact Hsp|exact Ha|exact Ht|].
        reflexivity.
    - reflexivity. }
  destruct H as (m & Hm & Hg). exists m. split; [|exact Hg].
  unfold exec. destruct d as [|d1 d']; [contradiction|].
  cbn [app search_from] in *. now rewrite Hm.
Qed.

(** An option pattern asks for a marker at the start of the line. *)
Lemma marker_of_class (cs : jsstring) (a : char) :
  forallb (fun b => existsb (char_eqb b) option_markers) cs = true ->
  existsb (char_eqb a) cs = true -> In a option_markers.
Proof.
  intros Hall Ha. apply existsb_exists in Ha. destruct Ha as (b & Hb & E).
  apply N.eqb_eq in E. subst b. rewrite forallb_forall in Hall.
  specialize (Hall a Hb). apply existsb_exists in Hall.
  destruct Hall as (b & Hb' & E). apply N.eqb_eq in E. now subst b.
Qed.

Lemma option_patterns_need_marker (line : jsstring) (m : match_result) :
  first_match optionPatterns line = Some m ->
  exists a t, line = a :: t /\ In a option_markers.
Proof.
  unfold optionPatterns. cbn [first_match Seq].
  assert (Hhead : forall (cs : jsstring) (r : regex) (m' : match_result),
             exec (Cat Bol (Cat (OneOf cs) r)) line = Some m' ->
             forallb (fun b => existsb (char_eqb b) option_markers) cs = true ->
             exists a t, line = a :: t /\ In a option_markers).
  { intros cs r m' E Hcs. apply exec_anchored in E. destruct E as (i' & c' & H).
    apply cat_class_head in H. destruct H as (a & t & -> & Ha).
    exists a, t. split; [reflexivity|]. now apply (marker_of_class cs). }
  repeat match goal with
         | |- match exec ?p line with Some _ => _ | None => _ end = Some m -> _ =>
             let E := fresh "E" in
             destruct (exec p line) as [?|] eqn:E; [intros _|]
         end; try (intros [=]).
  - eapply Hhead; [exact E|]. vm_compute. reflexivity.
  - eapply Hhead; [exact E0|]. vm_compute. reflexivity.
  - apply exec_anchored in E1. destruct E1 as (i' & c' & H).
    apply cat_class_head in H. destruct H as (a & t & -> & Ha).
    exists a, t. split; [reflexivity|].
    apply N.eqb_eq in Ha. subst a.
    apply (marker_of_class [40%N]); [vm_compute|]; reflexivity.
  - eapply Hhead; [exact E2|]. vm_compute. reflexivity.
  - eapply Hhead; [exact E3|]. vm_compute. reflexivity.
Qed.

Lemma digit_no_marker (a : char) : is_digit a = true -> ~ In a option_markers.
Proof.
  intros H Hin.
  assert (Hall : forallb (fun b => negb (is_digit b)) option_markers = true)
    by (vm_compute; reflexivity).
  rewrite forallb_forall in Hall. specialize (Hall a Hin).
  rewrite H in Hall. discriminate.
Qed.

(** X30. Under a current question, a line that is one or two digits, a
    dot or a closing parenthesis, white space and a text is read as an
    option of that question, never as a question: the cleaned text is
    appended to the options of the current question when it is not
    empty, and nothing else changes. *)
Theorem numbered_line_is_an_option (st : Parser.state) (q : Question.t)
        (raw d sp text : jsstring) (mark : char) :
  currentQuestion st = Some q ->
  trim raw = d ++ mark :: sp ++ text ->
  d <> [] -> length d <= 2 -> Forall (fun a => is_digit a = true) d ->
  mark = 46%N \/ mark = 41%N ->
  sp <> [] -> Forall (fun a => is_space a = true) sp ->
  (exists a t, text = a :: t /\ is_space a = false) ->
  Forall (fun a => is_line_terminator a = false) text ->
  step st raw
  = if 0 <? length (clean_option text)
    then {| parsedQuestions := parsedQuestions st;
            currentQuestion :=
              Some (Question.with_options q
                      (Question.options q ++ [clean_option text]));
            questionId := questionId st |}
    else st.
Proof.
  intros Hcur Hline Hne Hlen Hd Hmark Hsp Hspace (a & t & -> & Ha) Hterm.
  destruct sp as [|s1 sp]; [contradiction|].
  destruct d as [|d1 d']; [contradiction|].
  assert (Hd1 : is_digit d1 = true) by (now inversion Hd).
  destruct (numbered_option_match (d1 :: d') mark s1 sp a t Hne Hlen Hd Hmark
              Hspace Ha Hterm) as (m & Hm & Hg).
  remember ((d1 :: d') ++ mark :: (s1 :: sp) ++ a :: t) as line eqn:El.
  assert (Hhd : exists w, line = d1 :: w) by (subst line; cbn [app]; eauto).
  destruct Hhd as (w & Hw).
  assert (Hq : first_match QUESTION_KEYWORD_PATTERNS line = None).
  { destruct (first_match QUESTION_KEYWORD_PATTERNS line) as [m'|] eqn:E;
      [|reflexivity].
    apply boundary_starts in E. destruct E as (b & w' & E & Hb).
    rewrite Hw in E. injection E as <- <-.
    destruct (digit_plain d1 Hd1) as (_ & Hnb & _). congruence. }
  assert (Ho : first_match optionPatterns line = None).
  { destruct (first_match optionPatterns line) as [m'|] eqn:E; [|reflexivity].
    apply option_patterns_need_marker in E. destruct E as (b & w' & E & Hb).
    rewrite Hw in E. injection E as <- <-.
    now apply (digit_no_marker d1 Hd1) in Hb. }
  assert (He : extract_option line = a :: t).
  { unfold extract_option. rewrite Ho. cbn [is_empty]. rewrite Hm, Hg.
    reflexivity. }
  unfold step. rewrite Hline.
  assert (Hnonempty : is_empty line = false) by (now rewrite Hw).
  rewrite Hnonempty, Hq, Hcur, He. reflexivity.
Qed.

Lemma numbered_line_is_an_option_witness :
  let q := Question.mk (lit "q_0") (lit "1") (lit "a") [] (lit "SC") false in
  let st := {| parsedQuestions := []; currentQuestion := Some q; questionId := 1 |} in
  currentQuestion st = Some q
  /\ trim (lit "  12. 라 ") = lit "12" ++ 46%N :: lit " " ++ lit "라"
  /\ step st (lit "  12. 라 ")
     = {| parsedQuestions := [];
          currentQuestion := Some (Question.with_options q [lit "라"]);
          questionId := 1 |}.
Proof.
  intros q st.
  assert (Hcur : currentQuestion st = Some q) by reflexivity.
  assert (Hline : trim (lit "  12. 라 ") = lit "12" ++ 46%N :: lit " " ++ lit "라")
    by (vm_compute; reflexivity).
  split; [exact Hcur|]. split; [exact Hline|].
  refine (eq_trans
            (numbered_line_is_an_option st q (lit "  12. 라 ") (lit "12") (lit " ")
               (lit "라") 46%N Hcur Hline _ _ _ _ _ _ _ _) _).
  - vm_compute. discriminate.
  - vm_compute. lia.
  - repeat constructor.
  - now left.
  - vm_compute. discriminate.
  - repeat constructor.
  - eexists _, _. split; [vm_compute; reflexivity|reflexivity].
  - repeat constructor.
  - vm_compute. reflexivity.
Defined.
